(** * Bramble memo generator: the markdown parser and HTML assembler

    A shallow embedding of [html_generator.py] (functions [parse_analysis],
    [save_section], [markdown_to_html], the field extractors [parse_*],
    [markdown_to_simple_html] and [generate_html]) together with the
    properties of the parsing and assembly pipeline, and of the pure
    steps of the drivers in [bramble_screen.py] and [streamlit_app.py]
    (the text of the deck, the replies of the model, the name of the
    output file).

    Modelling conventions.
    - A Python [str] is a list of characters ([str := list ascii]).  The
      character predicates follow Python on the ASCII range: whitespace is
      TAB, LF, VT, FF, CR, FS, GS, RS, US and SPACE, for [str.strip],
      [str.split()] and the regular-expression class [\s] alike; [\d] is
      [0-9]; [upper]/[lower] and [re.IGNORECASE] fold the letters [A-Z].
      Characters above 127 are caseless symbols that are neither space nor
      digit.
    - A Python [dict] with a fixed key set is a record; a list of dicts is
      a list of records.
    - Operations that can raise in Python (indexing a list, using a
      regular-expression group that did not take part in the match) live in
      the [result] monad.
    - The regular expressions of the source are terms of a small regex
      syntax, run by a backtracking matcher with the priorities of
      Python's [re] (leftmost, greedy or lazy as written, alternatives in
      order). *)

From Stdlib Require Import List Ascii String Bool Arith Lia DecimalString.
Import ListNotations.

Open Scope string_scope.
Open Scope list_scope.
Open Scope nat_scope.

(** ** Python strings *)

Definition str := list ascii.

Definition lit (s : string) : str := list_ascii_of_string s.
Coercion lit : string >-> str.

Notation "x +++ y" := (@app ascii (x : str) (y : str))
  (at level 60, right associativity).

Definition strs (l : list string) : list str := map lit l.

Definition nl : ascii := ascii_of_nat 10.
Definition dq : ascii := ascii_of_nat 34.

(** The HTML literals of the source are written here with ['] where the
    source has a double quote; [h] puts the double quotes back. *)
Definition h (s : string) : str :=
  map (fun c => if Ascii.eqb c "'"%char then dq else c) (lit s).

Module Py.

(** [c.isspace()] on the ASCII range. *)
Definition is_space (c : ascii) : bool :=
  let n := nat_of_ascii c in
  ((9 <=? n) && (n <=? 13)) || ((28 <=? n) && (n <=? 32)).

Definition is_digit (c : ascii) : bool :=
  let n := nat_of_ascii c in (48 <=? n) && (n <=? 57).

Definition upper_chr (c : ascii) : ascii :=
  let n := nat_of_ascii c in
  if (97 <=? n) && (n <=? 122) then ascii_of_nat (n - 32) else c.

Definition lower_chr (c : ascii) : ascii :=
  let n := nat_of_ascii c in
  if (65 <=? n) && (n <=? 90) then ascii_of_nat (n + 32) else c.

Definition upper (s : str) : str := map upper_chr s.
Definition lower (s : str) : str := map lower_chr s.

Fixpoint str_eqb (a b : str) : bool :=
  match a, b with
  | [], [] => true
  | x :: a', y :: b' => Ascii.eqb x y && str_eqb a' b'
  | _, _ => false
  end.

(** [x in [a, b, ...]] for a list of strings. *)
Definition mem (x : str) (l : list str) : bool := existsb (str_eqb x) l.

(** [s.startswith(p)] *)
Fixpoint startswith (p s : str) : bool :=
  match p, s with
  | [], _ => true
  | x :: p', y :: s' => Ascii.eqb x y && startswith p' s'
  | _ :: _, [] => false
  end.

(** [sub in s] *)
Fixpoint contains (sub s : str) : bool :=
  startswith sub s ||
  match s with
  | [] => false
  | _ :: s' => contains sub s'
  end.

(** [s.lstrip()], [s.rstrip()], [s.strip()] *)
Fixpoint lstrip (s : str) : str :=
  match s with
  | [] => []
  | c :: s' => if is_space c then lstrip s' else s
  end.

Fixpoint rstrip (s : str) : str :=
  match s with
  | [] => []
  | c :: s' =>
      match rstrip s' with
      | [] => if is_space c then [] else [c]
      | r => c :: r
      end
  end.

Definition strip (s : str) : str := rstrip (lstrip s).

(** [s.rstrip(':')]: trailing occurrences of one character. *)
Fixpoint rstrip_chr (d : ascii) (s : str) : str :=
  match s with
  | [] => []
  | c :: s' =>
      match rstrip_chr d s' with
      | [] => if Ascii.eqb c d then [] else [c]
      | r => c :: r
      end
  end.

(** [s.split(c)] for a one-character separator: never an empty list. *)
Fixpoint split_chr (d : ascii) (s : str) : list str :=
  match s with
  | [] => [[]]
  | c :: s' =>
      if Ascii.eqb c d then [] :: split_chr d s'
      else match split_chr d s' with
           | p :: ps => (c :: p) :: ps
           | [] => [[c]]
           end
  end.

(** [s.split(sep)] for a separator of any positive length: the separators
    are found left to right and do not overlap.  [skip] counts the
    characters of a separator still to be passed over. *)
Fixpoint split_from (sep s : str) (skip : nat) : list str :=
  match s with
  | [] => [[]]
  | c :: s' =>
      match skip with
      | S k => split_from sep s' k
      | O =>
          if startswith sep s then [] :: split_from sep s' (List.length sep - 1)
          else match split_from sep s' 0 with
               | p :: ps => (c :: p) :: ps
               | [] => [[c]]
               end
      end
  end.

Definition split (sep s : str) : list str := split_from sep s 0.

(** [s.split()]: the maximal runs of non-space characters. *)
Fixpoint words_from (s : str) (cur : str) : list str :=
  match s with
  | [] => match cur with [] => [] | _ => [rev cur] end
  | c :: s' =>
      if is_space c
      then match cur with
           | [] => words_from s' []
           | _ => rev cur :: words_from s' []
           end
      else words_from s' (c :: cur)
  end.

Definition words (s : str) : list str := words_from s [].

(** [sep.join(l)] *)
Fixpoint join (sep : str) (l : list str) : str :=
  match l with
  | [] => []
  | [x] => x
  | x :: l' => x ++ sep ++ join sep l'
  end.

(** [''.join(l)] *)
Definition concat_str (l : list str) : str := List.concat l.

(** [s.replace(old, new)]: every non-overlapping occurrence, left to right.
    With an empty [old] Python inserts [new] around every character. *)
Fixpoint replace_from (old new s : str) (skip : nat) : str :=
  match s with
  | [] => []
  | c :: s' =>
      match skip with
      | S k => replace_from old new s' k
      | O =>
          if startswith old s then new ++ replace_from old new s' (List.length old - 1)
          else c :: replace_from old new s' 0
      end
  end.

Fixpoint intersperse_str (new s : str) : str :=
  match s with
  | [] => new
  | c :: s' => new ++ c :: intersperse_str new s'
  end.

Definition replace (old new s : str) : str :=
  match old with
  | [] => intersperse_str new s
  | _ => replace_from old new s 0
  end.

(** [l[1:-1]] *)
Definition slice_1_m1 {A} (l : list A) : list A := removelast (tl l).

(** Truthiness of a string: non-empty. *)
Definition truthy (s : str) : bool :=
  match s with [] => false | _ => true end.

End Py.

(** ** Exceptions *)

Inductive exn := IndexError | AttributeError.

Inductive result (A : Type) : Type :=
| Ok (a : A)
| Raise (e : exn).
Arguments Ok {A} a.
Arguments Raise {A} e.

Definition bind {A B} (m : result A) (k : A -> result B) : result B :=
  match m with
  | Ok a => k a
  | Raise e => Raise e
  end.

Notation "x <- m ;; k" := (bind m (fun x => k))
  (at level 61, m at next level, right associativity).
Notation "' p <- m ;; k" := (bind m (fun x => let p := x in k))
  (at level 61, p pattern, m at next level, right associativity).

(** [l[i]] *)
Definition index {A} (l : list A) (i : nat) : result A :=
  match nth_error l i with
  | Some a => Ok a
  | None => Raise IndexError
  end.

(** A [for] loop whose body can raise. *)
Fixpoint for_each {A S} (body : S -> A -> result S) (l : list A) (s : S)
  : result S :=
  match l with
  | [] => Ok s
  | a :: l' => s' <- body s a ;; for_each body l' s'
  end.

(** ** Regular expressions

    The patterns of the source use literal text, character classes,
    sequencing, alternation, capture groups and quantified character
    classes (greedy [p*], [p+] and lazy [p+?], [p*?]).  [run] is a
    backtracking matcher in continuation-passing style: the continuation
    is the rest of the pattern, so that a failure further on makes a
    quantifier or an alternation try its next choice, in the order Python's
    [re] tries them. *)

Module Re.
Import Py.

Inductive regex :=
| Str (ci : bool) (s : str)       (* literal text; [ci]: re.IGNORECASE *)
| Cls (p : ascii -> bool)         (* one character of a class *)
| Seq (r1 r2 : regex)
| Alt (r1 r2 : regex)
| Rep (greedy : bool) (lo : nat) (p : ascii -> bool)
                                  (* at least [lo] characters of a class *)
| Grp (i : nat) (r : regex).      (* capture group number [i] *)

Definition caps := list (nat * str).

Definition chr_eq (ci : bool) (x y : ascii) : bool :=
  if ci then Ascii.eqb (lower_chr x) (lower_chr y) else Ascii.eqb x y.

Fixpoint lit_rest (ci : bool) (p s : str) : option str :=
  match p, s with
  | [], _ => Some s
  | x :: p', y :: s' => if chr_eq ci x y then lit_rest ci p' s' else None
  | _ :: _, [] => None
  end.

Fixpoint rep_greedy {T} (p : ascii -> bool) (lo : nat) (s : str)
    (k : str -> option T) : option T :=
  match s with
  | c :: s' =>
      if p c then
        match rep_greedy p (pred lo) s' k with
        | Some x => Some x
        | None => match lo with O => k s | S _ => None end
        end
      else match lo with O => k s | S _ => None end
  | [] => match lo with O => k s | S _ => None end
  end.

Fixpoint rep_lazy {T} (p : ascii -> bool) (lo : nat) (s : str)
    (k : str -> option T) {struct s} : option T :=
  match lo with
  | O =>
      match k s with
      | Some x => Some x
      | None =>
          match s with
          | c :: s' => if p c then rep_lazy p 0 s' k else None
          | [] => None
          end
      end
  | S lo' =>
      match s with
      | c :: s' => if p c then rep_lazy p lo' s' k else None
      | [] => None
      end
  end.

Fixpoint run {T} (r : regex) (s : str) (g : caps)
    (k : str -> caps -> option T) : option T :=
  match r with
  | Str ci p =>
      match lit_rest ci p s with
      | Some s' => k s' g
      | None => None
      end
  | Cls p =>
      match s with
      | c :: s' => if p c then k s' g else None
      | [] => None
      end
  | Seq r1 r2 => run r1 s g (fun s' g' => run r2 s' g' k)
  | Alt r1 r2 =>
      match run r1 s g k with
      | Some x => Some x
      | None => run r2 s g k
      end
  | Rep true lo p => rep_greedy p lo s (fun s' => k s' g)
  | Rep false lo p => rep_lazy p lo s (fun s' => k s' g)
  | Grp i r' =>
      run r' s g (fun s' g' =>
        k s' ((i, firstn (List.length s - List.length s') s) :: g'))
  end.

(** A match object: the length of the matched text and the groups. *)
Record match_obj := { m_len : nat; m_groups : caps }.

(** A match that starts at the first character of [s]: [re.match]. *)
Definition match_at (r : regex) (s : str) : option match_obj :=
  run r s [] (fun s' g =>
    Some {| m_len := List.length s - List.length s'; m_groups := g |}).

(** A match object used as a condition: [if re.match(r, s):]. *)
Definition matches (r : regex) (s : str) : bool :=
  match match_at r s with
  | Some _ => true
  | None => false
  end.

(** [re.search]: the leftmost position with a match. *)
Fixpoint search (r : regex) (s : str) : option match_obj :=
  match match_at r s with
  | Some m => Some m
  | None =>
      match s with
      | [] => None
      | _ :: s' => search r s'
      end
  end.

Fixpoint lookup (i : nat) (g : caps) : option str :=
  match g with
  | [] => None
  | (j, v) :: g' => if Nat.eqb i j then Some v else lookup i g'
  end.

(** [m.group(i)], used as a string: a group that took no part in the match
    is [None] in Python, and using it as a string raises. *)
Definition group (m : match_obj) (i : nat) : result str :=
  match lookup i (m_groups m) with
  | Some v => Ok v
  | None => Raise AttributeError
  end.

(** A group reference in a replacement template: an unmatched group
    expands to the empty string. *)
Definition tgroup (m : match_obj) (i : nat) : str :=
  match lookup i (m_groups m) with
  | Some v => v
  | None => []
  end.

(** [re.sub(r, repl, s)]: the non-overlapping matches, left to right, are
    replaced.  [skip] counts the characters of the last match still to be
    passed over.  No pattern of the source matches the empty string; for
    such a match the replacement is emitted and the scan moves on by one
    character. *)
Fixpoint sub_from (r : regex) (repl : match_obj -> str) (s : str)
    (skip : nat) : str :=
  match s with
  | [] =>
      match skip with
      | O => match match_at r [] with Some m => repl m | None => [] end
      | S _ => []
      end
  | c :: s' =>
      match skip with
      | S k => sub_from r repl s' k
      | O =>
          match match_at r s with
          | Some m =>
              repl m ++
              match m_len m with
              | O => c :: sub_from r repl s' 0
              | S k => sub_from r repl s' k
              end
          | None => c :: sub_from r repl s' 0
          end
      end
  end.

Definition sub (r : regex) (repl : match_obj -> str) (s : str) : str :=
  sub_from r repl s 0.

(** [re.sub] for a pattern that begins with [^] (no MULTILINE flag): only
    a match at the start of the string is replaced. *)
Definition sub_start (r : regex) (repl : match_obj -> str) (s : str) : str :=
  match match_at r s with
  | Some m => repl m ++ skipn (m_len m) s
  | None => s
  end.

(** [re.split(r, s)] for a pattern without groups: the pieces between the
    matches; never an empty list.  The one pattern the source splits on
    matches three characters; an empty match splits nothing here. *)
Fixpoint split_from (r : regex) (s : str) (skip : nat) : list str :=
  match s with
  | [] => [[]]
  | c :: s' =>
      match skip with
      | S k => split_from r s' k
      | O =>
          match match_at r s with
          | Some {| m_len := S k |} => [] :: split_from r s' k
          | _ =>
              match split_from r s' 0 with
              | p :: ps => (c :: p) :: ps
              | [] => [[c]]
              end
          end
      end
  end.

Definition split (r : regex) (s : str) : list str := split_from r s 0.

(** Character classes. *)
Definition any (c : ascii) : bool := true.                 (* [.] with DOTALL *)
Definition dot (c : ascii) : bool := negb (Ascii.eqb c nl). (* [.] *)
Definition chr (d : ascii) (c : ascii) : bool := Ascii.eqb c d.
Definition no (d : ascii) (c : ascii) : bool := negb (Ascii.eqb c d).
Definition one_of (l : str) (c : ascii) : bool := existsb (Ascii.eqb c) l.

Definition txt (s : string) : regex := Str false s.
Definition txt_i (s : string) : regex := Str true s.

(** Sequencing of several pieces, as a pattern is written. *)
Fixpoint seq (l : list regex) : regex :=
  match l with
  | [] => Str false []
  | [r] => r
  | r :: l' => Seq r (seq l')
  end.

Fixpoint alt (l : list regex) : regex :=
  match l with
  | [] => Cls (fun _ => false)
  | [r] => r
  | r :: l' => Alt r (alt l')
  end.

Definition star p := Rep true 0 p.
Definition plus p := Rep true 1 p.
Definition plus_lazy p := Rep false 1 p.
Definition star_lazy p := Rep false 0 p.
Definition opt (r : regex) : regex := Alt r (Str false []).

(** Group [i] takes part in every match of [r]. *)
Fixpoint sets (i : nat) (r : regex) : bool :=
  match r with
  | Str _ _ | Cls _ | Rep _ _ _ => false
  | Seq r1 r2 => sets i r1 || sets i r2
  | Alt r1 r2 => sets i r1 && sets i r2
  | Grp j r' => Nat.eqb i j || sets i r'
  end.

(** Group [i] is recorded in [g]. *)
Definition has (i : nat) (g : caps) : Prop := lookup i g <> None.

End Re.

Import Py.

(** ** The data model: the [sections] dictionary of [parse_analysis] *)

Record kv := { label : str; value : str }.
Record fit_row := { criterion : str; rating : str; assessment : str }.
Record point := { title : str; description : str }.
Record debate := { question : str; views : str }.

Record memo := {
  company_name : str;
  opportunity : str;
  snapshot : list kv;
  market : str;
  competition : str;
  team : str;
  investors : str;
  fit_table : list fit_row;
  overall_fit : str;
  bull_case : list point;
  bear_case : list point;
  key_debates : list debate;
  verdict : str;
  verdict_rationale : str;
  confidence : str;
  terms : list kv;
  risks : list point;
  info_gaps : str;
  dd_priorities : list str;
  bottom_line : str
}.

Definition empty_memo : memo :=
  {| company_name := []; opportunity := []; snapshot := []; market := [];
     competition := []; team := []; investors := []; fit_table := [];
     overall_fit := []; bull_case := []; bear_case := []; key_debates := [];
     verdict := []; verdict_rationale := []; confidence := []; terms := [];
     risks := []; info_gaps := []; dd_priorities := []; bottom_line := [] |}.

(** The assignment [sections[key] = v], one function per key. *)
Section Setters.
Variable m : memo.

Definition set_company_name v :=
  {| company_name := v; opportunity := opportunity m; snapshot := snapshot m;
     market := market m; competition := competition m; team := team m;
     investors := investors m; fit_table := fit_table m;
     overall_fit := overall_fit m; bull_case := bull_case m;
     bear_case := bear_case m; key_debates := key_debates m;
     verdict := verdict m; verdict_rationale := verdict_rationale m;
     confidence := confidence m; terms := terms m; risks := risks m;
     info_gaps := info_gaps m; dd_priorities := dd_priorities m;
     bottom_line := bottom_line m |}.

Definition set_opportunity v :=
  {| company_name := company_name m; opportunity := v; snapshot := snapshot m;
     market := market m; competition := competition m; team := team m;
     investors := investors m; fit_table := fit_table m;
     overall_fit := overall_fit m; bull_case := bull_case m;
     bear_case := bear_case m; key_debates := key_debates m;
     verdict := verdict m; verdict_rationale := verdict_rationale m;
     confidence := confidence m; terms := terms m; risks := risks m;
     info_gaps := info_gaps m; dd_priorities := dd_priorities m;
     bottom_line := bottom_line m |}.

Definition set_snapshot v :=
  {| company_name := company_name m; opportunity := opportunity m;
     snapshot := v;
     market := market m; competition := competition m; team := team m;
     investors := investors m; fit_table := fit_table m;
     overall_fit := overall_fit m; bull_case := bull_case m;
     bear_case := bear_case m; key_debates := key_debates m;
     verdict := verdict m; verdict_rationale := verdict_rationale m;
     confidence := confidence m; terms := terms m; risks := risks m;
     info_gaps := info_gaps m; dd_priorities := dd_priorities m;
     bottom_line := bottom_line m |}.

Definition set_market v :=
  {| company_name := company_name m; opportunity := opportunity m;
     snapshot := snapshot m;
     market := v; competition := competition m; team := team m;
     investors := investors m; fit_table := fit_table m;
     overall_fit := overall_fit m; bull_case := bull_case m;
     bear_case := bear_case m; key_debates := key_debates m;
     verdict := verdict m; verdict_rationale := verdict_rationale m;
     confidence := confidence m; terms := terms m; risks := risks m;
     info_gaps := info_gaps m; dd_priorities := dd_priorities m;
     bottom_line := bottom_line m |}.

Definition set_competition v :=
  {| company_name := company_name m; opportunity := opportunity m;
     snapshot := snapshot m;
     market := market m; competition := v; team := team m;
     investors := investors m; fit_table := fit_table m;
     overall_fit := overall_fit m; bull_case := bull_case m;
     bear_case := bear_case m; key_debates := key_debates m;
     verdict := verdict m; verdict_rationale := verdict_rationale m;
     confidence := confidence m; terms := terms m; risks := risks m;
     info_gaps := info_gaps m; dd_priorities := dd_priorities m;
     bottom_line := bottom_line m |}.

Definition set_team v :=
  {| company_name := company_name m; opportunity := opportunity m;
     snapshot := snapshot m;
     market := market m; competition := competition m; team := v;
     investors := investors m; fit_table := fit_table m;
     overall_fit := overall_fit m; bull_case := bull_case m;
     bear_case := bear_case m; key_debates := key_debates m;
     verdict := verdict m; verdict_rationale := verdict_rationale m;
     confidence := confidence m; terms := terms m; risks := risks m;
     info_gaps := info_gaps m; dd_priorities := dd_priorities m;
     bottom_line := bottom_line m |}.

Definition set_investors v :=
  {| company_name := company_name m; opportunity := opportunity m;
     snapshot := snapshot m;
     market := market m; competition := competition m; team := team m;
     investors := v; fit_table := fit_table m;
     overall_fit := overall_fit m; bull_case := bull_case m;
     bear_case := bear_case m; key_debates := key_debates m;
     verdict := verdict m; verdict_rationale := verdict_rationale m;
     confidence := confidence m; terms := terms m; risks := risks m;
     info_gaps := info_gaps m; dd_priorities := dd_priorities m;
     bottom_line := bottom_line m |}.

Definition set_fit (rows : list fit_row) (overall : str) :=
  {| company_name := company_name m; opportunity := opportunity m;
     snapshot := snapshot m;
     market := market m; competition := competition m; team := team m;
     investors := investors m; fit_table := rows;
     overall_fit := overall; bull_case := bull_case m;
     bear_case := bear_case m; key_debates := key_debates m;
     verdict := verdict m; verdict_rationale := verdict_rationale m;
     confidence := confidence m; terms := terms m; risks := risks m;
     info_gaps := info_gaps m; dd_priorities := dd_priorities m;
     bottom_line := bottom_line m |}.

Definition set_bull_case v :=
  {| company_name := company_name m; opportunity := opportunity m;
     snapshot := snapshot m;
     market := market m; competition := competition m; team := team m;
     investors := investors m; fit_table := fit_table m;
     overall_fit := overall_fit m; bull_case := v;
     bear_case := bear_case m; key_debates := key_debates m;
     verdict := verdict m; verdict_rationale := verdict_rationale m;
     confidence := confidence m; terms := terms m; risks := risks m;
     info_gaps := info_gaps m; dd_priorities := dd_priorities m;
     bottom_line := bottom_line m |}.

Definition set_bear_case v :=
  {| company_name := company_name m; opportunity := opportunity m;
     snapshot := snapshot m;
     market := market m; competition := competition m; team := team m;
     investors := investors m; fit_table := fit_table m;
     overall_fit := overall_fit m; bull_case := bull_case m;
     bear_case := v; key_debates := key_debates m;
     verdict := verdict m; verdict_rationale := verdict_rationale m;
     confidence := confidence m; terms := terms m; risks := risks m;
     info_gaps := info_gaps m; dd_priorities := dd_priorities m;
     bottom_line := bottom_line m |}.

Definition set_key_debates v :=
  {| company_name := company_name m; opportunity := opportunity m;
     snapshot := snapshot m;
     market := market m; competition := competition m; team := team m;
     investors := investors m; fit_table := fit_table m;
     overall_fit := overall_fit m; bull_case := bull_case m;
     bear_case := bear_case m; key_debates := v;
     verdict := verdict m; verdict_rationale := verdict_rationale m;
     confidence := confidence m; terms := terms m; risks := risks m;
     info_gaps := info_gaps m; dd_priorities := dd_priorities m;
     bottom_line := bottom_line m |}.

Definition set_verdict v :=
  {| company_name := company_name m; opportunity := opportunity m;
     snapshot := snapshot m;
     market := market m; competition := competition m; team := team m;
     investors := investors m; fit_table := fit_table m;
     overall_fit := overall_fit m; bull_case := bull_case m;
     bear_case := bear_case m; key_debates := key_debates m;
     verdict := v; verdict_rationale := verdict_rationale m;
     confidence := confidence m; terms := terms m; risks := risks m;
     info_gaps := info_gaps m; dd_priorities := dd_priorities m;
     bottom_line := bottom_line m |}.

Definition set_verdict_rationale v :=
  {| company_name := company_name m; opportunity := opportunity m;
     snapshot := snapshot m;
     market := market m; competition := competition m; team := team m;
     investors := investors m; fit_table := fit_table m;
     overall_fit := overall_fit m; bull_case := bull_case m;
     bear_case := bear_case m; key_debates := key_debates m;
     verdict := verdict m; verdict_rationale := v;
     confidence := confidence m; terms := terms m; risks := risks m;
     info_gaps := info_gaps m; dd_priorities := dd_priorities m;
     bottom_line := bottom_line m |}.

Definition set_confidence v :=
  {| company_name := company_name m; opportunity := opportunity m;
     snapshot := snapshot m;
     market := market m; competition := competition m; team := team m;
     investors := investors m; fit_table := fit_table m;
     overall_fit := overall_fit m; bull_case := bull_case m;
     bear_case := bear_case m; key_debates := key_debates m;
     verdict := verdict m; verdict_rationale := verdict_rationale m;
     confidence := v; terms := terms m; risks := risks m;
     info_gaps := info_gaps m; dd_priorities := dd_priorities m;
     bottom_line := bottom_line m |}.

Definition set_terms v :=
  {| company_name := company_name m; opportunity := opportunity m;
     snapshot := snapshot m;
     market := market m; competition := competition m; team := team m;
     investors := investors m; fit_table := fit_table m;
     overall_fit := overall_fit m; bull_case := bull_case m;
     bear_case := bear_case m; key_debates := key_debates m;
     verdict := verdict m; verdict_rationale := verdict_rationale m;
     confidence := confidence m; terms := v; risks := risks m;
     info_gaps := info_gaps m; dd_priorities := dd_priorities m;
     bottom_line := bottom_line m |}.

Definition set_risks (rs : list point) (gaps : str) :=
  {| company_name := company_name m; opportunity := opportunity m;
     snapshot := snapshot m;
     market := market m; competition := competition m; team := team m;
     investors := investors m; fit_table := fit_table m;
     overall_fit := overall_fit m; bull_case := bull_case m;
     bear_case := bear_case m; key_debates := key_debates m;
     verdict := verdict m; verdict_rationale := verdict_rationale m;
     confidence := confidence m; terms := terms m; risks := rs;
     info_gaps := gaps; dd_priorities := dd_priorities m;
     bottom_line := bottom_line m |}.

Definition set_dd_priorities v :=
  {| company_name := company_name m; opportunity := opportunity m;
     snapshot := snapshot m;
     market := market m; competition := competition m; team := team m;
     investors := investors m; fit_table := fit_table m;
     overall_fit := overall_fit m; bull_case := bull_case m;
     bear_case := bear_case m; key_debates := key_debates m;
     verdict := verdict m; verdict_rationale := verdict_rationale m;
     confidence := confidence m; terms := terms m; risks := risks m;
     info_gaps := info_gaps m; dd_priorities := v;
     bottom_line := bottom_line m |}.

Definition set_bottom_line v :=
  {| company_name := company_name m; opportunity := opportunity m;
     snapshot := snapshot m;
     market := market m; competition := competition m; team := team m;
     investors := investors m; fit_table := fit_table m;
     overall_fit := overall_fit m; bull_case := bull_case m;
     bear_case := bear_case m; key_debates := key_debates m;
     verdict := verdict m; verdict_rationale := verdict_rationale m;
     confidence := confidence m; terms := terms m; risks := risks m;
     info_gaps := info_gaps m; dd_priorities := dd_priorities m;
     bottom_line := v |}.

End Setters.

(** ** The patterns of the source *)

Module Pat.
Import Re.

(** [\[\]\([^)]*\)] *)
Definition empty_label : regex :=
  seq [txt "[]("; star (no ")"); txt ")"].

(** [\[[^\]]+\]\(\)] *)
Definition empty_target : regex :=
  seq [txt "["; plus (no "]"); txt "]()"].

(** [\[([^\]]+)\]\(([^)]+)\)] *)
Definition link : regex :=
  seq [txt "["; Grp 1 (plus (no "]")); txt "]("; Grp 2 (plus (no ")"));
       txt ")"].

(** [\*\*(.+?)\*\*] *)
Definition bold : regex :=
  seq [txt "**"; Grp 1 (plus_lazy dot); txt "**"].

(** [\n[-*]\s] *)
Definition bullet_break : regex :=
  seq [Cls (chr nl); Cls (one_of "-*"); Cls is_space].

(** [\*\*(.+?):\*\*\s*(.+)] *)
Definition key_value : regex :=
  seq [txt "**"; Grp 1 (plus_lazy dot); txt ":**"; star is_space;
       Grp 2 (plus dot)].

(** [(STRONG|MODERATE|WEAK)] with re.IGNORECASE *)
Definition fit_level : regex :=
  Grp 1 (alt [txt_i "STRONG"; txt_i "MODERATE"; txt_i "WEAK"]).

(** [(HIGH|MEDIUM|LOW)] with re.IGNORECASE *)
Definition conf_level : regex :=
  Grp 1 (alt [txt_i "HIGH"; txt_i "MEDIUM"; txt_i "LOW"]).

(** [#\s*(PURSUE|PASS|MONITOR)] *)
Definition hash_verdict : regex :=
  seq [txt "#"; star is_space;
       Grp 1 (alt [txt "PURSUE"; txt "PASS"; txt "MONITOR"])].

(** [\*\*Confidence:\*\*\s*(HIGH|MEDIUM|LOW)] with re.IGNORECASE *)
Definition bold_confidence : regex :=
  seq [txt_i "**Confidence:**"; star is_space;
       Grp 1 (alt [txt_i "HIGH"; txt_i "MEDIUM"; txt_i "LOW"])].

(** [\*\*(.+?)\*\*\s*[-:]+\s*(.+)] *)
Definition bullet_title : regex :=
  seq [txt "**"; Grp 1 (plus_lazy dot); txt "**"; star is_space;
       plus (one_of "-:"); star is_space; Grp 2 (plus dot)].

(** [^\d+\.] *)
Definition number_dot : regex :=
  seq [plus is_digit; txt "."].

(** [^\d+\.\s*] *)
Definition number_dot_spaces : regex :=
  seq [plus is_digit; txt "."; star is_space].

(** [^\d+\.\s] *)
Definition number_dot_space : regex :=
  seq [plus is_digit; txt "."; Cls is_space].

(** [\*\*(.+?)\*\*:?\s*(.+)] *)
Definition debate_line : regex :=
  seq [txt "**"; Grp 1 (plus_lazy dot); txt "**"; opt (txt ":");
       star is_space; Grp 2 (plus dot)].

(** [Information Gaps:?\s*(.+)] with re.IGNORECASE *)
Definition info_gaps_line : regex :=
  seq [txt_i "Information Gaps"; opt (txt_i ":"); star is_space;
       Grp 1 (plus dot)].

(** [^\d+\.\s*\*\*(.+?):\*\*\s*(.+)] *)
Definition risk_bold : regex :=
  seq [plus is_digit; txt "."; star is_space; txt "**";
       Grp 1 (plus_lazy dot); txt ":**"; star is_space; Grp 2 (plus dot)].

(** [^\d+\.\s*(.+?):\s*(.+)] *)
Definition risk_plain : regex :=
  seq [plus is_digit; txt "."; star is_space; Grp 1 (plus_lazy dot);
       txt ":"; star is_space; Grp 2 (plus dot)].

(** [<!-- ANALYST_APPENDIX_START -->.*?<!-- ANALYST_APPENDIX_END -->]
    with re.DOTALL *)
Definition appendix : regex :=
  seq [txt "<!-- ANALYST_APPENDIX_START -->"; star_lazy any;
       txt "<!-- ANALYST_APPENDIX_END -->"].

(** The replacement templates. *)
Definition erase (m : match_obj) : str := [].

(** [<a href="\2" target="_blank" class="citation">\1</a>] *)
Definition anchor (m : match_obj) : str :=
  h "<a href='" ++ tgroup m 2 ++ h "' target='_blank' class='citation'>"
    ++ tgroup m 1 ++ h "</a>".

(** [<strong>\1</strong>] *)
Definition strong (m : match_obj) : str :=
  "<strong>" +++ tgroup m 1 +++ "</strong>".

End Pat.

(** ** The inline renderer and the field extractors *)

Definition nlnl : str := [nl; nl].

(** One paragraph of [markdown_to_html]. *)
Definition render_paragraph (preserve_breaks : bool) (p0 : str)
  : result (list str) :=
  let p := strip p0 in
  if truthy p then
    if startswith "- " p || startswith "* " p then
      let items := Re.split Pat.bullet_break p in
      i0 <- index items 0 ;;
      let items := skipn 2 i0 :: tl items in
      Ok ["<ul>" +++
          concat_str (map (fun item => "<li>" +++ strip item +++ "</li>")
                          (filter (fun item => truthy (strip item)) items))
          +++ "</ul>"]
    else if preserve_breaks then
      let lines := split_chr nl p in
      Ok ["<p>" +++
          join ("<br>" +++ [nl])
               (map strip (filter (fun line => truthy (strip line)) lines))
          +++ "</p>"]
    else
      Ok ["<p>" +++ replace [nl] " " p +++ "</p>"]
  else Ok [].

Definition markdown_to_html (text : str) (preserve_breaks : bool)
  : result str :=
  let text := Re.sub Pat.empty_label Pat.erase text in
  let text := Re.sub Pat.empty_target Pat.erase text in
  let text := Re.sub Pat.link Pat.anchor text in
  let text := Re.sub Pat.bold Pat.strong text in
  let paragraphs := split nlnl text in
  html_parts <-
    for_each (fun parts p =>
                new <- render_paragraph preserve_breaks p ;;
                Ok (parts ++ new))
             paragraphs [] ;;
  Ok (join [nl] html_parts).

(** The body of the loop of [parse_snapshot]. *)
Definition snapshot_line (items : list kv) (l : str) : result (list kv) :=
  let line := strip l in
  if startswith "**" line && contains ":**" line then
    match Re.match_at Pat.key_value line with
    | Some m =>
        v <- Re.group m 2 ;;
        let v := Re.sub Pat.link Pat.anchor v in
        k <- Re.group m 1 ;;
        Ok (items ++ [{| label := k; value := v |}])
    | None => Ok items
    end
  else Ok items.

Definition parse_snapshot (text : str) : result (list kv) :=
  for_each snapshot_line (split_chr nl text) [].

(** The body of the loop of [parse_fit_table]; the state is
    [(rows, overall)]. *)
Definition fit_line (st : list fit_row * str) (l : str)
  : result (list fit_row * str) :=
  let '(rows, overall) := st in
  let line := strip l in
  rows <-
    (if startswith "|" line && negb (contains "---" line) then
       let cells := map strip (slice_1_m1 (split_chr "|" line)) in
       if 3 <=? List.length cells then
         c0 <- index cells 0 ;;
         if negb (mem (lower c0) (strs ["criterion"; ""])) then
           c0 <- index cells 0 ;;
           c1 <- index cells 1 ;;
           c2 <- (if 2 <? List.length cells then index cells 2 else Ok []) ;;
           Ok (rows ++ [{| criterion := c0; rating := c1;
                           assessment := c2 |}])
         else Ok rows
       else Ok rows
     else Ok rows) ;;
  overall <-
    (if contains "Overall Fit" line || contains "OVERALL FIT" line then
       match Re.search Pat.fit_level line with
       | Some m => g <- Re.group m 1 ;; Ok (upper g)
       | None => Ok overall
       end
     else Ok overall) ;;
  Ok (rows, overall).

Definition parse_fit_table (text : str) : result (list fit_row * str) :=
  for_each fit_line (split_chr nl text) ([], []).

(** The loop of [parse_verdict]; it ends at the [break] or at the end of
    the lines, with [(verdict, confidence, rationale)]. *)
Fixpoint verdict_loop (lines : list str) (verdict confidence : str)
  : result (str * str * str) :=
  match lines with
  | [] => Ok (verdict, confidence, [])
  | l :: rest =>
      let line := strip l in
      if mem line (strs ["# PURSUE"; "# PASS"; "# MONITOR"]) then
        verdict_loop rest (skipn 2 line) confidence
      else if mem line (strs ["PURSUE"; "PASS"; "MONITOR"]) then
        verdict_loop rest line confidence
      else if contains "**Confidence:**" line || contains "Confidence:" line
      then
        match Re.search Pat.conf_level line with
        | Some m => g <- Re.group m 1 ;; verdict_loop rest verdict (upper g)
        | None => verdict_loop rest verdict confidence
        end
      else if truthy line && negb (startswith "#" line)
              && negb (startswith "*" line)
              && negb (contains "Confidence" line)
      then Ok (verdict, confidence, Re.sub Pat.bold Pat.strong line)
      else verdict_loop rest verdict confidence
  end.

Definition parse_verdict (text : str) : result (str * str * str) :=
  let lines := split_chr nl text in
  '(verdict, confidence, rationale) <- verdict_loop lines [] [] ;;
  if negb (truthy rationale) then
    let remaining := strip (join [nl] lines) in
    let remaining := Re.sub Pat.hash_verdict Pat.erase remaining in
    let remaining := Re.sub Pat.bold_confidence Pat.erase remaining in
    let remaining := Re.sub Pat.bold Pat.strong remaining in
    Ok (verdict, confidence, strip remaining)
  else Ok (verdict, confidence, rationale).

(** The body of the loop of [parse_bullet_points]. *)
Definition bullet_line (points : list point) (l : str)
  : result (list point) :=
  let line := strip l in
  if startswith "- " line || startswith "* " line then
    let line := skipn 2 line in
    match Re.match_at Pat.bullet_title line with
    | Some m =>
        g1 <- Re.group m 1 ;;
        let t := rstrip_chr ":" g1 in
        g2 <- Re.group m 2 ;;
        Ok (points ++ [{| title := t; description := g2 |}])
    | None =>
        if truthy line
        then Ok (points ++ [{| title := []; description := line |}])
        else Ok points
    end
  else Ok points.

Definition parse_bullet_points (text : str) : result (list point) :=
  for_each bullet_line (split_chr nl text) [].

(** The body of the loop of [parse_debates]. *)
Definition debate_step (debates : list debate) (l : str)
  : result (list debate) :=
  let line := strip l in
  if Re.matches Pat.number_dot line then
    let line := Re.sub_start Pat.number_dot_spaces Pat.erase line in
    match Re.match_at Pat.debate_line line with
    | Some m =>
        q <- Re.group m 1 ;;
        v <- Re.group m 2 ;;
        Ok (debates ++ [{| question := q; views := v |}])
    | None =>
        if truthy line
        then Ok (debates ++ [{| question := line; views := [] |}])
        else Ok debates
    end
  else Ok debates.

Definition parse_debates (text : str) : result (list debate) :=
  for_each debate_step (split_chr nl text) [].

(** The body of the loop of [parse_terms]. *)
Definition terms_line (ts : list kv) (l : str) : result (list kv) :=
  let line := strip l in
  if startswith "**" line && contains ":**" line then
    match Re.match_at Pat.key_value line with
    | Some m =>
        k <- Re.group m 1 ;;
        v <- Re.group m 2 ;;
        Ok (ts ++ [{| label := k; value := v |}])
    | None => Ok ts
    end
  else Ok ts.

Definition parse_terms (text : str) : result (list kv) :=
  for_each terms_line (split_chr nl text) [].

(** The state of the loop of [parse_risks]. *)
Record risk_state := {
  rs_risks : list point;
  rs_info_gaps : str;
  rs_in_risks : bool
}.

(** The body of the loop of [parse_risks]. *)
Definition risk_line (st : risk_state) (l : str) : result risk_state :=
  let line := strip l in
  if contains "Critical Risks" line || contains "Key Risks" line then
    Ok {| rs_risks := rs_risks st; rs_info_gaps := rs_info_gaps st;
          rs_in_risks := true |}
  else if contains "Information Gaps" line then
    match Re.search Pat.info_gaps_line line with
    | Some m =>
        g <- Re.group m 1 ;;
        Ok {| rs_risks := rs_risks st; rs_info_gaps := g;
              rs_in_risks := false |}
    | None =>
        Ok {| rs_risks := rs_risks st; rs_info_gaps := rs_info_gaps st;
              rs_in_risks := false |}
    end
  else
    risks <-
      (if rs_in_risks st && Re.matches Pat.number_dot line then
         match Re.match_at Pat.risk_bold line with
         | Some m =>
             t <- Re.group m 1 ;;
             d <- Re.group m 2 ;;
             Ok (rs_risks st ++ [{| title := t; description := d |}])
         | None =>
             match Re.match_at Pat.risk_plain line with
             | Some m =>
                 t <- Re.group m 1 ;;
                 d <- Re.group m 2 ;;
                 Ok (rs_risks st ++ [{| title := t; description := d |}])
             | None => Ok (rs_risks st)
             end
         end
       else Ok (rs_risks st)) ;;
    let gaps :=
      if negb (rs_in_risks st) && truthy line
         && negb (contains "Information" line)
      then if truthy (rs_info_gaps st)
           then rs_info_gaps st +++ " " +++ line
           else rs_info_gaps st
      else rs_info_gaps st in
    Ok {| rs_risks := risks; rs_info_gaps := gaps;
          rs_in_risks := rs_in_risks st |}.

Definition parse_risks (text : str) : result (list point * str) :=
  st <- for_each risk_line (split_chr nl text)
          {| rs_risks := []; rs_info_gaps := []; rs_in_risks := false |} ;;
  Ok (rs_risks st, rs_info_gaps st).

(** The body of the loop of [parse_dd]. *)
Definition dd_line (priorities : list str) (l : str) : list str :=
  let line := strip l in
  if Re.matches Pat.number_dot line then
    let item := Re.sub_start Pat.number_dot_spaces Pat.erase line in
    if truthy item then priorities ++ [item] else priorities
  else priorities.

Definition parse_dd (text : str) : list str :=
  fold_left dd_line (split_chr nl text) [].

(** ** [save_section]: the dispatch on the section name *)

Definition save_section (sections : memo) (section_name : str)
    (content : list str) : result memo :=
  let text := strip (join [nl] content) in
  if contains "OPPORTUNITY" section_name then
    v <- markdown_to_html text false ;; Ok (set_opportunity sections v)
  else if contains "SNAPSHOT" section_name then
    v <- parse_snapshot text ;; Ok (set_snapshot sections v)
  else if contains "MARKET" section_name then
    v <- markdown_to_html text false ;; Ok (set_market sections v)
  else if contains "COMPETITIVE" section_name
          || contains "COMPETITION" section_name then
    v <- markdown_to_html text false ;; Ok (set_competition sections v)
  else if contains "TEAM" section_name then
    v <- markdown_to_html text true ;; Ok (set_team sections v)
  else if contains "INVESTOR" section_name
          || contains "EXISTING INVESTOR" section_name then
    v <- markdown_to_html text false ;; Ok (set_investors sections v)
  else if contains "FIT" section_name then
    '(rows, overall) <- parse_fit_table text ;;
    Ok (set_fit sections rows overall)
  else if contains "BULL" section_name then
    v <- parse_bullet_points text ;; Ok (set_bull_case sections v)
  else if contains "BEAR" section_name then
    v <- parse_bullet_points text ;; Ok (set_bear_case sections v)
  else if contains "KEY DEBATE" section_name
          || contains "DEBATES" section_name then
    v <- parse_debates text ;; Ok (set_key_debates sections v)
  else if contains "RECOMMENDATION" section_name then
    '(verdict, confidence, rationale) <- parse_verdict text ;;
    let sections :=
      if truthy verdict then set_verdict sections verdict else sections in
    let sections :=
      if truthy confidence then set_confidence sections confidence
      else sections in
    Ok (set_verdict_rationale sections rationale)
  else if contains "TERMS" section_name then
    v <- parse_terms text ;; Ok (set_terms sections v)
  else if contains "RISK" section_name then
    '(rs, gaps) <- parse_risks text ;; Ok (set_risks sections rs gaps)
  else if contains "DUE DILIGENCE" section_name
          || contains "DD" section_name then
    Ok (set_dd_priorities sections (parse_dd text))
  else if contains "BOTTOM" section_name then
    v <- markdown_to_html text false ;; Ok (set_bottom_line sections v)
  else Ok sections.

(** ** [parse_analysis]: the sectionizer *)

(** The variables of the loop: the dictionary, [current_section] ([None]
    until the first heading) and [current_content]. *)
Record scan_state := {
  sections : memo;
  current_section : option str;
  current_content : list str
}.

Definition scan_init : scan_state :=
  {| sections := empty_memo; current_section := None; current_content := [] |}.

(** [if current_section and current_content: save_section(...)] *)
Definition save_current (st : scan_state) : result memo :=
  match current_section st, current_content st with
  | Some name, _ :: _ =>
      if truthy name
      then save_section (sections st) name (current_content st)
      else Ok (sections st)
  | _, _ => Ok (sections st)
  end.

(** The body of the loop of [parse_analysis]. *)
Definition scan_line (st : scan_state) (line : str) : result scan_state :=
  let line_stripped := strip line in
  if startswith "# " line_stripped && negb (startswith "## " line_stripped)
  then
    let name := strip (skipn 2 line_stripped) in
    let name_clean := strip (replace "*" "" (replace "**" "" name)) in
    if mem (upper name_clean) (strs ["PURSUE"; "PASS"; "MONITOR"]) then
      Ok {| sections := set_verdict (sections st) (upper name_clean);
            current_section := current_section st;
            current_content := current_content st |}
    else
      Ok {| sections := set_company_name (sections st) name;
            current_section := current_section st;
            current_content := current_content st |}
  else if startswith "### " line_stripped then
    secs <- save_current st ;;
    Ok {| sections := secs;
          current_section := Some (upper (strip (skipn 4 line_stripped)));
          current_content := [] |}
  else if startswith "## " line_stripped || str_eqb line_stripped "---" then
    Ok st
  else
    match current_section st with
    | Some name =>
        if truthy name
        then Ok {| sections := sections st;
                   current_section := current_section st;
                   current_content := current_content st ++ [line] |}
        else Ok st
    | None => Ok st
    end.

Definition parse_analysis (analysis : str) : result memo :=
  let lines := split_chr nl analysis in
  st <- for_each scan_line lines scan_init ;;
  save_current st.

(** ** [markdown_to_simple_html]: the analyst appendix *)

(** [html.escape(s)] of the Python library, with [quote=True]. *)
Definition escape (s : str) : str :=
  let s := replace "&" "&amp;" s in
  let s := replace "<" "&lt;" s in
  let s := replace ">" "&gt;" s in
  let s := replace [dq] "&quot;" s in
  replace "'" "&#x27;" s.

(** The variables of the loop: [result], [current_list], [in_list]. *)
Record simple_state := {
  ss_result : list str;
  ss_current_list : list str;
  ss_in_list : bool
}.

(** [if in_list and current_list: result.append(...); current_list = [];
    in_list = False] *)
Definition close_list (st : simple_state) : simple_state :=
  match ss_in_list st, ss_current_list st with
  | true, _ :: _ =>
      {| ss_result :=
           ss_result st ++
           ["<ul>" +++ concat_str (ss_current_list st) +++ "</ul>"];
         ss_current_list := [];
         ss_in_list := false |}
  | _, _ => st
  end.

Definition append_result (st : simple_state) (x : str) : simple_state :=
  {| ss_result := ss_result st ++ [x];
     ss_current_list := ss_current_list st;
     ss_in_list := ss_in_list st |}.

Definition append_item (st : simple_state) (x : str) : simple_state :=
  {| ss_result := ss_result st;
     ss_current_list := ss_current_list st ++ [x];
     ss_in_list := true |}.

Definition simple_line (st : simple_state) (line : str) : simple_state :=
  let line_stripped := strip line in
  if negb (truthy line_stripped) then close_list st
  else
    let line_escaped := escape line_stripped in
    let line_escaped := Re.sub Pat.bold Pat.strong line_escaped in
    if startswith "### " line_stripped then
      append_result (close_list st)
        ("<h4>" +++ skipn 4 line_escaped +++ "</h4>")
    else if startswith "## " line_stripped then
      append_result (close_list st)
        ("<h3>" +++ skipn 3 line_escaped +++ "</h3>")
    else if startswith "# " line_stripped then
      append_result (close_list st)
        ("<h3>" +++ skipn 2 line_escaped +++ "</h3>")
    else if startswith "- " line_stripped || startswith "* " line_stripped
    then
      append_item st ("<li>" +++ skipn 2 line_escaped +++ "</li>")
    else if Re.matches Pat.number_dot_space line_stripped then
      let content :=
        Re.sub_start Pat.number_dot_spaces Pat.erase line_escaped in
      append_item st ("<li>" +++ content +++ "</li>")
    else
      append_result (close_list st) ("<p>" +++ line_escaped +++ "</p>").

Definition markdown_to_simple_html (text : str) : str :=
  let lines := split_chr nl (strip text) in
  let st := fold_left simple_line lines
              {| ss_result := []; ss_current_list := [];
                 ss_in_list := false |} in
  join [nl] (ss_result (close_list st)).

(** ** [generate_html]: the report assembler

    The template file [memo_template.html] and the clock are outside the
    source given; the text of the template and the formatted current date
    are arguments of the model. *)

Definition snapshot_row (acc : str) (item : kv) : str :=
  acc ++ h "
        <div class='snapshot-row'>
            <span class='snapshot-label'>" ++ label item ++ h "</span>
            <span class='snapshot-value'>" ++ value item ++ h "</span>
        </div>".

Definition fit_tr (acc : str) (row : fit_row) : result str :=
  rating_class <-
    (if truthy (rating row) then index (words (lower (rating row))) 0
     else Ok []) ;;
  Ok (acc ++ h "
        <tr>
            <td class='criterion'>" ++ criterion row ++ h "</td>
            <td class='rating'><span class='rating-badge " ++ rating_class
          ++ h "'>" ++ rating row ++ h "</span></td>
            <td>" ++ assessment row ++ h "</td>
        </tr>").

Definition case_li (acc : str) (p : point) : str :=
  if truthy (title p) then
    acc ++ h "<li><span class='case-title'>" ++ title p ++ h ":</span> "
        ++ description p ++ h "</li>"
  else acc ++ h "<li>" ++ description p ++ h "</li>".

Definition debate_li (acc : str) (d : debate) : str :=
  let acc := acc ++ h "<li><span class='debate-question'>" ++ question d
                 ++ h "</span>" in
  let acc :=
    if truthy (views d)
    then acc ++ h "<span class='debate-views'>" ++ views d ++ h "</span>"
    else acc in
  acc ++ h "</li>".

(** The first loop over the terms: the value of the first entry whose
    label contains "rationale", then [break]. *)
Fixpoint find_ticket_rationale (ts : list kv) : str :=
  match ts with
  | [] => []
  | term :: rest =>
      if contains "rationale" (lower (label term)) then value term
      else find_ticket_rationale rest
  end.

(** The body of the second loop over the terms. *)
Definition term_item (ticket_rationale : str) (acc : str) (term : kv) : str :=
  if contains "rationale" (lower (label term)) then acc
  else if contains "ticket size" (lower (label term))
          && truthy ticket_rationale then
    acc ++ h "
                <div class='term-item'>
                    <div class='term-label'>" ++ label term ++ h "</div>
                    <div class='term-value'>" ++ value term ++ h "</div>
                    <div class='term-rationale'>" ++ ticket_rationale
        ++ h "</div>
                </div>"
  else
    acc ++ h "
                <div class='term-item'>
                    <div class='term-label'>" ++ label term ++ h "</div>
                    <div class='term-value'>" ++ value term ++ h "</div>
                </div>".

(** The value put in place of [{{TERMS_SECTION}}]. *)
Definition terms_section (m : memo) : str :=
  if str_eqb (verdict m) "PURSUE" && negb (Nat.eqb (List.length (terms m)) 0)
  then
    let terms_html := h "
        <div class='section'>
            <h2 class='section-title'>Proposed Terms</h2>
            <div class='terms-grid'>" in
    let ticket_rationale := find_ticket_rationale (terms m) in
    let terms_html :=
      fold_left (term_item ticket_rationale) (terms m) terms_html in
    terms_html ++ h "</div></div>"
  else [].

Definition risk_li (acc : str) (r : point) : str :=
  acc ++ h "
        <li>
            <span class='risk-title'>" ++ title r ++ h ":</span> "
      ++ description r ++ h "
        </li>".

Definition generate_html (template now : str) (m : memo)
    (source date_str bull_case_text bear_case_text deliberation : str)
  : result str :=
  let html := template in
  let html := replace "{{COMPANY_NAME}}" (company_name m) html in
  let html :=
    replace "{{DATE}}" (if truthy date_str then date_str else now) html in
  let html := replace "{{SOURCE}}" source html in
  let html := replace "{{OPPORTUNITY}}" (opportunity m) html in
  let html := replace "{{MARKET}}" (market m) html in
  let html := replace "{{COMPETITION}}" (competition m) html in
  let html := replace "{{TEAM}}" (team m) html in
  let investors_content := investors m in
  let html :=
    replace "{{INVESTORS}}"
      (if truthy investors_content then investors_content
       else "<p>No prior investor information found.</p>") html in
  let snapshot_html := fold_left snapshot_row (snapshot m) [] in
  let html := replace "{{SNAPSHOT}}" snapshot_html html in
  fit_html <-
    for_each fit_tr (fit_table m)
      (h "<table class='fit-table'><thead><tr><th>Criterion</th><th>Rating</th><th>Assessment</th></tr></thead><tbody>") ;;
  let fit_html := fit_html ++ h "</tbody></table>" in
  let fit_html :=
    if truthy (overall_fit m)
    then fit_html ++ h "<div class='overall-fit'><strong>Overall Fit: "
           ++ overall_fit m ++ h "</strong></div>"
    else fit_html in
  let html := replace "{{FIT_TABLE}}" fit_html html in
  let bull_html :=
    fold_left case_li (bull_case m) (h "<ul class='case-list bull'>")
    ++ h "</ul>" in
  let html :=
    replace "{{BULL_CASE}}"
      (match bull_case m with
       | _ :: _ => bull_html
       | [] => "<p>Not provided</p>"
       end) html in
  let bear_html :=
    fold_left case_li (bear_case m) (h "<ul class='case-list bear'>")
    ++ h "</ul>" in
  let html :=
    replace "{{BEAR_CASE}}"
      (match bear_case m with
       | _ :: _ => bear_html
       | [] => "<p>Not provided</p>"
       end) html in
  let debates_html :=
    fold_left debate_li (key_debates m) (h "<ul class='debates-list'>")
    ++ h "</ul>" in
  let html :=
    replace "{{KEY_DEBATES}}"
      (match key_debates m with
       | _ :: _ => debates_html
       | [] => "<p>Not provided</p>"
       end) html in
  let v := verdict m in
  let c := confidence m in
  let html := replace "{{VERDICT}}" v html in
  let html := replace "{{VERDICT_CLASS}}" (lower v) html in
  let html := replace "{{CONFIDENCE}}" c html in
  let html :=
    replace "{{CONFIDENCE_CLASS}}" (if truthy c then lower c else []) html in
  let html := replace "{{VERDICT_RATIONALE}}" (verdict_rationale m) html in
  let html := replace "{{TERMS_SECTION}}" (terms_section m) html in
  let risks_html :=
    fold_left risk_li (risks m) (h "<ul class='risk-list'>") ++ h "</ul>" in
  let risks_html :=
    if truthy (info_gaps m)
    then risks_html ++ h "
        <div class='info-gaps'>
            <div class='info-gaps-title'>Information Gaps</div>
            " ++ info_gaps m ++ h "
        </div>"
    else risks_html in
  let html := replace "{{RISKS}}" risks_html html in
  let dd_html :=
    fold_left (fun acc priority => acc ++ h "<li>" ++ priority ++ h "</li>")
      (dd_priorities m) (h "<ul class='dd-list'>")
    ++ h "</ul>" in
  let html := replace "{{DD_PRIORITIES}}" dd_html html in
  let html :=
    replace "{{BOTTOM_LINE}}"
      (replace "</p>" "" (replace "<p>" "" (bottom_line m))) html in
  if truthy bull_case_text && truthy bear_case_text then
    let bull_html := markdown_to_simple_html bull_case_text in
    let bear_html := markdown_to_simple_html bear_case_text in
    let deliberation_html :=
      if truthy deliberation then markdown_to_simple_html deliberation
      else [] in
    let html := replace "{{BULL_ANALYST}}" bull_html html in
    let html := replace "{{BEAR_ANALYST}}" bear_html html in
    let html := replace "{{DELIBERATION}}" deliberation_html html in
    Ok (replace "{{ANALYST_SECTIONS}}" "" html)
  else
    Ok (Re.sub Pat.appendix Pat.erase html).

(** [create_memo], without the write to the output file: parse, then
    assemble. *)
Definition create_memo (template now analysis : str)
    (source date_str bull_case_text bear_case_text deliberation : str)
  : result str :=
  m <- parse_analysis analysis ;;
  generate_html template now m source date_str bull_case_text bear_case_text
    deliberation.

(** ** [bramble_screen.py] and [streamlit_app.py]: the pure steps

    The drivers call the PDF library, the web services and the language
    model; what they do with the texts that come back is modelled here,
    the text being an argument. *)

Module Driver.

(** [f"{i}"] for a page number. *)
Definition decimal (n : nat) : str :=
  lit (NilEmpty.string_of_uint (Nat.to_uint n)).

(** [enumerate(l, start)] *)
Definition enumerate {A} (l : list A) (start : nat) : list (nat * A) :=
  combine (seq start (List.length l)) l.

(** The body of the loop of [extract_pdf_text]; [page_text] is what
    [page.extract_text()] returned, [None] included. *)
Definition page_step (text_parts : list str) (p : nat * option str)
  : list str :=
  let '(i, page_text) := p in
  match page_text with
  | Some t =>
      if truthy t
      then text_parts ++ ["[Page " +++ decimal i +++ "]" +++ [nl] +++ t]
      else text_parts
  | None => text_parts
  end.

Definition extract_pdf_text (pages : list (option str)) : str :=
  join nlnl (fold_left page_step (enumerate pages 1) []).

(** [if not deck_content.strip():], the test after which [main] and the
    web form stop with "could not extract text". *)
Definition no_text (deck_content : str) : bool :=
  negb (truthy (strip deck_content)).

Definition fence : str := "```".

(** [extract_company_info], from the reply of the model to the call of
    [json.loads]: the text that is handed to the JSON parser.  Any
    exception of this part is caught by the source and gives the default
    record. *)
Definition json_text (text : str) : result str :=
  text <-
    (if contains fence text then
       t <- index (split fence text) 1 ;;
       Ok (if startswith "json" t then skipn 4 t else t)
     else Ok text) ;;
  Ok (strip text).

Definition deliberation_mark : str := "===== DELIBERATION =====".
Definition memo_mark : str := "===== MEMO =====".

(** The end of [analyze_company]: the reply of the synthesis is split
    into [(memo, deliberation)]. *)
Definition split_response (full_response : str) : result (str * str) :=
  if contains deliberation_mark full_response
     && contains memo_mark full_response then
    let parts := split memo_mark full_response in
    deliberation_part <- index parts 0 ;;
    memo <-
      (if 1 <? List.length parts then p1 <- index parts 1 ;; Ok (strip p1)
       else Ok full_response) ;;
    deliberation <-
      (if contains deliberation_mark deliberation_part then
         d <- index (split deliberation_mark deliberation_part) 1 ;;
         Ok (strip d)
       else Ok []) ;;
    Ok (memo, deliberation)
  else Ok (full_response, []).

(** [main]: the loop that looks for the company name in the memo, with
    its [break]. *)
Fixpoint name_loop (lines : list str) (company_name : str) : str :=
  match lines with
  | [] => company_name
  | line :: rest =>
      if startswith "# " line && negb (startswith "## " line) then
        let potential_name := strip (skipn 2 line) in
        if negb (mem potential_name (strs ["PURSUE"; "PASS"; "MONITOR"]))
        then potential_name
        else name_loop rest company_name
      else name_loop rest company_name
  end.

Definition memo_company_name (memo_text : str) : str :=
  name_loop (split_chr nl memo_text) "Company".

(** [company_name.replace(" ", "_").replace("/", "-")], in [main] and in
    the web form. *)
Definition safe_company_name (company_name : str) : str :=
  replace "/" "-" (replace " " "_" company_name).

(** [f"MEMO_{safe_company_name}_{date_str}.html"] *)
Definition memo_file_name (safe_name date_str : str) : str :=
  "MEMO_" +++ safe_name +++ "_" +++ date_str +++ ".html".

End Driver.

(** * Statements of the specification

    Definitions that follow the words of the specification; the theorems
    below compare them with the functions above. *)

Module Spec.

(** The cells of a table line: split on pipes, first and last token
    dropped, each cell trimmed. *)
Definition cells_of (line : str) : list str :=
  map strip (slice_1_m1 (split_chr "|" line)).

(** A line yields a fit-table row: it starts with a pipe, has no [---],
    has at least three cells, and its first cell is neither the header word
    (in any case) nor empty. *)
Definition yields_row (line : str) : bool :=
  startswith "|" line && negb (contains "---" line)
  && (3 <=? List.length (cells_of line))
  && negb (str_eqb (lower (nth 0 (cells_of line) [])) "criterion")
  && negb (str_eqb (nth 0 (cells_of line) []) []).

Definition row_of (line : str) : fit_row :=
  {| criterion := nth 0 (cells_of line) [];
     rating := nth 1 (cells_of line) [];
     assessment := nth 2 (cells_of line) [] |}.

(** The rationale line as the specification words it: non-empty, not
    starting with a heading marker or a bullet marker, not containing
    "Confidence". *)
Definition stated_rationale_line (line : str) : bool :=
  truthy line
  && negb (startswith "#" line)
  && negb (startswith "*" line || startswith "-" line)
  && negb (contains "Confidence" line).

(** The rationale line as [parse_verdict] tests it: the bare verdict words
    are taken by an earlier branch, and only [#] and [*] are excluded as
    first characters. *)
Definition rationale_line (line : str) : bool :=
  truthy line
  && negb (mem line (strs ["PURSUE"; "PASS"; "MONITOR"]))
  && negb (startswith "#" line)
  && negb (startswith "*" line)
  && negb (contains "Confidence" line).

(** The lines before the first rationale line. *)
Fixpoint before_rationale (lines : list str) : list str :=
  match lines with
  | [] => []
  | l :: rest =>
      if rationale_line (strip l) then [] else l :: before_rationale rest
  end.

(** The whole section text with the verdict and confidence markers
    stripped out. *)
Definition fallback_rationale (text : str) : str :=
  strip (Re.sub Pat.bold Pat.strong
           (Re.sub Pat.bold_confidence Pat.erase
              (Re.sub Pat.hash_verdict Pat.erase (strip text)))).

(** The rationale of a section text, by the rule of the specification. *)
Definition stated_rationale (text : str) : str :=
  match find stated_rationale_line (map strip (split_chr nl text)) with
  | Some line => Re.sub Pat.bold Pat.strong line
  | None => fallback_rationale text
  end.

(** A terms entry whose label contains "rationale", in any case. *)
Definition is_rationale (t : kv) : bool :=
  contains "rationale" (lower (label t)).

Definition is_ticket_size (t : kv) : bool :=
  contains "ticket size" (lower (label t)).

(** The value of the first rationale entry, empty if there is none. *)
Definition first_rationale (ts : list kv) : str :=
  match find is_rationale ts with
  | Some t => value t
  | None => []
  end.

(** An entry of the terms grid on its own. *)
Definition plain_entry (t : kv) : str :=
  h "
                <div class='term-item'>
                    <div class='term-label'>" ++ label t ++ h "</div>
                    <div class='term-value'>" ++ value t ++ h "</div>
                </div>".

(** An entry of the terms grid with a rationale nested under it. *)
Definition entry_with_rationale (t : kv) (rationale : str) : str :=
  h "
                <div class='term-item'>
                    <div class='term-label'>" ++ label t ++ h "</div>
                    <div class='term-value'>" ++ value t ++ h "</div>
                    <div class='term-rationale'>" ++ rationale ++ h "</div>
                </div>".

Definition term_entry (rationale : str) (t : kv) : str :=
  if is_ticket_size t && truthy rationale
  then entry_with_rationale t rationale
  else plain_entry t.

Definition terms_open : str :=
  h "
        <div class='section'>
            <h2 class='section-title'>Proposed Terms</h2>
            <div class='terms-grid'>".

Definition terms_close : str := h "</div></div>".

Definition nonempty {A} (l : list A) : bool :=
  match l with [] => false | _ => true end.

(** The terms rule as the specification words it: every rationale entry
    of a rendered block is nested in it, so its value occurs in the
    block. *)
Definition every_rationale_nested : Prop :=
  forall (m : memo) (t : kv),
    verdict m = "PURSUE" -> In t (terms m) -> is_rationale t = true ->
    contains (value t) (terms_section m) = true.

(** The start of the loop of [parse_risks]. *)
Definition risk_init : risk_state :=
  {| rs_risks := []; rs_info_gaps := []; rs_in_risks := false |}.

(** Info-gaps accumulation as the specification words it: outside the risk
    list, every non-empty line without the word "Information" ends up in
    the accumulated text. *)
Definition accumulates_every_line : Prop :=
  forall (st st' : risk_state) (l : str),
    rs_in_risks st = false ->
    truthy (strip l) = true ->
    contains "Information" (strip l) = false ->
    risk_line st l = Ok st' ->
    rs_info_gaps st' = rs_info_gaps st +++ " " +++ strip l.

(** The categories of sections, and the keywords of each, in the order of
    the dispatch chain. *)
Inductive category :=
| Opportunity | Snapshot | Market | Competition | Team | Investors | Fit
| Bull | Bear | Debates | Recommendation | Terms | Risk | DueDiligence
| Bottom.

Definition dispatch_table : list (list str * category) :=
  [ (strs ["OPPORTUNITY"], Opportunity);
    (strs ["SNAPSHOT"], Snapshot);
    (strs ["MARKET"], Market);
    (strs ["COMPETITIVE"; "COMPETITION"], Competition);
    (strs ["TEAM"], Team);
    (strs ["INVESTOR"; "EXISTING INVESTOR"], Investors);
    (strs ["FIT"], Fit);
    (strs ["BULL"], Bull);
    (strs ["BEAR"], Bear);
    (strs ["KEY DEBATE"; "DEBATES"], Debates);
    (strs ["RECOMMENDATION"], Recommendation);
    (strs ["TERMS"], Terms);
    (strs ["RISK"], Risk);
    (strs ["DUE DILIGENCE"; "DD"], DueDiligence);
    (strs ["BOTTOM"], Bottom) ].

(** First match wins: the category of the first entry of the table one of
    whose keywords occurs in the section name. *)
Definition classify (name : str) : option category :=
  option_map snd
    (find (fun e => existsb (fun kw => contains kw name) (fst e))
          dispatch_table).

(** The field extractor of a category and the fields it assigns. *)
Definition extract (c : category) (sections : memo) (text : str)
  : result memo :=
  match c with
  | Opportunity =>
      v <- markdown_to_html text false ;; Ok (set_opportunity sections v)
  | Snapshot => v <- parse_snapshot text ;; Ok (set_snapshot sections v)
  | Market => v <- markdown_to_html text false ;; Ok (set_market sections v)
  | Competition =>
      v <- markdown_to_html text false ;; Ok (set_competition sections v)
  | Team => v <- markdown_to_html text true ;; Ok (set_team sections v)
  | Investors =>
      v <- markdown_to_html text false ;; Ok (set_investors sections v)
  | Fit =>
      '(rows, overall) <- parse_fit_table text ;;
      Ok (set_fit sections rows overall)
  | Bull => v <- parse_bullet_points text ;; Ok (set_bull_case sections v)
  | Bear => v <- parse_bullet_points text ;; Ok (set_bear_case sections v)
  | Debates => v <- parse_debates text ;; Ok (set_key_debates sections v)
  | Recommendation =>
      '(verdict, confidence, rationale) <- parse_verdict text ;;
      let sections :=
        if truthy verdict then set_verdict sections verdict else sections in
      let sections :=
        if truthy confidence then set_confidence sections confidence
        else sections in
      Ok (set_verdict_rationale sections rationale)
  | Terms => v <- parse_terms text ;; Ok (set_terms sections v)
  | Risk => '(rs, gaps) <- parse_risks text ;; Ok (set_risks sections rs gaps)
  | DueDiligence => Ok (set_dd_priorities sections (parse_dd text))
  | Bottom =>
      v <- markdown_to_html text false ;; Ok (set_bottom_line sections v)
  end.

Definition category_eq_dec (a b : category) : {a = b} + {a <> b}.
Proof. decide equality. Defined.

(** The fields a category of section owns.  [verdict] is left out of the
    view of the recommendation: the title line can set it too. *)
Inductive fields :=
| Html (s : str)
| Pairs (l : list kv)
| Table (rows : list fit_row) (overall : str)
| Points (l : list point)
| DebateList (l : list debate)
| Rationale (rationale confidence : str)
| RiskList (l : list point) (gaps : str)
| Items (l : list str).

Definition view (c : category) (m : memo) : fields :=
  match c with
  | Opportunity => Html (opportunity m)
  | Snapshot => Pairs (snapshot m)
  | Market => Html (market m)
  | Competition => Html (competition m)
  | Team => Html (team m)
  | Investors => Html (investors m)
  | Fit => Table (fit_table m) (overall_fit m)
  | Bull => Points (bull_case m)
  | Bear => Points (bear_case m)
  | Debates => DebateList (key_debates m)
  | Recommendation => Rationale (verdict_rationale m) (confidence m)
  | Terms => Pairs (terms m)
  | Risk => RiskList (risks m) (info_gaps m)
  | DueDiligence => Items (dd_priorities m)
  | Bottom => Html (bottom_line m)
  end.

(** A title line: trimmed, it starts with [# ] and not with [## ]. *)
Definition is_title_line (line : str) : bool :=
  startswith "# " (strip line) && negb (startswith "## " (strip line)).

(** The text of a title line, and the word it is compared with the
    verdicts by. *)
Definition title_text (line : str) : str := strip (skipn 2 (strip line)).

Definition title_word (line : str) : str :=
  upper (strip (replace "*" "" (replace "**" "" (title_text line)))).

Definition names_verdict (line : str) : bool :=
  mem (title_word line) (strs ["PURSUE"; "PASS"; "MONITOR"]).

(** A title line that sets the verdict, and one that sets the name. *)
Definition is_verdict_title (line : str) : bool :=
  is_title_line line && names_verdict line.

Definition is_name_title (line : str) : bool :=
  is_title_line line && negb (names_verdict line).

(** A section heading and the name of the section it opens. *)
Definition is_heading (line : str) : bool := startswith "### " (strip line).

Definition heading_name (line : str) : str :=
  upper (strip (skipn 4 (strip line))).

(** The category of the section a line opens, if it opens one. *)
Definition heading_category (line : str) : option category :=
  if is_heading line then classify (heading_name line) else None.

Definition opens (c : category) (line : str) : bool :=
  match heading_category line with
  | Some c' => if category_eq_dec c c' then true else false
  | None => false
  end.

(** The document has a section of category [c]. *)
Definition has_section (c : category) (analysis : str) : bool :=
  existsb (opens c) (split_chr nl analysis).

(** What an extractor of category [c] leaves alone. *)
Definition frame (c : category) (m m' : memo) : Prop :=
  company_name m' = company_name m
  /\ (c <> Recommendation -> verdict m' = verdict m)
  /\ (c <> Fit -> fit_table m' = fit_table m)
  /\ (forall c', c' <> c -> view c' m' = view c' m).

(** A rating that [generate_html] can take the first word of: empty, or
    with a character that is not a space. *)
Definition has_word (s : str) : Prop :=
  s = [] \/ exists c, In c s /\ is_space c = false.

Definition ratings_ok (m : memo) : Prop :=
  Forall (fun r => has_word (rating r)) (fit_table m).

(** The categories [ok] allows: of a classification, of the section that
    is open, of the heading a line may be. *)
Definition allowed (ok : category -> bool) (o : option category) : Prop :=
  match o with
  | Some c => ok c = true
  | None => True
  end.

Definition open_allowed (ok : category -> bool) (cs : option str) : Prop :=
  match cs with
  | Some name => allowed ok (classify name)
  | None => True
  end.

Definition line_allowed (ok : category -> bool) (line : str) : Prop :=
  allowed ok (heading_category line).

(** A level-2 heading or a horizontal rule: dropped wherever found. *)
Definition is_dropped (line : str) : bool :=
  startswith "## " (strip line) || str_eqb (strip line) "---".

(** A section is open: [current_section] is a non-empty name. *)
Definition section_open (st : scan_state) : bool :=
  match current_section st with
  | Some name => truthy name
  | None => false
  end.

(** A line that goes to the body of the open section. *)
Definition is_content (line : str) : bool :=
  negb (is_title_line line) && negb (is_heading line)
  && negb (is_dropped line).

(** The assignment a title line makes. *)
Definition title_update (m : memo) (line : str) : memo :=
  if names_verdict line then set_verdict m (title_word line)
  else set_company_name m (title_text line).

(** The value the title lines leave in [company_name] and in [verdict]:
    that of the last title line of each kind. *)
Definition last_title_name (lines : list str) (init : str) : str :=
  fold_left (fun acc l => if is_name_title l then title_text l else acc)
            lines init.

Definition last_title_verdict (lines : list str) (init : str) : str :=
  fold_left (fun acc l => if is_verdict_title l then title_word l else acc)
            lines init.

(** The value a single assignment would leave: that of the first title
    line of each kind. *)
Definition first_title_name (lines : list str) : str :=
  match find is_name_title lines with
  | Some l => title_text l
  | None => []
  end.

Definition first_title_verdict (lines : list str) : str :=
  match find is_verdict_title lines with
  | Some l => title_word l
  | None => []
  end.

(** Single assignment as the specification words it: the title lines set
    each field at most once, so the first title line of a kind decides. *)
Definition title_sets_once : Prop :=
  forall (analysis : str) (m : memo),
    parse_analysis analysis = Ok m ->
    company_name m = first_title_name (split_chr nl analysis)
    /\ (has_section Recommendation analysis = false ->
        verdict m = first_title_verdict (split_chr nl analysis)).

(** Every category but [c]. *)
Definition other_than (c c' : category) : bool :=
  if category_eq_dec c c' then false else true.

(** A text of white space only. *)
Definition all_space (w : str) : Prop :=
  Forall (fun c => is_space c = true) w.

(** No line of a text is a title line. *)
Definition no_title_in (text : str) : Prop :=
  Forall (fun l => startswith "# " (strip l) = false) (split_chr nl text).

(** The body of an open section holds lines without a line break, none of
    them a title line. *)
Definition body_ok (content : list str) : Prop :=
  Forall (fun l => ~ In nl l /\ startswith "# " (strip l) = false) content.

(** The verdict a RECOMMENDATION section body supplies. *)
Definition section_verdict (content : list str) : str :=
  match parse_verdict (strip (join [nl] content)) with
  | Ok (v, _, _) => v
  | Raise _ => []
  end.

(** The sectionizer of the specification: the sections of a document, in
    order, each with its name and its body lines. *)
Definition close_section (cur : option (str * list str))
  : list (str * list str) :=
  match cur with
  | Some s => [s]
  | None => []
  end.

Fixpoint sectionize_from (lines : list str) (cur : option (str * list str))
  : list (str * list str) :=
  match lines with
  | [] => close_section cur
  | l :: rest =>
      if is_title_line l then sectionize_from rest cur
      else if is_heading l then
        close_section cur ++ sectionize_from rest (Some (heading_name l, []))
      else if is_dropped l then sectionize_from rest cur
      else sectionize_from rest
             (match cur with
              | Some (name, body) => Some (name, body ++ [l])
              | None => None
              end)
  end.

Definition sectionize (lines : list str) : list (str * list str) :=
  sectionize_from lines None.

(** The verdict the RECOMMENDATION sections of a document supply: that of
    the last one that supplies one. *)
Definition recommendation_verdict (lines : list str) : str :=
  fold_left
    (fun acc s =>
       match classify (fst s), snd s with
       | Some Recommendation, _ :: _ =>
           if truthy (section_verdict (snd s)) then section_verdict (snd s)
           else acc
       | _, _ => acc
       end)
    (sectionize lines) [].

(** Verdict precedence as the specification words it: the value of the
    RECOMMENDATION section if it supplies one, otherwise that of the title
    line, otherwise empty. *)
Definition stated_final_verdict (lines : list str) : str :=
  if truthy (recommendation_verdict lines) then recommendation_verdict lines
  else last_title_verdict lines [].

Definition stated_verdict_precedence : Prop :=
  forall (analysis : str) (m : memo),
    parse_analysis analysis = Ok m ->
    verdict m = stated_final_verdict (split_chr nl analysis).

(** The final verdict of a document whose RECOMMENDATION section has the
    body lines [body], the title lines before the end of that section
    being those of [before]. *)
Definition verdict_after (before body : list str) : str :=
  match filter is_content body with
  | [] => last_title_verdict before []
  | content =>
      if truthy (section_verdict content) then section_verdict content
      else last_title_verdict before []
  end.

(** [x] is made of characters of [y], in their order. *)
Fixpoint subseq (x y : str) : bool :=
  match y with
  | [] => match x with [] => true | _ :: _ => false end
  | b :: y' =>
      match x with
      | [] => true
      | a :: x' => if Ascii.eqb a b then subseq x' y' else subseq x y'
      end
  end.

(** The text the anchors are made from: the empty-label links removed,
    then the empty-target links. *)
Definition cleaned (text : str) : str :=
  Re.sub Pat.empty_target Pat.erase (Re.sub Pat.empty_label Pat.erase text).

(** The rest of the renderer, after the two removals. *)
Definition render_cleaned (text : str) (preserve_breaks : bool)
  : result str :=
  let text := Re.sub Pat.link Pat.anchor text in
  let text := Re.sub Pat.bold Pat.strong text in
  let paragraphs := split nlnl text in
  html_parts <-
    for_each (fun parts p =>
                new <- render_paragraph preserve_breaks p ;;
                Ok (parts ++ new))
             paragraphs [] ;;
  Ok (join [nl] html_parts).

(** The number of places where [sub] starts in [s]. *)
Fixpoint count (sub s : str) : nat :=
  (if startswith sub s then 1 else 0)
  + match s with
    | [] => 0
    | _ :: s' => count sub s'
    end.

(** Empty-citation stripping as the specification words it: every link
    with an empty target is removed entirely, so what is left is made of
    the text before it and the text after it. *)
Definition every_empty_target_removed : Prop :=
  forall a label rest : str,
    label <> [] -> ~ In "]"%char label ->
    exists a' rest',
      subseq a' a = true /\ subseq rest' rest = true
      /\ cleaned (a ++ ("[" +++ label +++ "]()") ++ rest) = a' ++ rest'.

(** A section text in which the extractor of category [c] finds nothing:
    no line passes the first test of its loop.  The free-text renderer and
    the recommendation extractor take any text, so for them only the empty
    text has nothing to find. *)
Definition unparsable (c : category) (text : str) : Prop :=
  match c with
  | Snapshot | Terms =>
      Forall (fun l => startswith "**" (strip l) && contains ":**" (strip l)
                       = false)
             (split_chr nl text)
  | Fit =>
      Forall (fun l => startswith "|" (strip l) = false
                       /\ contains "Overall Fit" (strip l)
                          || contains "OVERALL FIT" (strip l) = false)
             (split_chr nl text)
  | Bull | Bear =>
      Forall (fun l => startswith "- " (strip l) || startswith "* " (strip l)
                       = false)
             (split_chr nl text)
  | Debates | DueDiligence =>
      Forall (fun l => Re.matches Pat.number_dot (strip l) = false)
             (split_chr nl text)
  | Risk =>
      Forall (fun l => contains "Information Gaps" (strip l) = false
                       /\ Re.matches Pat.number_dot (strip l) = false)
             (split_chr nl text)
  | Opportunity | Market | Competition | Team | Investors | Bottom
  | Recommendation => text = []
  end.

(** One turn of the loop of [parse_analysis], by the kind of the line. *)
Definition step_spec (st : scan_state) (line : str) (st' : scan_state)
  : Prop :=
  if is_title_line line then
    sections st' = title_update (sections st) line
    /\ current_section st' = current_section st
    /\ current_content st' = current_content st
  else if is_heading line then
    save_current st = Ok (sections st')
    /\ current_section st' = Some (heading_name line)
    /\ current_content st' = []
  else
    sections st' = sections st
    /\ current_section st' = current_section st
    /\ current_content st' =
       current_content st
       ++ (if negb (is_dropped line) && section_open st then [line] else []).

End Spec.

(** * Statements about the markup and about the patterns *)

Module Markup.

(** The tags [markdown_to_simple_html] writes. *)
Definition simple_tags : list str :=
  strs ["<strong>"; "</strong>"; "<h3>"; "</h3>"; "<h4>"; "</h4>";
        "<ul>"; "</ul>"; "<li>"; "</li>"; "<p>"; "</p>"].

Definition angle (c : ascii) : bool := Ascii.eqb c "<" || Ascii.eqb c ">".

(** A text without angle brackets. *)
Definition plain (s : str) : Prop := Forall (fun c => angle c = false) s.

(** A text in which every angle bracket belongs to a tag of [tags],
    written out in full. *)
Inductive tagged (tags : list str) : str -> Prop :=
| tagged_nil : tagged tags []
| tagged_chr (c : ascii) (s : str) :
    angle c = false -> tagged tags s -> tagged tags (c :: s)
| tagged_tag (t s : str) :
    In t tags -> tagged tags s -> tagged tags (t ++ s).

(** The invariant of the loop of [markdown_to_simple_html]: the pieces
    written so far are tagged. *)
Definition simple_ok (st : simple_state) : Prop :=
  Forall (tagged simple_tags) (ss_result st)
  /\ Forall (tagged simple_tags) (ss_current_list st).

(** Every captured group is made of characters with the property [Q]. *)
Definition caps_all (Q : ascii -> Prop) (g : Re.caps) : Prop :=
  forall j v, In (j, v) g -> Forall Q v.

End Markup.

Module Shape.
Import Re.

(** The least number of characters a match of [r] takes. *)
Fixpoint minlen (r : regex) : nat :=
  match r with
  | Str _ s => List.length s
  | Cls _ => 1
  | Seq r1 r2 => minlen r1 + minlen r2
  | Alt r1 r2 => Nat.min (minlen r1) (minlen r2)
  | Rep _ lo _ => lo
  | Grp _ r' => minlen r'
  end.

(** Group [i] is written somewhere in [r]. *)
Fixpoint binds (i : nat) (r : regex) : bool :=
  match r with
  | Str _ _ | Cls _ | Rep _ _ _ => false
  | Seq r1 r2 | Alt r1 r2 => binds i r1 || binds i r2
  | Grp j r' => Nat.eqb i j || binds i r'
  end.

(** Group [i] takes part in every match of [r], and with a text that is
    not empty. *)
Fixpoint fills (i : nat) (r : regex) : bool :=
  match r with
  | Str _ _ | Cls _ | Rep _ _ _ => false
  | Seq r1 r2 => fills i r2 || (fills i r1 && negb (binds i r2))
  | Alt r1 r2 => fills i r1 && fills i r2
  | Grp j r' => if Nat.eqb i j then 0 <? minlen r' else fills i r'
  end.

(** Group [i] is recorded in [g] with a text that is not empty. *)
Definition filled (i : nat) (g : caps) : Prop :=
  exists v, lookup i g = Some v /\ v <> [].

(** The entries of the memo have their mandatory fields: a term and a
    snapshot item a label and a value, a fit row a criterion, a point of
    the bull or bear case a description, a debate a question, a risk a
    title and a description; no diligence priority is empty. *)
Definition pair_ok (x : kv) : Prop := label x <> [] /\ value x <> [].
Definition row_ok (x : fit_row) : Prop := criterion x <> [].
Definition point_ok (x : point) : Prop := description x <> [].
Definition debate_ok (x : debate) : Prop := question x <> [].
Definition risk_ok (x : point) : Prop := title x <> [] /\ description x <> [].

(** A proposed term as the memo writes it, [**label:** value], and the
    terms that can be written so: the label is not empty and has no colon,
    the value is not empty and has no white space around it, and neither
    spans lines. *)
Definition term_text (x : kv) : str :=
  "**" +++ label x +++ ":** " +++ value x.

Definition term_wf (x : kv) : Prop :=
  label x <> [] /\ ~ In ":"%char (label x) /\ ~ In nl (label x)
  /\ value x <> [] /\ strip (value x) = value x /\ ~ In nl (value x).

(** A line of running text: not empty, no white space around it, and
    none of the characters the inline markup begins with. *)
Definition text_line (l : str) : Prop :=
  l <> [] /\ strip l = l
  /\ ~ In "["%char l /\ ~ In "*"%char l /\ ~ In nl l.

(** A numbered item as the memo writes it, [N. item], and the items that
    can be written so: the number is a run of digits, the item is not
    empty, has no white space around it and does not span lines. *)
Definition numbered_text (x : str * str) : str :=
  fst x +++ ". " +++ snd x.

Definition numbered_wf (x : str * str) : Prop :=
  fst x <> [] /\ Forall (fun c => is_digit c = true) (fst x)
  /\ snd x <> [] /\ strip (snd x) = snd x /\ ~ In nl (snd x).

(** A point of the bull or bear case as the memo writes it,
    [- **title** - description] or, without a title, [- description], and
    the points that can be written so: the title has no star, does not end
    with a colon and does not span lines; the description is not empty,
    has no white space around it, does not span lines, does not begin with
    a dash or a colon after a title, nor with two stars without one. *)
Definition point_text (x : point) : str :=
  if truthy (title x)
  then "- **" +++ title x +++ "** - " +++ description x
  else "- " +++ description x.

Definition point_wf (x : point) : Prop :=
  ~ In "*"%char (title x) /\ ~ In nl (title x)
  /\ rstrip_chr ":" (title x) = title x
  /\ description x <> [] /\ strip (description x) = description x
  /\ ~ In nl (description x)
  /\ (title x <> [] ->
      match description x with
      | c :: _ => Re.one_of "-:" c = false
      | [] => True
      end)
  /\ (title x = [] -> startswith "**" (description x) = false).

(** The comments of the template around the analyst appendix. *)
Definition appendix_start : str := "<!-- ANALYST_APPENDIX_START -->".
Definition appendix_end : str := "<!-- ANALYST_APPENDIX_END -->".

(** A line that opens the list of risks. *)
Definition risks_header (l : str) : bool :=
  contains "Critical Risks" (strip l) || contains "Key Risks" (strip l).

(** A risk as the memo writes it, [N. **title:** description], and the
    risks that can be written so. *)
Definition risk_text (x : str * point) : str :=
  fst x +++ ". **" +++ title (snd x) +++ ":** " +++ description (snd x).

Definition risk_wf (x : str * point) : Prop :=
  fst x <> [] /\ Forall (fun c => is_digit c = true) (fst x)
  /\ title (snd x) <> [] /\ ~ In ":"%char (title (snd x))
  /\ ~ In nl (title (snd x))
  /\ description (snd x) <> []
  /\ strip (description (snd x)) = description (snd x)
  /\ ~ In nl (description (snd x))
  /\ risks_header (risk_text x) = false
  /\ contains "Information Gaps" (risk_text x) = false.

Definition entries_ok (m : memo) : Prop :=
  Forall pair_ok (snapshot m)
  /\ Forall row_ok (fit_table m)
  /\ Forall point_ok (bull_case m)
  /\ Forall point_ok (bear_case m)
  /\ Forall debate_ok (key_debates m)
  /\ Forall pair_ok (terms m)
  /\ Forall risk_ok (risks m)
  /\ Forall (fun x : str => x <> []) (dd_priorities m).

End Shape.

(** * Properties *)

(** ** Strings *)

Lemma str_eqb_eq (a b : str) : str_eqb a b = true <-> a = b.
Proof.
  revert b; induction a as [|x a IH]; intros [|y b]; simpl;
    try (split; [discriminate | discriminate]); try tauto.
  rewrite andb_true_iff, Ascii.eqb_eq, IH.
  split; [intros [-> ->]; reflexivity | intros H; inversion H; auto].
Qed.

Lemma str_eqb_refl (a : str) : str_eqb a a = true.
Proof. apply str_eqb_eq; reflexivity. Qed.

Lemma str_eqb_neq (a b : str) : str_eqb a b = false <-> a <> b.
Proof.
  rewrite <- str_eqb_eq. destruct (str_eqb a b); split; congruence.
Qed.

Lemma bind_ok {A B} (m : result A) (k : A -> result B) (b : B) :
  bind m k = Ok b -> exists a, m = Ok a /\ k a = Ok b.
Proof. destruct m; simpl; [eauto | discriminate]. Qed.

(** ** The matcher: a group that every match sets is there to be read *)

Section Groups.
Import Re.

Lemma has_cons i j v g : has i g -> has i ((j, v) :: g).
Proof.
  unfold has; simpl. destruct (Nat.eqb i j); [discriminate | auto].
Qed.

Lemma has_here i v g : has i ((i, v) :: g).
Proof. unfold has; simpl. rewrite Nat.eqb_refl. discriminate. Qed.

Lemma rep_greedy_some {T} p lo s (k : str -> option T) res :
  rep_greedy p lo s k = Some res -> exists s', k s' = Some res.
Proof.
  revert lo; induction s as [|c s IH]; intros lo; simpl.
  - destruct lo; [eauto | discriminate].
  - destruct (p c).
    + destruct (rep_greedy p (pred lo) s k) eqn:E.
      * intros [= <-]. eapply IH; eauto.
      * destruct lo; [eauto | discriminate].
    + destruct lo; [eauto | discriminate].
Qed.

Lemma rep_lazy_some {T} p lo s (k : str -> option T) res :
  rep_lazy p lo s k = Some res -> exists s', k s' = Some res.
Proof.
  revert lo; induction s as [|c s IH]; intros lo; simpl.
  - destruct lo; [| discriminate].
    destruct (k []) eqn:E; [intros [= <-]; eauto | discriminate].
  - destruct lo.
    + destruct (k (c :: s)) eqn:E; [intros [= <-]; eauto |].
      destruct (p c); [apply IH | discriminate].
    + destruct (p c); [apply IH | discriminate].
Qed.

(** A property of the groups that survives the recording of a group
    survives a match. *)
Lemma run_keeps (P : caps -> Prop)
    (mono : forall j v g, P g -> P ((j, v) :: g)) :
  forall r T s g (k : str -> caps -> option T) res,
    run r s g k = Some res -> P g ->
    exists s' g', P g' /\ k s' g' = Some res.
Proof.
  induction r as [ci p | p | r1 IH1 r2 IH2 | r1 IH1 r2 IH2 | gr lo p
                  | i r IH]; intros T s g k res; simpl.
  - destruct (lit_rest ci p s); [eauto | discriminate].
  - destruct s as [|c s]; [discriminate |].
    destruct (p c); [eauto | discriminate].
  - intros H Hg. destruct (IH1 _ _ _ _ _ H Hg) as (s1 & g1 & Hg1 & H1).
    eapply IH2; eauto.
  - destruct (run r1 s g k) eqn:E.
    + intros [= <-] Hg. eapply IH1; eauto.
    + intros H Hg. eapply IH2; eauto.
  - destruct gr; intros H Hg.
    + apply rep_greedy_some in H. destruct H as [s' H]. eauto.
    + apply rep_lazy_some in H. destruct H as [s' H]. eauto.
  - intros H Hg. destruct (IH _ _ _ _ _ H Hg) as (s1 & g1 & Hg1 & H1).
    eauto.
Qed.

Lemma run_sets i :
  forall r, sets i r = true ->
  forall T s g (k : str -> caps -> option T) res,
    run r s g k = Some res ->
    exists s' g', has i g' /\ k s' g' = Some res.
Proof.
  induction r as [ci p | p | r1 IH1 r2 IH2 | r1 IH1 r2 IH2 | gr lo p
                  | j r IH]; simpl; try discriminate; intros Hs T s g k res.
  - apply orb_true_iff in Hs. destruct Hs as [Hs | Hs]; intros H.
    + destruct (IH1 Hs _ _ _ _ _ H) as (s1 & g1 & Hg1 & H1).
      eapply (run_keeps (has i)); eauto using has_cons.
    + destruct (run_keeps (fun _ => True) (fun _ _ _ _ => I) _ _ _ _ _ _ H I)
        as (s1 & g1 & _ & H1).
      eapply IH2; eauto.
  - apply andb_true_iff in Hs. destruct Hs as [Hs1 Hs2].
    destruct (run r1 s g k) eqn:E.
    + intros [= <-]. eapply IH1; eauto.
    + intros H. eapply IH2; eauto.
  - apply orb_true_iff in Hs. destruct Hs as [Hs | Hs]; intros H.
    + apply Nat.eqb_eq in Hs. subst j.
      destruct (run_keeps (fun _ => True) (fun _ _ _ _ => I) _ _ _ _ _ _ H I)
        as (s1 & g1 & _ & H1).
      eauto using has_here.
    + destruct (IH Hs _ _ _ _ _ H) as (s1 & g1 & Hg1 & H1).
      eauto using has_cons.
Qed.

Lemma match_at_group r s m i :
  match_at r s = Some m -> sets i r = true -> exists v, group m i = Ok v.
Proof.
  unfold match_at, group. intros H Hs.
  destruct (run_sets i r Hs _ _ _ _ _ H) as (s' & g' & Hg & [= <-]). simpl.
  unfold has in Hg. destruct (lookup i g'); [eauto | congruence].
Qed.

Lemma search_group r s m i :
  search r s = Some m -> sets i r = true -> exists v, group m i = Ok v.
Proof.
  induction s as [|c s IH]; simpl.
  - destruct (match_at r []) eqn:E; [| discriminate].
    intros [= <-]. eapply match_at_group; eauto.
  - destruct (match_at r (c :: s)) eqn:E.
    + intros [= <-]. eapply match_at_group; eauto.
    + exact IH.
Qed.

End Groups.

(** Reads the groups of a match found by [match_at] or [search]. *)
Ltac read_group E i :=
  let v := fresh "v" in
  let Hv := fresh "Hv" in
  first
    [ destruct (match_at_group _ _ _ i E eq_refl) as [v Hv]
    | destruct (search_group _ _ _ i E eq_refl) as [v Hv] ];
  rewrite Hv; simpl bind.

(** ** The fit table *)

Lemma lower_empty (s : str) : str_eqb (lower s) (lit "") = str_eqb s [].
Proof. destruct s; reflexivity. Qed.

Lemma index_nth {A} (l : list A) (i : nat) (d : A) :
  i < List.length l -> index l i = Ok (nth i l d).
Proof.
  intros H. unfold index.
  destruct (nth_error l i) eqn:E.
  - f_equal. symmetry. apply nth_error_nth. exact E.
  - apply nth_error_None in E. lia.
Qed.

Lemma fit_line_rows (rows : list fit_row) (overall l : str) :
  exists overall',
    fit_line (rows, overall) l =
    Ok (rows ++ (if Spec.yields_row (strip l) then [Spec.row_of (strip l)]
                 else []), overall').
Proof.
  unfold fit_line, Spec.yields_row, Spec.row_of, Spec.cells_of.
  set (line := strip l).
  set (cells := map strip (slice_1_m1 (split_chr "|" line))).
  assert (Hov : forall rows' : list fit_row, exists overall',
    (overall0 <-
       (if contains "Overall Fit" line || contains "OVERALL FIT" line
        then match Re.search Pat.fit_level line with
             | Some m => g <- Re.group m 1 ;; Ok (upper g)
             | None => Ok overall
             end
        else Ok overall) ;; Ok (rows', overall0)) = Ok (rows', overall')).
  { intros rows'.
    destruct (contains "Overall Fit" line || contains "OVERALL FIT" line);
      [| simpl; eauto].
    destruct (Re.search Pat.fit_level line) eqn:E; [| simpl; eauto].
    read_group E 1. simpl. eauto. }
  destruct (startswith "|" line && negb (contains "---" line)); cbn [andb];
    [| cbn [bind]; rewrite app_nil_r; apply Hov].
  destruct (3 <=? List.length cells) eqn:E3; cbn [andb];
    [| cbn [bind]; rewrite app_nil_r; apply Hov].
  apply Nat.leb_le in E3.
  rewrite (index_nth cells 0 []) by lia. cbn [bind].
  unfold mem, strs. cbn [existsb map]. rewrite orb_false_r.
  destruct (str_eqb (lower (nth 0 cells [])) "criterion") eqn:Ec;
    cbn [orb negb andb bind].
  { rewrite app_nil_r. apply Hov. }
  rewrite lower_empty.
  destruct (str_eqb (nth 0 cells []) []); cbn [negb andb bind].
  { rewrite app_nil_r. apply Hov. }
  rewrite (index_nth cells 1 []) by lia.
  assert ((2 <? List.length cells) = true) as -> by (apply Nat.ltb_lt; lia).
  rewrite (index_nth cells 2 []) by lia. cbn [bind].
  apply Hov.
Qed.

Lemma fit_loop_rows (lines : list str) :
  forall (rows : list fit_row) (overall : str),
  exists overall',
    for_each fit_line lines (rows, overall) =
    Ok (rows ++ map Spec.row_of (filter Spec.yields_row (map strip lines)),
        overall').
Proof.
  induction lines as [|l lines IH]; intros rows overall.
  - simpl. rewrite app_nil_r. eauto.
  - cbn [for_each map filter].
    destruct (fit_line_rows rows overall l) as [ov1 ->]. cbn [bind].
    destruct (IH (rows ++ (if Spec.yields_row (strip l)
                           then [Spec.row_of (strip l)] else [])) ov1)
      as [ov2 ->].
    exists ov2. f_equal. f_equal. rewrite <- app_assoc. f_equal.
    destruct (Spec.yields_row (strip l)); reflexivity.
Qed.


(** ** The dispatch chain of [save_section] *)

Lemma save_section_classify (sections : memo) (name : str)
    (content : list str) :
  save_section sections name content =
  match Spec.classify name with
  | Some c => Spec.extract c sections (strip (join [nl] content))
  | None => Ok sections
  end.
Proof.
  unfold save_section, Spec.classify, Spec.dispatch_table, strs.
  cbn [find existsb map fst snd option_map].
  repeat rewrite orb_false_r.
  repeat match goal with
  | |- context [contains ?k name] =>
      destruct (contains k name); cbn [orb option_map snd]; try reflexivity
  end.
Qed.

Lemma parse_fit_table_total (text : str) :
  exists rows overall, parse_fit_table text = Ok (rows, overall).
Proof.
  unfold parse_fit_table.
  destruct (fit_loop_rows (split_chr nl text) [] []) as [ov H]. eauto.
Qed.

(** C10. Classification precedence: [save_section] runs the extractor of
    the first entry of the dispatch table that has a keyword occurring in
    the section name, whatever later entries also match; a section named
    "RISK FIT" is handled by the fit-table extractor, which sets
    [fit_table] and [overall_fit] and leaves [risks] and [info_gaps] as
    they were. *)
Theorem classification_first_match :
  (forall sections name content,
      save_section sections name content =
      match Spec.classify name with
      | Some c => Spec.extract c sections (strip (join [nl] content))
      | None => Ok sections
      end)
  /\ Spec.classify "RISK FIT" = Some Spec.Fit
  /\ (forall sections content, exists rows overall m,
         parse_fit_table (strip (join [nl] content)) = Ok (rows, overall)
         /\ save_section sections "RISK FIT" content = Ok m
         /\ fit_table m = rows /\ overall_fit m = overall
         /\ risks m = risks sections /\ info_gaps m = info_gaps sections).
Proof.
  split; [exact save_section_classify |].
  split; [vm_compute; reflexivity |].
  intros sections content.
  destruct (parse_fit_table_total (strip (join [nl] content)))
    as (rows & overall & H).
  exists rows, overall, (set_fit sections rows overall).
  rewrite save_section_classify.
  replace (Spec.classify "RISK FIT") with (Some Spec.Fit)
    by (vm_compute; reflexivity).
  cbn [Spec.extract]. rewrite H. cbn [bind].
  repeat split; reflexivity.
Qed.

(** ** Risks and information gaps *)

Lemma startswith_app (a b s : str) :
  startswith (a ++ b) s = true -> startswith a s = true.
Proof.
  revert s; induction a as [|x a IH]; intros s; simpl; [reflexivity |].
  destruct s as [|y s]; [discriminate |].
  rewrite !andb_true_iff. intros [H1 H2]. auto.
Qed.

Lemma contains_app (a b s : str) :
  contains (a ++ b) s = true -> contains a s = true.
Proof.
  induction s as [|y s IH]; simpl; rewrite !orb_true_iff.
  - intros [H | H]; [left; eapply startswith_app; eauto | discriminate].
  - intros [H | H]; [left; eapply startswith_app; eauto | right; auto].
Qed.

Lemma not_contains_app (a b s : str) :
  contains a s = false -> contains (a ++ b) s = false.
Proof.
  intros H. destruct (contains (a ++ b) s) eqn:E; [| reflexivity].
  apply contains_app in E. congruence.
Qed.




(** Once started, the gap text grows across a blank line. *)
Example info_gaps_across_blank_line :
  parse_risks ("Information Gaps: unit economics" +++ [nl] +++ [nl]
               +++ "and churn")
  = Ok ([], lit "unit economics and churn").
Proof. vm_compute. reflexivity. Qed.

(** ** Lines: [split] and [join] *)

Lemma split_chr_nonempty (d : ascii) (s : str) : split_chr d s <> [].
Proof.
  destruct s as [|c s]; simpl; [discriminate |].
  destruct (Ascii.eqb c d); [discriminate |].
  destruct (split_chr d s); discriminate.
Qed.

Lemma join_cons (sep x : str) (l : list str) :
  l <> [] -> join sep (x :: l) = x ++ sep ++ join sep l.
Proof. destruct l; [congruence | reflexivity]. Qed.

Lemma join_split_chr (d : ascii) (s : str) : join [d] (split_chr d s) = s.
Proof.
  induction s as [|c s IH]; simpl; [reflexivity |].
  destruct (Ascii.eqb c d) eqn:E.
  - apply Ascii.eqb_eq in E. subst c.
    rewrite join_cons by apply split_chr_nonempty. simpl. now rewrite IH.
  - pose proof (split_chr_nonempty d s) as Hne.
    destruct (split_chr d s) as [|p ps]; [congruence |].
    destruct ps as [|q ps]; simpl in *; now rewrite <- IH.
Qed.

(** ** The recommendation section *)

Lemma contains_tail (x : ascii) (a s : str) :
  contains (x :: a) s = true -> contains a s = true.
Proof.
  induction s as [|y s IH]; simpl; [rewrite orb_false_r; discriminate |].
  intros H. apply orb_true_iff in H. destruct H as [H | H].
  - apply andb_true_iff in H. destruct H as [_ H].
    apply orb_true_iff. right.
    destruct s; simpl; rewrite H; reflexivity.
  - apply orb_true_iff. right. auto.
Qed.

Lemma confidence_colon (line : str) :
  contains "**Confidence:**" line || contains "Confidence:" line = true ->
  contains "Confidence" line = true.
Proof.
  intros H. apply orb_true_iff in H. destruct H as [H | H].
  - do 2 apply contains_tail in H.
    exact (contains_app "Confidence" ":**" line H).
  - exact (contains_app "Confidence" ":" line H).
Qed.

Lemma hash_verdict_hash (line : str) :
  mem line (strs ["# PURSUE"; "# PASS"; "# MONITOR"]) = true ->
  startswith "#" line = true.
Proof.
  unfold mem, strs. cbn [map existsb]. rewrite !orb_true_iff.
  intros [H | [H | [H | H]]]; try discriminate;
    apply str_eqb_eq in H; subst line; reflexivity.
Qed.

(** The bold substitution leaves a text that does not start with [*]
    non-empty. *)
Lemma bold_sub_truthy (line : str) :
  truthy line = true -> startswith "*" line = false ->
  truthy (Re.sub Pat.bold Pat.strong line) = true.
Proof.
  destruct line as [|c line]; [discriminate |]. intros _ H.
  unfold Re.sub. cbn [Re.sub_from].
  assert (Re.match_at Pat.bold (c :: line) = None) as ->.
  { unfold Re.match_at, Pat.bold. cbn [Re.seq Re.run Re.txt].
    cbn [lit list_ascii_of_string Re.lit_rest Re.chr_eq].
    cbn [startswith lit list_ascii_of_string] in H.
    rewrite andb_true_r in H. rewrite H. reflexivity. }
  reflexivity.
Qed.

Lemma verdict_loop_rationale (lines : list str) :
  forall v c : str, exists v' c',
    verdict_loop lines v c =
    Ok (v', c',
        match find Spec.rationale_line (map strip lines) with
        | Some line => Re.sub Pat.bold Pat.strong line
        | None => []
        end)
    /\ verdict_loop (Spec.before_rationale lines) v c = Ok (v', c', []).
Proof.
  induction lines as [|l lines IH]; intros v c.
  - exists v, c. split; reflexivity.
  - cbn [verdict_loop map find Spec.before_rationale].
    unfold Spec.rationale_line at 1 3.
    set (line := strip l).
    destruct (mem line (strs ["# PURSUE"; "# PASS"; "# MONITOR"])) eqn:Eh.
    { rewrite (hash_verdict_hash _ Eh). rewrite !andb_false_r.
      cbn [andb negb verdict_loop]. fold line. rewrite Eh. apply IH. }
    destruct (mem line (strs ["PURSUE"; "PASS"; "MONITOR"])) eqn:Eb.
    { rewrite !andb_false_r. cbn [andb negb verdict_loop]. fold line.
      rewrite Eh, Eb. apply IH. }
    destruct (contains "**Confidence:**" line || contains "Confidence:" line)
      eqn:Ec.
    { rewrite (confidence_colon _ Ec). rewrite !andb_false_r.
      cbn [andb negb verdict_loop]. fold line. rewrite Eh, Eb, Ec.
      destruct (Re.search Pat.conf_level line) eqn:Es; [| apply IH].
      read_group Es 1. apply IH. }
    cbn [negb]. rewrite andb_true_r.
    destruct (truthy line && negb (startswith "#" line)
              && negb (startswith "*" line)
              && negb (contains "Confidence" line)) eqn:Er.
    + exists v, c. split; reflexivity.
    + cbn [verdict_loop]. fold line. rewrite Eh, Eb, Ec, Er. apply IH.
Qed.

Lemma find_some_holds {A} (f : A -> bool) (l : list A) (x : A) :
  find f l = Some x -> f x = true.
Proof. intros H. apply find_some in H. tauto. Qed.



(** ** The proposed-terms block *)

Lemma find_ticket_rationale_first (ts : list kv) :
  find_ticket_rationale ts = Spec.first_rationale ts.
Proof.
  unfold Spec.first_rationale.
  induction ts as [|t ts IH]; [reflexivity |].
  cbn [find_ticket_rationale find]. unfold Spec.is_rationale at 1.
  destruct (contains "rationale" (lower (label t))); [reflexivity | exact IH].
Qed.

Lemma terms_loop (rationale : str) (ts : list kv) :
  forall acc : str,
    fold_left (term_item rationale) ts acc =
    acc ++ concat_str
             (map (Spec.term_entry rationale)
                  (filter (fun t => negb (Spec.is_rationale t)) ts)).
Proof.
  induction ts as [|t ts IH]; intros acc.
  - simpl. now rewrite app_nil_r.
  - cbn [fold_left filter]. rewrite IH. unfold term_item at 1.
    unfold Spec.is_rationale at 2.
    destruct (contains "rationale" (lower (label t))); cbn [negb];
      [reflexivity |].
    cbn [map concat_str concat]. unfold Spec.term_entry at 2.
    unfold Spec.is_ticket_size.
    destruct (contains "ticket size" (lower (label t)) && truthy rationale);
      unfold Spec.entry_with_rationale, Spec.plain_entry, concat_str;
      rewrite concat_cons; repeat rewrite <- app_assoc; reflexivity.
Qed.



(** ** No extractor raises *)

Lemma for_each_inv {A S} (body : S -> A -> result S) (P : S -> Prop)
    (step : forall s a, P s -> exists s', body s a = Ok s' /\ P s') :
  forall (l : list A) (s : S),
    P s -> exists s', for_each body l s = Ok s' /\ P s'.
Proof.
  induction l as [|a l IH]; intros s Hs; cbn [for_each].
  - eauto.
  - destruct (step s a Hs) as (s1 & -> & Hs1). cbn [bind]. auto.
Qed.

Lemma for_each_total {A S} (body : S -> A -> result S)
    (step : forall s a, exists s', body s a = Ok s') :
  forall (l : list A) (s : S), exists s', for_each body l s = Ok s'.
Proof.
  intros l s.
  destruct (for_each_inv body (fun _ => True)
              (fun s a _ => match step s a with
                            | ex_intro _ s' H => ex_intro _ s' (conj H I)
                            end) l s I) as (s' & H & _).
  eauto.
Qed.

Lemma re_split_nonempty (r : Re.regex) (s : str) :
  forall skip, Re.split_from r s skip <> [].
Proof.
  induction s as [|c s IH]; intros skip; cbn [Re.split_from];
    [discriminate |].
  destruct skip as [|k]; [| apply IH].
  destruct (Re.match_at r (c :: s)) as [[[|n] g]|];
    try discriminate;
    destruct (Re.split_from r s 0); discriminate.
Qed.

Lemma render_paragraph_total (b : bool) (p : str) :
  exists l, render_paragraph b p = Ok l.
Proof.
  unfold render_paragraph.
  destruct (truthy (strip p)); [| eauto].
  destruct (startswith "- " (strip p) || startswith "* " (strip p)).
  - unfold Re.split.
    pose proof (re_split_nonempty Pat.bullet_break (strip p) 0) as Hne.
    destruct (Re.split_from Pat.bullet_break (strip p) 0) as [|i0 items];
      [congruence |].
    cbn [index nth_error bind]. eauto.
  - destruct b; eauto.
Qed.

Lemma markdown_to_html_total (text : str) (b : bool) :
  exists v, markdown_to_html text b = Ok v.
Proof.
  unfold markdown_to_html.
  match goal with
  | |- context [for_each ?body ?ps ?s0] =>
      assert (Hstep : forall s a, exists s', body s a = Ok s');
      [| destruct (for_each_total body Hstep ps s0) as [parts ->]]
  end.
  - intros parts p. destruct (render_paragraph_total b p) as [new ->].
    cbn [bind]. eauto.
  - cbn [bind]. eauto.
Qed.

Lemma snapshot_line_total (items : list kv) (l : str) :
  exists items', snapshot_line items l = Ok items'.
Proof.
  unfold snapshot_line.
  destruct (startswith "**" (strip l) && contains ":**" (strip l));
    [| eauto].
  destruct (Re.match_at Pat.key_value (strip l)) eqn:E; [| eauto].
  read_group E 2. read_group E 1. eauto.
Qed.

Lemma terms_line_total (ts : list kv) (l : str) :
  exists ts', terms_line ts l = Ok ts'.
Proof.
  unfold terms_line.
  destruct (startswith "**" (strip l) && contains ":**" (strip l));
    [| eauto].
  destruct (Re.match_at Pat.key_value (strip l)) eqn:E; [| eauto].
  read_group E 1. read_group E 2. eauto.
Qed.

Lemma bullet_line_total (points : list point) (l : str) :
  exists points', bullet_line points l = Ok points'.
Proof.
  unfold bullet_line.
  destruct (startswith "- " (strip l) || startswith "* " (strip l));
    [| eauto].
  destruct (Re.match_at Pat.bullet_title (skipn 2 (strip l))) eqn:E.
  - read_group E 1. read_group E 2. eauto.
  - destruct (truthy (skipn 2 (strip l))); eauto.
Qed.

Lemma debate_step_total (debates : list debate) (l : str) :
  exists debates', debate_step debates l = Ok debates'.
Proof.
  unfold debate_step.
  destruct (Re.matches Pat.number_dot (strip l)); [| eauto].
  match goal with
  | |- context [Re.match_at Pat.debate_line ?x] =>
      destruct (Re.match_at Pat.debate_line x) eqn:E;
      [read_group E 1; read_group E 2; eauto | destruct (truthy x); eauto]
  end.
Qed.

Lemma risk_line_total (st : risk_state) (l : str) :
  exists st', risk_line st l = Ok st'.
Proof.
  unfold risk_line.
  destruct (contains "Critical Risks" (strip l)
            || contains "Key Risks" (strip l)); [eauto |].
  destruct (contains "Information Gaps" (strip l)).
  { destruct (Re.search Pat.info_gaps_line (strip l)) eqn:E; [| eauto].
    read_group E 1. eauto. }
  destruct (rs_in_risks st && Re.matches Pat.number_dot (strip l));
    [| cbn [bind]; eauto].
  destruct (Re.match_at Pat.risk_bold (strip l)) eqn:E.
  { read_group E 1. read_group E 2. eauto. }
  destruct (Re.match_at Pat.risk_plain (strip l)) eqn:E'.
  { read_group E' 1. read_group E' 2. eauto. }
  cbn [bind]. eauto.
Qed.

Lemma parse_verdict_total (text : str) :
  exists v c r, parse_verdict text = Ok (v, c, r).
Proof.
  unfold parse_verdict.
  destruct (verdict_loop_rationale (split_chr nl text) [] [])
    as (v & c & -> & _).
  cbn [bind].
  match goal with |- context [if ?b then _ else _] => destruct b end; eauto.
Qed.

Lemma extract_total (c : Spec.category) (m : memo) (text : str) :
  exists m', Spec.extract c m text = Ok m'.
Proof.
  destruct c; cbn [Spec.extract];
    try (destruct (markdown_to_html_total text false) as [v ->];
         cbn [bind]; eauto; fail).
  - destruct (for_each_total snapshot_line snapshot_line_total
                (split_chr nl text) []) as [v Hv].
    unfold parse_snapshot. rewrite Hv. cbn [bind]. eauto.
  - destruct (markdown_to_html_total text true) as [v ->]. cbn [bind]. eauto.
  - destruct (parse_fit_table_total text) as (rows & ov & ->).
    cbn [bind]. eauto.
  - destruct (for_each_total bullet_line bullet_line_total
                (split_chr nl text) []) as [v Hv].
    unfold parse_bullet_points. rewrite Hv. cbn [bind]. eauto.
  - destruct (for_each_total bullet_line bullet_line_total
                (split_chr nl text) []) as [v Hv].
    unfold parse_bullet_points. rewrite Hv. cbn [bind]. eauto.
  - destruct (for_each_total debate_step debate_step_total
                (split_chr nl text) []) as [v Hv].
    unfold parse_debates. rewrite Hv. cbn [bind]. eauto.
  - destruct (parse_verdict_total text) as (v & c & r & ->).
    cbn [bind]. eauto.
  - destruct (for_each_total terms_line terms_line_total
                (split_chr nl text) []) as [v Hv].
    unfold parse_terms. rewrite Hv. cbn [bind]. eauto.
  - destruct (for_each_total risk_line risk_line_total
                (split_chr nl text) Spec.risk_init) as [v Hv].
    unfold parse_risks. unfold Spec.risk_init in Hv. rewrite Hv.
    cbn [bind]. eauto.
  - eauto.
Qed.

Lemma save_section_total (m : memo) (name : str) (content : list str) :
  exists m', save_section m name content = Ok m'.
Proof.
  rewrite save_section_classify.
  destruct (Spec.classify name); [apply extract_total | eauto].
Qed.

Lemma save_current_total (st : scan_state) :
  exists m, save_current st = Ok m.
Proof.
  unfold save_current.
  destruct (current_section st) as [name|]; [| eauto].
  destruct (current_content st); [eauto |].
  destruct (truthy name); [apply save_section_total | eauto].
Qed.

Lemma scan_line_total (st : scan_state) (line : str) :
  exists st', scan_line st line = Ok st'.
Proof.
  unfold scan_line.
  repeat match goal with
  | |- context [if ?b then _ else _] => destruct b; eauto
  end.
  - destruct (save_current_total st) as [m ->]. cbn [bind]. eauto.
  - destruct (current_section st) as [name|]; [| eauto].
    destruct (truthy name); eauto.
Qed.

Lemma parse_analysis_total (analysis : str) :
  exists m, parse_analysis analysis = Ok m.
Proof.
  unfold parse_analysis.
  destruct (for_each_total scan_line scan_line_total
              (split_chr nl analysis) scan_init) as [st ->].
  cbn [bind]. apply save_current_total.
Qed.

(** ** What each extractor leaves alone *)

Lemma rstrip_has_word (s : str) : Spec.has_word (rstrip s).
Proof.
  induction s as [|c s IH]; cbn [rstrip]; [left; reflexivity |].
  destruct (rstrip s) as [|y r].
  - destruct (is_space c) eqn:E; [left; reflexivity |].
    right. exists c. split; [left; reflexivity | exact E].
  - right. destruct IH as [IH | (x & Hin & Hx)]; [discriminate |].
    exists x. split; [right; exact Hin | exact Hx].
Qed.

Lemma strip_has_word (s : str) : Spec.has_word (strip s).
Proof. apply rstrip_has_word. Qed.

Lemma nth_strip_has_word (i : nat) (l : list str) :
  Spec.has_word (nth i (map strip l) []).
Proof.
  change (@nil ascii) with (strip []) at 1.
  rewrite map_nth. apply strip_has_word.
Qed.

Lemma fit_rows_ratings (lines : list str) :
  Forall (fun r => Spec.has_word (rating r))
         (map Spec.row_of (filter Spec.yields_row lines)).
Proof.
  apply Forall_forall. intros r Hr. apply in_map_iff in Hr.
  destruct Hr as (line & <- & _).
  unfold Spec.row_of, Spec.cells_of. cbn [rating].
  apply nth_strip_has_word.
Qed.

Lemma parse_fit_table_ratings (text : str) :
  exists rows overall,
    parse_fit_table text = Ok (rows, overall)
    /\ Forall (fun r => Spec.has_word (rating r)) rows.
Proof.
  unfold parse_fit_table.
  destruct (fit_loop_rows (split_chr nl text) [] []) as [ov H].
  cbn [app] in H. do 2 eexists. split; [exact H |].
  apply fit_rows_ratings.
Qed.

(** Closes the frame conditions of an extractor that sets fields of its
    own category only. *)
Ltac frame_done :=
  split;
  [ repeat split; try reflexivity; try congruence;
    let c' := fresh "c'" in
    let Hne := fresh "Hne" in
    intros c' Hne; destruct c'; try congruence; reflexivity
  | let H := fresh "H" in intros H; exact H ].

Lemma extract_shape (c : Spec.category) (m : memo) (text : str) :
  exists m',
    Spec.extract c m text = Ok m'
    /\ Spec.frame c m m'
    /\ (Spec.ratings_ok m -> Spec.ratings_ok m').
Proof.
  destruct c; cbn [Spec.extract];
    try (destruct (markdown_to_html_total text false) as [v ->];
         cbn [bind]; eexists; split; [reflexivity | frame_done]; fail).
  - destruct (for_each_total snapshot_line snapshot_line_total
                (split_chr nl text) []) as [v Hv].
    unfold parse_snapshot. rewrite Hv. cbn [bind].
    eexists; split; [reflexivity | frame_done].
  - destruct (markdown_to_html_total text true) as [v ->]. cbn [bind].
    eexists; split; [reflexivity | frame_done].
  - destruct (parse_fit_table_ratings text) as (rows & ov & -> & Hrows).
    cbn [bind]. eexists; split; [reflexivity |]. split.
    + repeat split; try reflexivity; try congruence.
      intros c' Hne; destruct c'; try congruence; reflexivity.
    + intros _. exact Hrows.
  - destruct (for_each_total bullet_line bullet_line_total
                (split_chr nl text) []) as [v Hv].
    unfold parse_bullet_points. rewrite Hv. cbn [bind].
    eexists; split; [reflexivity | frame_done].
  - destruct (for_each_total bullet_line bullet_line_total
                (split_chr nl text) []) as [v Hv].
    unfold parse_bullet_points. rewrite Hv. cbn [bind].
    eexists; split; [reflexivity | frame_done].
  - destruct (for_each_total debate_step debate_step_total
                (split_chr nl text) []) as [v Hv].
    unfold parse_debates. rewrite Hv. cbn [bind].
    eexists; split; [reflexivity | frame_done].
  - destruct (parse_verdict_total text) as (v & cf & r & ->).
    cbn [bind]. eexists; split; [reflexivity |].
    destruct (truthy v), (truthy cf); frame_done.
  - destruct (for_each_total terms_line terms_line_total
                (split_chr nl text) []) as [v Hv].
    unfold parse_terms. rewrite Hv. cbn [bind].
    eexists; split; [reflexivity | frame_done].
  - destruct (for_each_total risk_line risk_line_total
                (split_chr nl text) Spec.risk_init) as [v Hv].
    unfold parse_risks. unfold Spec.risk_init in Hv. rewrite Hv.
    cbn [bind]. eexists; split; [reflexivity | frame_done].
  - eexists; split; [reflexivity | frame_done].
Qed.

(** ** Invariants of the scan *)

Section ScanInvariant.

Variable P : memo -> Prop.
Variable ok : Spec.category -> bool.
Variable title_ok : str -> Prop.

Hypothesis P_title :
  forall m line,
    title_ok line -> Spec.is_title_line line = true -> P m ->
    P (Spec.title_update m line).
Hypothesis P_extract :
  forall c m text m',
    ok c = true -> P m -> Spec.extract c m text = Ok m' -> P m'.

Lemma save_section_inv (m : memo) (name : str) (content : list str) :
  P m -> Spec.allowed ok (Spec.classify name) ->
  exists m', save_section m name content = Ok m' /\ P m'.
Proof.
  intros Hm Hok. rewrite save_section_classify.
  destruct (Spec.classify name) as [c|]; [| eauto].
  destruct (extract_total c m (strip (join [nl] content))) as [m' H].
  exists m'. split; [exact H |]. eapply P_extract; eauto.
Qed.

Lemma save_current_inv (st : scan_state) :
  P (sections st) -> Spec.open_allowed ok (current_section st) ->
  exists m, save_current st = Ok m /\ P m.
Proof.
  intros Hm Hok. unfold save_current.
  destruct (current_section st) as [name|]; [| eauto].
  destruct (current_content st); [eauto |].
  destruct (truthy name); [| eauto].
  apply save_section_inv; assumption.
Qed.

Lemma scan_line_inv (st : scan_state) (line : str) :
  P (sections st) -> Spec.open_allowed ok (current_section st) ->
  Spec.line_allowed ok line -> title_ok line ->
  exists st',
    scan_line st line = Ok st'
    /\ P (sections st') /\ Spec.open_allowed ok (current_section st').
Proof.
  intros Hm Hok Hline Htok. unfold scan_line.
  destruct (startswith "# " (strip line)
            && negb (startswith "## " (strip line))) eqn:Et.
  { pose proof (P_title (sections st) line Htok Et Hm) as Ht.
    unfold Spec.title_update, Spec.names_verdict, Spec.title_word,
      Spec.title_text in Ht.
    match goal with
    | |- context [if ?b then _ else _] => destruct b
    end; eexists; (split; [reflexivity |]); cbn [sections current_section];
      auto. }
  destruct (startswith "### " (strip line)) eqn:Eh.
  { destruct (save_current_inv st Hm Hok) as (m & -> & Hm').
    cbn [bind]. eexists; split; [reflexivity |].
    cbn [sections current_section]. split; [exact Hm' |].
    unfold Spec.line_allowed, Spec.heading_category, Spec.is_heading in Hline.
    rewrite Eh in Hline. exact Hline. }
  destruct (startswith "## " (strip line) || str_eqb (strip line) "---").
  { eexists; split; [reflexivity | auto]. }
  destruct (current_section st) as [name|] eqn:Ec.
  - destruct (truthy name).
    + eexists; split; [reflexivity |]. cbn [sections current_section].
      auto.
    + eexists; split; [reflexivity | rewrite Ec; auto].
  - eexists; split; [reflexivity | rewrite Ec; auto].
Qed.

Lemma scan_lines_inv (lines : list str) :
  forall st : scan_state,
    Forall (fun l => Spec.line_allowed ok l /\ title_ok l) lines ->
    P (sections st) -> Spec.open_allowed ok (current_section st) ->
    exists st',
      for_each scan_line lines st = Ok st'
      /\ P (sections st') /\ Spec.open_allowed ok (current_section st').
Proof.
  induction lines as [|l lines IH]; intros st Hall Hm Hok; cbn [for_each].
  - eauto.
  - inversion Hall as [|? ? [Hl Ht] Hrest]; subst.
    destruct (scan_line_inv st l Hm Hok Hl Ht) as (st1 & -> & Hm1 & Hok1).
    cbn [bind]. apply IH; assumption.
Qed.

Lemma parse_analysis_inv (analysis : str) :
  Forall (fun l => Spec.line_allowed ok l /\ title_ok l)
         (split_chr nl analysis) ->
  P empty_memo ->
  exists m, parse_analysis analysis = Ok m /\ P m.
Proof.
  intros Hall H0. unfold parse_analysis.
  destruct (scan_lines_inv (split_chr nl analysis) scan_init Hall H0 I)
    as (st & -> & Hm & Hok).
  cbn [bind]. apply save_current_inv; assumption.
Qed.

End ScanInvariant.

(** ** The assembler does not raise *)

Lemma is_space_lower (c : ascii) : is_space (lower_chr c) = is_space c.
Proof.
  destruct c as [b0 b1 b2 b3 b4 b5 b6 b7].
  destruct b0, b1, b2, b3, b4, b5, b6, b7; reflexivity.
Qed.

Lemma words_from_nonempty (s : str) :
  forall cur : str,
    (exists c, In c s /\ is_space c = false) \/ cur <> [] ->
    words_from s cur <> [].
Proof.
  induction s as [|c s IH]; intros cur H; cbn [words_from].
  - destruct H as [(x & [] & _) | H].
    destruct cur; [congruence | discriminate].
  - destruct (is_space c) eqn:E.
    + destruct cur as [|y cur]; [| discriminate].
      apply IH. left. destruct H as [(x & [-> | Hin] & Hx) | H];
        [congruence | eauto | congruence].
    + apply IH. right. discriminate.
Qed.

Lemma fit_tr_total (acc : str) (row : fit_row) :
  Spec.has_word (rating row) -> exists acc', fit_tr acc row = Ok acc'.
Proof.
  intros Hw. unfold fit_tr.
  destruct (rating row) as [|c r] eqn:Er; cbn [truthy];
    [cbn [bind]; eauto |].
  destruct Hw as [Hw | (x & Hin & Hx)]; [discriminate |].
  assert (Hne : words (lower (c :: r)) <> []).
  { apply words_from_nonempty. left. exists (lower_chr x). split.
    - unfold lower. apply in_map. exact Hin.
    - rewrite is_space_lower. exact Hx. }
  destruct (words (lower (c :: r))) as [|w ws]; [congruence |].
  cbn [index nth_error bind]. eauto.
Qed.

Lemma for_each_forall {A S} (body : S -> A -> result S) (Q : A -> Prop)
    (step : forall s a, Q a -> exists s', body s a = Ok s') :
  forall (l : list A) (s : S),
    Forall Q l -> exists s', for_each body l s = Ok s'.
Proof.
  induction l as [|a l IH]; intros s Hall; cbn [for_each]; [eauto |].
  inversion Hall as [|? ? Ha Hl]; subst.
  destruct (step s a Ha) as [s1 ->]. cbn [bind]. auto.
Qed.

Lemma generate_html_total (template now : str) (m : memo)
    (source date_str bull bear deliberation : str) :
  Spec.ratings_ok m ->
  exists html,
    generate_html template now m source date_str bull bear deliberation
    = Ok html.
Proof.
  intros Hm. unfold generate_html.
  match goal with
  | |- context [for_each fit_tr (fit_table m) ?acc] =>
      destruct (for_each_forall fit_tr _ fit_tr_total (fit_table m) acc Hm)
        as [fit_html ->]
  end.
  cbn [bind]. destruct (truthy bull && truthy bear); eauto.
Qed.

Lemma parse_analysis_ratings (analysis : str) :
  exists m, parse_analysis analysis = Ok m /\ Spec.ratings_ok m.
Proof.
  apply (parse_analysis_inv Spec.ratings_ok (fun _ => true) (fun _ => True)).
  - intros m line _ _ Hm. unfold Spec.title_update.
    destruct (Spec.names_verdict line); exact Hm.
  - intros c m text m' _ Hm H.
    destruct (extract_shape c m text) as (m1 & H1 & _ & Hr).
    rewrite H1 in H. injection H as <-. auto.
  - apply Forall_forall. intros l _. split; [| exact I].
    unfold Spec.line_allowed, Spec.allowed.
    destruct (Spec.heading_category l); [reflexivity | exact I].
  - constructor.
Qed.

Lemma existsb_none {A} (f : A -> bool) (l : list A) (x : A) :
  existsb f l = false -> In x l -> f x = false.
Proof.
  intros H Hin. destruct (f x) eqn:E; [| reflexivity].
  assert (existsb f l = true) by (apply existsb_exists; eauto).
  congruence.
Qed.

(** A section of category [c] is absent: the fields of [c] keep their
    defaults. *)
Lemma absent_section_default (c : Spec.category) (analysis : str) (m : memo) :
  Spec.has_section c analysis = false ->
  parse_analysis analysis = Ok m ->
  Spec.view c m = Spec.view c empty_memo.
Proof.
  intros Habs Hm.
  destruct (parse_analysis_inv
              (fun m => Spec.view c m = Spec.view c empty_memo)
              (fun c' => if Spec.category_eq_dec c c' then false else true)
              (fun _ => True)) with (analysis := analysis)
    as (m1 & H1 & Hv).
  - intros m0 line _ _ H0. rewrite <- H0. unfold Spec.title_update.
    destruct (Spec.names_verdict line); destruct c; reflexivity.
  - intros c' m0 text m' Hok H0 H.
    destruct (Spec.category_eq_dec c c') as [|Hne]; [discriminate |].
    destruct (extract_shape c' m0 text) as (m2 & H2 & Hf & _).
    rewrite H2 in H. injection H as <-.
    destruct Hf as (_ & _ & _ & Hf). rewrite (Hf c Hne). exact H0.
  - unfold Spec.has_section in Habs.
    apply Forall_forall. intros l Hl. split; [| exact I].
    pose proof (existsb_none _ _ l Habs Hl) as Hall.
    unfold Spec.line_allowed, Spec.allowed.
    unfold Spec.opens in Hall.
    destruct (Spec.heading_category l) as [c'|]; [| exact I].
    destruct (Spec.category_eq_dec c c'); [discriminate | reflexivity].
  - reflexivity.
  - rewrite Hm in H1. injection H1 as <-. exact Hv.
Qed.

(** ** One turn of the scan *)

Lemma scan_line_step (st : scan_state) (line : str) :
  exists st', scan_line st line = Ok st' /\ Spec.step_spec st line st'.
Proof.
  unfold scan_line, Spec.step_spec, Spec.is_title_line, Spec.is_heading,
    Spec.is_dropped, Spec.section_open.
  destruct (startswith "# " (strip line)
            && negb (startswith "## " (strip line))).
  { unfold Spec.title_update, Spec.names_verdict, Spec.title_word,
      Spec.title_text.
    match goal with
    | |- context [if ?b then _ else _] => destruct b
    end; eexists; (split; [reflexivity |]); repeat split. }
  destruct (startswith "### " (strip line)).
  { destruct (save_current_total st) as [m Hm]. rewrite Hm. cbn [bind].
    eexists; split; [reflexivity |]. repeat split. }
  destruct (startswith "## " (strip line) || str_eqb (strip line) "---");
    cbn [negb andb].
  { eexists; split; [reflexivity |]. rewrite app_nil_r. repeat split. }
  destruct (current_section st) as [name|] eqn:Ec.
  - destruct (truthy name).
    + eexists; split; [reflexivity |]. repeat split.
    + eexists; split; [reflexivity |]. rewrite app_nil_r. repeat split.
      exact Ec.
  - eexists; split; [reflexivity |]. rewrite app_nil_r. repeat split.
    exact Ec.
Qed.

(** ** Title lines: the name and the verdict *)

Lemma save_current_frame (st : scan_state) (m : memo) :
  save_current st = Ok m ->
  company_name m = company_name (sections st)
  /\ (Spec.open_allowed (Spec.other_than Spec.Recommendation)
        (current_section st) ->
      verdict m = verdict (sections st)).
Proof.
  unfold save_current.
  destruct (current_section st) as [name|];
    [| intros [= <-]; split; reflexivity].
  destruct (current_content st) as [|l content];
    [intros [= <-]; split; reflexivity |].
  destruct (truthy name); [| intros [= <-]; split; reflexivity].
  rewrite save_section_classify. cbn [Spec.open_allowed].
  destruct (Spec.classify name) as [c|];
    [| intros [= <-]; split; reflexivity].
  intros H.
  destruct (extract_shape c (sections st) (strip (join [nl] (l :: content))))
    as (m1 & H1 & (Hn & Hv & _) & _).
  rewrite H1 in H. injection H as <-. split; [exact Hn |].
  cbn [Spec.allowed]. unfold Spec.other_than.
  destruct (Spec.category_eq_dec Spec.Recommendation c) as [|Hne];
    [discriminate |].
  intros _. apply Hv. congruence.
Qed.

Lemma scan_lines_company (lines : list str) :
  forall st : scan_state, exists st',
    for_each scan_line lines st = Ok st'
    /\ company_name (sections st')
       = Spec.last_title_name lines (company_name (sections st)).
Proof.
  induction lines as [|l lines IH]; intros st; cbn [for_each].
  - eauto.
  - destruct (scan_line_step st l) as (st1 & -> & Hstep). cbn [bind].
    destruct (IH st1) as (st' & -> & Hc). exists st'. split; [reflexivity |].
    rewrite Hc. unfold Spec.last_title_name. cbn [fold_left]. f_equal.
    unfold Spec.step_spec in Hstep. unfold Spec.is_name_title.
    destruct (Spec.is_title_line l); cbn [andb].
    + destruct Hstep as (-> & _). unfold Spec.title_update.
      destruct (Spec.names_verdict l); reflexivity.
    + destruct (Spec.is_heading l).
      * destruct Hstep as (Hs & _). apply save_current_frame in Hs. tauto.
      * destruct Hstep as (-> & _). reflexivity.
Qed.

Lemma scan_lines_verdict (lines : list str) :
  forall st : scan_state,
    Forall (Spec.line_allowed (Spec.other_than Spec.Recommendation)) lines ->
    Spec.open_allowed (Spec.other_than Spec.Recommendation)
      (current_section st) ->
    exists st',
      for_each scan_line lines st = Ok st'
      /\ verdict (sections st')
         = Spec.last_title_verdict lines (verdict (sections st))
      /\ Spec.open_allowed (Spec.other_than Spec.Recommendation)
           (current_section st').
Proof.
  induction lines as [|l lines IH]; intros st Hall Hopen; cbn [for_each].
  - eauto.
  - inversion Hall as [|? ? Hl Hrest]; subst.
    destruct (scan_line_step st l) as (st1 & -> & Hstep). cbn [bind].
    assert (verdict (sections st1)
            = (if Spec.is_verdict_title l then Spec.title_word l
               else verdict (sections st))
            /\ Spec.open_allowed (Spec.other_than Spec.Recommendation)
                 (current_section st1)) as [Hv Hopen1].
    { unfold Spec.step_spec in Hstep. unfold Spec.is_verdict_title.
      unfold Spec.line_allowed, Spec.heading_category in Hl.
      destruct (Spec.is_title_line l); cbn [andb].
      - destruct Hstep as (-> & -> & _). split; [| exact Hopen].
        unfold Spec.title_update.
        destruct (Spec.names_verdict l); reflexivity.
      - destruct (Spec.is_heading l).
        + destruct Hstep as (Hs & -> & _). apply save_current_frame in Hs.
          split; [tauto | exact Hl].
        + destruct Hstep as (-> & -> & _). split; [reflexivity | exact Hopen].
    }
    destruct (IH st1 Hrest Hopen1) as (st' & -> & Hv' & Hopen').
    exists st'. split; [reflexivity |]. split; [| exact Hopen'].
    rewrite Hv', Hv. reflexivity.
Qed.

Lemma no_section_lines (c : Spec.category) (analysis : str) :
  Spec.has_section c analysis = false ->
  Forall (Spec.line_allowed (Spec.other_than c)) (split_chr nl analysis).
Proof.
  intros Habs. apply Forall_forall. intros l Hl.
  pose proof (existsb_none _ _ l Habs Hl) as Hno.
  unfold Spec.line_allowed, Spec.allowed, Spec.opens, Spec.other_than in *.
  destruct (Spec.heading_category l) as [c'|]; [| exact I].
  destruct (Spec.category_eq_dec c c'); [discriminate | reflexivity].
Qed.



(** ** The pipeline is total *)

Lemma last_title_name_none (lines : list str) (init : str) :
  existsb Spec.is_name_title lines = false ->
  Spec.last_title_name lines init = init.
Proof.
  unfold Spec.last_title_name. revert init.
  induction lines as [|l lines IH]; intros init; cbn [existsb fold_left];
    [reflexivity |].
  intros H. apply orb_false_iff in H. destruct H as [-> H]. auto.
Qed.

Lemma last_title_verdict_none (lines : list str) (init : str) :
  existsb Spec.is_verdict_title lines = false ->
  Spec.last_title_verdict lines init = init.
Proof.
  unfold Spec.last_title_verdict. revert init.
  induction lines as [|l lines IH]; intros init; cbn [existsb fold_left];
    [reflexivity |].
  intros H. apply orb_false_iff in H. destruct H as [-> H]. auto.
Qed.

Lemma parse_analysis_titles (analysis : str) :
  exists m,
    parse_analysis analysis = Ok m
    /\ company_name m = Spec.last_title_name (split_chr nl analysis) []
    /\ (Spec.has_section Spec.Recommendation analysis = false ->
        verdict m = Spec.last_title_verdict (split_chr nl analysis) []).
Proof.
  unfold parse_analysis.
  destruct (scan_lines_company (split_chr nl analysis) scan_init)
    as (st & Hst & Hc).
  rewrite Hst. cbn [bind].
  destruct (save_current_total st) as [m Hm]. exists m.
  split; [exact Hm |].
  pose proof (save_current_frame st m Hm) as [Hn Hv].
  split; [rewrite Hn; exact Hc |].
  intros Habs.
  destruct (scan_lines_verdict (split_chr nl analysis) scan_init
              (no_section_lines _ _ Habs) I) as (st2 & Hst2 & Hv2 & Ho2).
  rewrite Hst in Hst2. injection Hst2 as <-.
  rewrite (Hv Ho2). exact Hv2.
Qed.

Lemma for_each_skip {A S} (body : S -> A -> result S) (Q : A -> Prop)
    (step : forall s a, Q a -> body s a = Ok s) :
  forall (l : list A) (s : S), Forall Q l -> for_each body l s = Ok s.
Proof.
  induction l as [|a l IH]; intros s Hall; cbn [for_each]; [reflexivity |].
  inversion Hall as [|? ? Ha Hl]; subst.
  rewrite (step s a Ha). cbn [bind]. auto.
Qed.

Lemma for_each_inv_forall {A S} (body : S -> A -> result S)
    (P : S -> Prop) (Q : A -> Prop)
    (step : forall s a, Q a -> P s -> exists s', body s a = Ok s' /\ P s') :
  forall (l : list A) (s : S),
    Forall Q l -> P s -> exists s', for_each body l s = Ok s' /\ P s'.
Proof.
  induction l as [|a l IH]; intros s Hall Hs; cbn [for_each]; [eauto |].
  inversion Hall as [|? ? Ha Hl]; subst.
  destruct (step s a Ha Hs) as (s1 & -> & Hs1). cbn [bind]. auto.
Qed.

Lemma fold_left_skip {A S} (body : S -> A -> S) (Q : A -> Prop)
    (step : forall s a, Q a -> body s a = s) :
  forall (l : list A) (s : S), Forall Q l -> fold_left body l s = s.
Proof.
  induction l as [|a l IH]; intros s Hall; cbn [fold_left]; [reflexivity |].
  inversion Hall as [|? ? Ha Hl]; subst.
  rewrite (step s a Ha). auto.
Qed.

(** A section text in which the extractor finds nothing leaves the empty
    memo as it is. *)
Lemma extract_unparsable (c : Spec.category) (text : str) :
  Spec.unparsable c text -> Spec.extract c empty_memo text = Ok empty_memo.
Proof.
  destruct c; cbn [Spec.unparsable Spec.extract]; intros H;
    try (subst text; vm_compute; reflexivity).
  - unfold parse_snapshot.
    erewrite (for_each_skip snapshot_line);
      [reflexivity | | exact H].
    intros s l Hl. unfold snapshot_line. cbn beta in Hl. now rewrite Hl.
  - unfold parse_fit_table.
    erewrite (for_each_skip fit_line);
      [reflexivity | | exact H].
    intros [rows ov] l [Hl1 Hl2]. unfold fit_line. now rewrite Hl1, Hl2.
  - unfold parse_bullet_points.
    erewrite (for_each_skip bullet_line);
      [reflexivity | | exact H].
    intros s l Hl. unfold bullet_line. cbn beta in Hl. now rewrite Hl.
  - unfold parse_bullet_points.
    erewrite (for_each_skip bullet_line);
      [reflexivity | | exact H].
    intros s l Hl. unfold bullet_line. cbn beta in Hl. now rewrite Hl.
  - unfold parse_debates.
    erewrite (for_each_skip debate_step);
      [reflexivity | | exact H].
    intros s l Hl. unfold debate_step. cbn beta in Hl. now rewrite Hl.
  - unfold parse_terms.
    erewrite (for_each_skip terms_line);
      [reflexivity | | exact H].
    intros s l Hl. unfold terms_line. cbn beta in Hl. now rewrite Hl.
  - unfold parse_risks.
    destruct (for_each_inv_forall risk_line
                (fun st => rs_risks st = [] /\ rs_info_gaps st = [])
                (fun l => contains "Information Gaps" (strip l) = false
                          /\ Re.matches Pat.number_dot (strip l) = false))
      with (l := split_chr nl text)
           (s := {| rs_risks := []; rs_info_gaps := []; rs_in_risks := false |})
      as (st & -> & Hr & Hg).
    + intros st l [Hl1 Hl2] [Hr Hg]. unfold risk_line.
      rewrite Hl1, Hl2, Hr, Hg, andb_false_r.
      destruct (contains "Critical Risks" (strip l)
                || contains "Key Risks" (strip l));
        cbn [bind]; eexists; (split; [reflexivity |]); split; try reflexivity.
      cbn [rs_info_gaps truthy].
      destruct (negb (rs_in_risks st) && truthy (strip l)
                && negb (contains "Information" (strip l))); reflexivity.
    + exact H.
    + split; reflexivity.
    + cbn [bind]. rewrite Hr, Hg. reflexivity.
  - unfold parse_dd.
    erewrite (fold_left_skip dd_line);
      [reflexivity | | exact H].
    intros s l Hl. unfold dd_line. cbn beta in Hl. now rewrite Hl.
Qed.


(** The totality theorem at the empty document and at a document of
    unmatched markers: both are parsed and rendered. *)
Example pipeline_total_examples :
  parse_analysis [] = Ok empty_memo
  /\ parse_analysis "**[(" = Ok empty_memo
  /\ create_memo "<h1>{{COMPANY_NAME}}</h1>{{BULL_CASE}}" "today" [] [] [] []
       [] [] = Ok (lit "<h1></h1><p>Not provided</p>").
Proof. repeat split; vm_compute; reflexivity. Qed.

(** ** Title lines never reach a section body *)

Lemma title_line_hash (line : str) :
  Spec.is_title_line line = startswith "# " (strip line).
Proof.
  unfold Spec.is_title_line.
  destruct (strip line) as [|a [|b s]]; [reflexivity | |];
    cbn [startswith lit list_ascii_of_string].
  - now rewrite !andb_false_r.
  - destruct (Ascii.eqb "#" a) eqn:Ea; cbn [andb]; [| reflexivity].
    destruct (Ascii.eqb " " b) eqn:Eb; cbn [andb]; [| reflexivity].
    apply Ascii.eqb_eq in Eb. subst b. reflexivity.
Qed.

Lemma split_chr_no_sep (d : ascii) (s : str) :
  Forall (fun l => ~ In d l) (split_chr d s).
Proof.
  induction s as [|c s IH]; cbn [split_chr].
  - constructor; [intros [] | constructor].
  - destruct (Ascii.eqb c d) eqn:E.
    + constructor; [intros [] | exact IH].
    + destruct (split_chr d s) as [|p ps]; [constructor; [| constructor] |].
      * intros [-> | []]. rewrite Ascii.eqb_refl in E. discriminate.
      * inversion IH as [|? ? Hp Hps]; subst. constructor; [| exact Hps].
        intros [-> | Hin]; [rewrite Ascii.eqb_refl in E; discriminate | auto].
Qed.

Lemma split_chr_app (d : ascii) (x s : str) :
  ~ In d x ->
  split_chr d (x ++ s) =
  match split_chr d s with
  | p :: ps => (x ++ p) :: ps
  | [] => [x]
  end.
Proof.
  induction x as [|c x IH]; intros Hx; cbn [app].
  - destruct (split_chr d s) eqn:E; [| reflexivity].
    exfalso. eapply split_chr_nonempty; eauto.
  - cbn [split_chr]. destruct (Ascii.eqb c d) eqn:E.
    + apply Ascii.eqb_eq in E. subst c. exfalso. apply Hx. left. reflexivity.
    + rewrite IH by (intros H; apply Hx; right; exact H).
      destruct (split_chr d s); reflexivity.
Qed.

Lemma split_chr_single (d : ascii) (x : str) :
  ~ In d x -> split_chr d x = [x].
Proof.
  intros Hx. rewrite <- (app_nil_r x) at 1. rewrite split_chr_app by exact Hx.
  cbn [split_chr]. now rewrite app_nil_r.
Qed.

Lemma split_chr_join (d : ascii) (content : list str) :
  content <> [] -> Forall (fun l => ~ In d l) content ->
  split_chr d (join [d] content) = content.
Proof.
  induction content as [|x content IH]; [congruence |]. intros _ Hall.
  inversion Hall as [|? ? Hx Hrest]; subst.
  destruct content as [|y content].
  - cbn [join]. apply split_chr_single. exact Hx.
  - rewrite join_cons by discriminate.
    rewrite split_chr_app by exact Hx.
    cbn [app split_chr]. rewrite Ascii.eqb_refl.
    rewrite IH by (discriminate || exact Hrest).
    now rewrite app_nil_r.
Qed.

Lemma split_chr_all (P : ascii -> Prop) (d : ascii) (s : str) :
  Forall P s -> Forall (Forall P) (split_chr d s).
Proof.
  induction s as [|c s IH]; intros Hs; cbn [split_chr].
  - repeat constructor.
  - inversion Hs as [|? ? Hc Hrest]; subst. specialize (IH Hrest).
    destruct (Ascii.eqb c d).
    + constructor; [constructor | exact IH].
    + destruct (split_chr d s) as [|p ps]; [repeat constructor; exact Hc |].
      inversion IH; subst. constructor; [constructor |]; assumption.
Qed.

Lemma lstrip_all_space (w : str) : Spec.all_space w -> lstrip w = [].
Proof.
  induction 1 as [|c w Hc _ IH]; cbn [lstrip]; [reflexivity |].
  now rewrite Hc.
Qed.

Lemma rstrip_all_space (w : str) : Spec.all_space w -> rstrip w = [].
Proof.
  induction 1 as [|c w Hc _ IH]; cbn [rstrip]; [reflexivity |].
  now rewrite IH, Hc.
Qed.

Lemma rstrip_nil_all_space (w : str) : rstrip w = [] -> Spec.all_space w.
Proof.
  induction w as [|c w IH]; cbn [rstrip]; [constructor |].
  destruct (rstrip w) as [|y r]; [| discriminate].
  destruct (is_space c) eqn:E; [| discriminate].
  intros _. constructor; [exact E | apply IH; reflexivity].
Qed.

Lemma rstrip_app_space (a w : str) :
  Spec.all_space w -> rstrip (a ++ w) = rstrip a.
Proof.
  intros Hw. induction a as [|c a IH]; cbn [app rstrip].
  - apply rstrip_all_space. exact Hw.
  - now rewrite IH.
Qed.

Lemma lstrip_app (x w : str) :
  lstrip (x ++ w) = lstrip x ++ w
  \/ (lstrip x = [] /\ lstrip (x ++ w) = lstrip w).
Proof.
  induction x as [|c x IH]; cbn [app lstrip].
  - right. split; reflexivity.
  - destruct (is_space c); [exact IH | left; reflexivity].
Qed.

Lemma strip_app_space (x w : str) :
  Spec.all_space w -> strip (x ++ w) = strip x.
Proof.
  intros Hw. unfold strip.
  destruct (lstrip_app x w) as [-> | [Hx ->]].
  - apply rstrip_app_space. exact Hw.
  - rewrite Hx, (lstrip_all_space w Hw). reflexivity.
Qed.

Lemma strip_cons_space (c : ascii) (p : str) :
  is_space c = true -> strip (c :: p) = strip p.
Proof. intros Hc. unfold strip. cbn [lstrip]. now rewrite Hc. Qed.

Lemma nl_is_space : is_space nl = true.
Proof. reflexivity. Qed.

Lemma not_space_not_nl (c : ascii) : is_space c = false -> c <> nl.
Proof. intros H ->. rewrite nl_is_space in H. discriminate. Qed.

(** Trailing white space after a line start [x] adds no title line. *)
Lemma no_title_drop_space (x w : str) :
  ~ In nl x -> Spec.all_space w ->
  Spec.no_title_in (x ++ w) -> Spec.no_title_in x.
Proof.
  intros Hx Hw H. unfold Spec.no_title_in in *.
  rewrite split_chr_app in H by exact Hx.
  rewrite split_chr_single by exact Hx.
  pose proof (split_chr_all _ nl w Hw) as Hlines.
  destruct (split_chr nl w) as [|p ps].
  - exact H.
  - inversion H as [|? ? Hp _]; subst. inversion Hlines as [|? ? Hsp _]; subst.
    constructor; [| constructor].
    rewrite strip_app_space in Hp by exact Hsp. exact Hp.
Qed.

Lemma no_title_rstrip (t : str) :
  forall x : str,
    ~ In nl x -> Spec.no_title_in (x ++ t) -> Spec.no_title_in (x ++ rstrip t).
Proof.
  induction t as [|c t IH]; intros x Hx H; cbn [rstrip]; [exact H |].
  destruct (rstrip t) as [|y r] eqn:Er.
  - apply rstrip_nil_all_space in Er.
    destruct (is_space c) eqn:Ec.
    + rewrite app_nil_r. apply (no_title_drop_space x (c :: t) Hx); [| exact H].
      constructor; assumption.
    + apply (no_title_drop_space (x ++ [c]) t).
      * intros Hin. apply in_app_or in Hin. destruct Hin as [Hin | [-> | []]];
          [auto | rewrite nl_is_space in Ec; discriminate].
      * exact Er.
      * rewrite <- app_assoc. exact H.
  - destruct (Ascii.eqb c nl) eqn:E.
    + apply Ascii.eqb_eq in E. subst c.
      unfold Spec.no_title_in in *.
      rewrite split_chr_app in H |- * by exact Hx.
      cbn [split_chr] in H |- *. rewrite Ascii.eqb_refl in H |- *.
      rewrite app_nil_r in H |- *.
      inversion H as [|? ? Hhd Htl]; subst. constructor; [exact Hhd |].
      apply (IH [] (fun f => f) Htl).
    + change (x ++ c :: y :: r) with (x ++ [c] ++ y :: r).
      rewrite app_assoc. apply IH.
      * intros Hin. apply in_app_or in Hin. destruct Hin as [Hin | [-> | []]];
          [auto | rewrite Ascii.eqb_refl in E; discriminate].
      * rewrite <- app_assoc. exact H.
Qed.

Lemma no_title_lstrip (t : str) :
  Spec.no_title_in t -> Spec.no_title_in (lstrip t).
Proof.
  induction t as [|c t IH]; intros H; cbn [lstrip]; [exact H |].
  destruct (is_space c) eqn:Ec; [| exact H].
  apply IH. unfold Spec.no_title_in in *. cbn [split_chr] in H.
  destruct (Ascii.eqb c nl).
  - inversion H; assumption.
  - pose proof (split_chr_nonempty nl t) as Hne.
    destruct (split_chr nl t) as [|p ps]; [congruence |].
    inversion H as [|? ? Hp Hps]; subst. constructor; [| exact Hps].
    rewrite strip_cons_space in Hp by exact Ec. exact Hp.
Qed.

Lemma no_title_strip (t : str) :
  Spec.no_title_in t -> Spec.no_title_in (strip t).
Proof.
  intros H. unfold strip.
  apply (no_title_rstrip (lstrip t) [] (fun f => f)).
  apply no_title_lstrip. exact H.
Qed.

Lemma body_text_no_title (content : list str) :
  Spec.body_ok content -> Spec.no_title_in (strip (join [nl] content)).
Proof.
  intros H. apply no_title_strip. unfold Spec.no_title_in.
  destruct content as [|x content].
  - cbn. constructor; [reflexivity | constructor].
  - rewrite split_chr_join.
    + eapply Forall_impl; [| exact H]. cbn beta. tauto.
    + discriminate.
    + eapply Forall_impl; [| exact H]. cbn beta. tauto.
Qed.

Lemma Forall_firstn {A} (P : A -> Prop) (n : nat) (l : list A) :
  Forall P l -> Forall P (firstn n l).
Proof.
  revert l; induction n as [|n IH]; intros l H; [constructor |].
  destruct l as [|a l]; [constructor |].
  inversion H; subst. cbn [firstn]. constructor; auto.
Qed.

Lemma scan_line_body (st : scan_state) (line : str) :
  Spec.body_ok (current_content st) -> ~ In nl line ->
  exists st',
    scan_line st line = Ok st' /\ Spec.body_ok (current_content st').
Proof.
  intros Hb Hnl. destruct (scan_line_step st line) as (st' & H & Hstep).
  exists st'. split; [exact H |].
  unfold Spec.step_spec in Hstep.
  destruct (Spec.is_title_line line) eqn:Et.
  - destruct Hstep as (_ & _ & ->). exact Hb.
  - destruct (Spec.is_heading line).
    + destruct Hstep as (_ & _ & ->). constructor.
    + destruct Hstep as (_ & _ & ->). unfold Spec.body_ok.
      apply Forall_app. split; [exact Hb |].
      destruct (negb (Spec.is_dropped line) && Spec.section_open st);
        [| constructor].
      constructor; [| constructor]. split; [exact Hnl |].
      rewrite <- title_line_hash. exact Et.
Qed.

Lemma scan_lines_body (lines : list str) :
  forall st : scan_state,
    Forall (fun l => ~ In nl l) lines ->
    Spec.body_ok (current_content st) ->
    exists st',
      for_each scan_line lines st = Ok st'
      /\ Spec.body_ok (current_content st').
Proof.
  induction lines as [|l lines IH]; intros st Hall Hb; cbn [for_each].
  - eauto.
  - inversion Hall as [|? ? Hl Hrest]; subst.
    destruct (scan_line_body st l Hb Hl) as (st1 & -> & Hb1). cbn [bind].
    auto.
Qed.

Lemma no_title_no_hash_verdict (l : str) :
  startswith "# " (strip l) = false ->
  mem (strip l) (strs ["# PURSUE"; "# PASS"; "# MONITOR"]) = false.
Proof.
  intros H.
  destruct (mem (strip l) (strs ["# PURSUE"; "# PASS"; "# MONITOR"])) eqn:E;
    [| reflexivity].
  unfold mem, strs in E. cbn [map existsb] in E.
  rewrite !orb_true_iff in E.
  destruct E as [E | [E | [E | E]]]; try discriminate;
    apply str_eqb_eq in E; rewrite E in H; discriminate H.
Qed.


(** ** The final verdict *)

Lemma for_each_app {A S} (body : S -> A -> result S) (l1 l2 : list A) :
  forall s : S,
    for_each body (l1 ++ l2) s = (s' <- for_each body l1 s ;; for_each body l2 s').
Proof.
  induction l1 as [|a l1 IH]; intros s; cbn [app for_each bind];
    [reflexivity |].
  destruct (body s a); cbn [bind]; [apply IH | reflexivity].
Qed.

Lemma heading_not_title (l : str) :
  Spec.is_heading l = true -> Spec.is_title_line l = false.
Proof.
  rewrite title_line_hash. unfold Spec.is_heading.
  destruct (strip l) as [|a [|b s]]; cbn [startswith lit list_ascii_of_string];
    try discriminate.
  - now rewrite andb_false_r.
  - destruct (Ascii.eqb "#" a); cbn [andb]; [| discriminate].
    destruct (Ascii.eqb "#" b) eqn:Eb; cbn [andb]; [| discriminate].
    apply Ascii.eqb_eq in Eb. subst b. reflexivity.
Qed.

Lemma classify_some_truthy (name : str) (c : Spec.category) :
  Spec.classify name = Some c -> truthy name = true.
Proof. destruct name; [vm_compute; discriminate | reflexivity]. Qed.

(** The lines of a section body: title lines assign, the other lines are
    collected or dropped. *)
Lemma scan_body (body : list str) :
  forall st : scan_state,
    Forall (fun l => Spec.is_heading l = false) body ->
    exists st',
      for_each scan_line body st = Ok st'
      /\ verdict (sections st')
         = Spec.last_title_verdict body (verdict (sections st))
      /\ current_section st' = current_section st
      /\ current_content st'
         = current_content st
           ++ (if Spec.section_open st then filter Spec.is_content body
               else []).
Proof.
  induction body as [|l body IH]; intros st Hall; cbn [for_each].
  - exists st. repeat split. destruct (Spec.section_open st);
      cbn [filter]; now rewrite app_nil_r.
  - inversion Hall as [|? ? Hl Hrest]; subst.
    destruct (scan_line_step st l) as (st1 & -> & Hstep). cbn [bind].
    destruct (IH st1 Hrest) as (st' & -> & Hv & Hs & Hc).
    exists st'. split; [reflexivity |].
    unfold Spec.step_spec in Hstep. rewrite Hl in Hstep.
    assert (Spec.section_open st1 = Spec.section_open st) as Hopen.
    { unfold Spec.section_open.
      destruct (Spec.is_title_line l); destruct Hstep as (_ & -> & _);
        reflexivity. }
    rewrite Hopen in Hc. rewrite Hv, Hs, Hc.
    unfold Spec.last_title_verdict. cbn [fold_left filter].
    unfold Spec.is_verdict_title, Spec.is_content. rewrite Hl.
    destruct (Spec.is_title_line l); cbn [andb negb].
    + destruct Hstep as (-> & -> & ->). unfold Spec.title_update.
      destruct (Spec.names_verdict l); repeat split.
    + destruct Hstep as (-> & -> & ->). repeat split.
      rewrite <- app_assoc. f_equal.
      destruct (Spec.is_dropped l), (Spec.section_open st); reflexivity.
Qed.

Lemma close_recommendation (st : scan_state) (name : str) :
  current_section st = Some name ->
  Spec.classify name = Some Spec.Recommendation ->
  exists m,
    save_current st = Ok m
    /\ verdict m =
       match current_content st with
       | [] => verdict (sections st)
       | content =>
           if truthy (Spec.section_verdict content)
           then Spec.section_verdict content
           else verdict (sections st)
       end.
Proof.
  intros Hs Hc. unfold save_current. rewrite Hs.
  destruct (current_content st) as [|l content]; [eauto |].
  rewrite (classify_some_truthy _ _ Hc).
  rewrite save_section_classify, Hc. cbn [Spec.extract].
  unfold Spec.section_verdict.
  destruct (parse_verdict_total (strip (join [nl] (l :: content))))
    as (v & cf & r & ->).
  cbn [bind]. eexists. split; [reflexivity |].
  destruct (truthy v), (truthy cf); reflexivity.
Qed.

Lemma no_verdict_titles (lines : list str) :
  Forall (fun l => Spec.is_verdict_title l = false) lines ->
  existsb Spec.is_verdict_title lines = false.
Proof.
  induction 1 as [|l lines Hl _ IH]; cbn [existsb]; [reflexivity |].
  now rewrite Hl, IH.
Qed.

Lemma last_title_verdict_app (l1 l2 : list str) (init : str) :
  Spec.last_title_verdict (l1 ++ l2) init
  = Spec.last_title_verdict l2 (Spec.last_title_verdict l1 init).
Proof. unfold Spec.last_title_verdict. apply fold_left_app. Qed.




(** ** Removal of a delimited pattern

    The two empty-citation patterns have the shape: a literal [pre], at
    least [lo] characters other than [d], then [d] and a literal [post].
    A match ends at the first [d] after [pre]; an occurrence of the
    pattern anywhere in a text lies inside one of the matches that
    [re.sub] finds, so it is removed whole. *)

Section Delimited.
Import Re.

Variables (p0 : ascii) (pre' post : str) (d : ascii) (lo : nat).

Let pre : str := p0 :: pre'.
Let r : regex := Seq (Str false pre) (Seq (Rep true lo (no d)) (Str false (d :: post))).
Let occ (u : str) : str := pre ++ u ++ d :: post.

Hypothesis p0_once : ~ In p0 pre'.
Hypothesis p0_not_d : p0 <> d.
Hypothesis p0_not_post : ~ In p0 post.
Hypothesis d_not_pre : ~ In d pre.

Lemma lit_rest_app (p s : str) : lit_rest false p (p ++ s) = Some s.
Proof.
  induction p as [|x p IH]; cbn [app lit_rest chr_eq]; [reflexivity |].
  now rewrite Ascii.eqb_refl.
Qed.

Lemma lit_rest_some (p s s' : str) :
  lit_rest false p s = Some s' -> s = p ++ s'.
Proof.
  revert s; induction p as [|x p IH]; intros s; cbn [lit_rest chr_eq].
  - intros [= ->]. reflexivity.
  - destruct s as [|y s]; [discriminate |].
    destruct (Ascii.eqb x y) eqn:E; [| discriminate].
    apply Ascii.eqb_eq in E. subst y. intros H. cbn [app]. f_equal. auto.
Qed.

Lemma first_d (s : str) :
  ~ In d s \/ exists u t, s = u ++ d :: t /\ ~ In d u.
Proof.
  induction s as [|c s IH]; [left; intros [] |].
  destruct (Ascii.eqb c d) eqn:E.
  - apply Ascii.eqb_eq in E. subst c. right. exists [], s. split; [reflexivity |].
    intros [].
  - apply Ascii.eqb_neq in E. destruct IH as [IH | (u & t & -> & Hu)].
    + left. intros [H | H]; [congruence | auto].
    + right. exists (c :: u), t. split; [reflexivity |].
      intros [H | H]; [congruence | auto].
Qed.

Lemma pivot_unique (x y s t : str) :
  ~ In d x -> ~ In d y -> x ++ d :: s = y ++ d :: t -> x = y /\ s = t.
Proof.
  revert y; induction x as [|a x IH]; intros [|b y] Hx Hy; cbn [app].
  - intros [= ->]. split; reflexivity.
  - intros [= <- _]. exfalso. apply Hy. left. reflexivity.
  - intros [= -> _]. exfalso. apply Hx. left. reflexivity.
  - intros [= -> H]. destruct (IH y) as [-> ->]; auto.
    + intros Hin. apply Hx. right. exact Hin.
    + intros Hin. apply Hy. right. exact Hin.
Qed.

Section Greedy.
Variable T : Type.
Variable k : str -> option T.
Hypothesis k_needs_d :
  forall s, match s with c :: _ => c <> d | [] => True end -> k s = None.

Lemma rep_greedy_no_d (u : str) :
  forall lo', ~ In d u -> rep_greedy (no d) lo' u k = None.
Proof.
  induction u as [|c u IH]; intros lo' Hu; cbn [rep_greedy].
  - destruct lo'; [apply k_needs_d; exact I | reflexivity].
  - assert (c <> d) as Hc by (intros ->; apply Hu; left; reflexivity).
    unfold no at 1. rewrite (proj2 (Ascii.eqb_neq c d) Hc). cbn [negb].
    rewrite IH by (intros H; apply Hu; right; exact H).
    destruct lo'; [apply k_needs_d; exact Hc | reflexivity].
Qed.

Lemma rep_greedy_to_d (u t : str) :
  forall lo',
    ~ In d u ->
    rep_greedy (no d) lo' (u ++ d :: t) k
    = if lo' <=? List.length u then k (d :: t) else None.
Proof.
  induction u as [|c u IH]; intros lo' Hu; cbn [app rep_greedy].
  - unfold no. rewrite Ascii.eqb_refl. cbn [negb].
    destruct lo'; reflexivity.
  - assert (c <> d) as Hc by (intros ->; apply Hu; left; reflexivity).
    unfold no at 1. rewrite (proj2 (Ascii.eqb_neq c d) Hc). cbn [negb].
    rewrite IH by (intros H; apply Hu; right; exact H).
    destruct lo' as [|lo']; cbn [pred List.length Nat.leb].
    + destruct (k (d :: t)) eqn:Ek; [reflexivity |].
      apply k_needs_d. exact Hc.
    + destruct (lo' <=? List.length u); [| reflexivity].
      destruct (k (d :: t)); reflexivity.
Qed.

End Greedy.

Lemma match_at_delimited (s : str) :
  match_at r s =
  match lit_rest false pre s with
  | Some s1 =>
      rep_greedy (no d) lo s1 (fun s2 =>
        match lit_rest false (d :: post) s2 with
        | Some s3 =>
            Some {| m_len := List.length s - List.length s3;
                    m_groups := [] |}
        | None => None
        end)
  | None => None
  end.
Proof. reflexivity. Qed.

Lemma tail_needs_d (A : Type) (f : str -> A) (s : str) :
  match s with c :: _ => c <> d | [] => True end ->
  match lit_rest false (d :: post) s with
  | Some s3 => Some (f s3)
  | None => @None A
  end = None.
Proof.
  destruct s as [|c s]; cbn [lit_rest chr_eq]; [reflexivity |].
  intros Hc. rewrite (proj2 (Ascii.eqb_neq d c)) by congruence. reflexivity.
Qed.

(** Where the pattern matches, and how far. *)
Lemma match_at_occ (u rest : str) :
  ~ In d u -> lo <= List.length u ->
  match_at r (occ u ++ rest)
  = Some {| m_len := List.length (occ u); m_groups := [] |}.
Proof.
  intros Hu Hlo. rewrite match_at_delimited. unfold occ.
  rewrite <- !app_assoc. rewrite lit_rest_app.
  cbn [app]. rewrite rep_greedy_to_d.
  - rewrite (proj2 (Nat.leb_le _ _) Hlo).
    change (d :: post ++ rest) with ((d :: post) ++ rest).
    rewrite lit_rest_app. do 2 f_equal.
    repeat rewrite length_app. lia.
  - intros s. apply tail_needs_d.
  - exact Hu.
Qed.

Lemma match_at_shape (s : str) (m : match_obj) :
  match_at r s = Some m ->
  exists u rest,
    s = occ u ++ rest /\ ~ In d u /\ lo <= List.length u
    /\ m_len m = List.length (occ u).
Proof.
  rewrite match_at_delimited.
  destruct (lit_rest false pre s) as [s1|] eqn:E1; [| discriminate].
  apply lit_rest_some in E1. subst s.
  destruct (first_d s1) as [Hno | (u & t & -> & Hu)].
  - rewrite rep_greedy_no_d; [discriminate | | exact Hno].
    intros s. apply tail_needs_d.
  - rewrite rep_greedy_to_d; [| intros s; apply tail_needs_d | exact Hu].
    destruct (lo <=? List.length u) eqn:El; [| discriminate].
    apply Nat.leb_le in El.
    destruct (lit_rest false (d :: post) (d :: t)) as [s3|] eqn:E3;
      [| discriminate].
    apply lit_rest_some in E3. cbn [app] in E3. injection E3 as ->.
    intros [= <-].
    exists u, s3. unfold occ.
    split; [now rewrite <- !app_assoc |].
    split; [exact Hu |]. split; [exact El |].
    unfold m_len.
    change (d :: post ++ s3) with ((d :: post) ++ s3).
    repeat rewrite length_app. unfold pre. cbn [List.length].
    destruct (List.length s3); lia.
Qed.

(** A match that starts before an occurrence ends before it or with it. *)
Lemma match_contains (a u rest u' rest' : str) :
  a <> [] -> ~ In d u -> ~ In d u' ->
  a ++ occ u ++ rest = occ u' ++ rest' ->
  List.length (occ u') <= List.length a
  \/ List.length (occ u') = List.length a + List.length (occ u).
Proof.
  intros Ha Hu Hu' Heq.
  apply app_eq_app in Heq. destruct Heq as (z & [[-> Hz] | [Hm Hz]]).
  { left. rewrite length_app. lia. }
  destruct z as [|z0 z]; [left; rewrite Hm, app_nil_r; lia |].
  assert (z0 = p0) as -> by (unfold occ, pre in Hz; cbn [app] in Hz; congruence).
  right. rewrite Hm, length_app. f_equal.
  (* [p0 :: z] starts after [pre], since [p0] occurs once in [pre] *)
  assert (exists w, u' ++ d :: post = w ++ p0 :: z) as [w Hw].
  { unfold occ in Hm. apply app_eq_app in Hm.
    destruct Hm as (w & [[Hpre Hw] | [_ Hw]]); [| eauto].
    destruct a as [|a0 a]; [congruence |].
    unfold pre in Hpre. cbn [app] in Hpre. injection Hpre as _ Hpre.
    destruct w as [|w0 w]; [exists []; symmetry; exact Hw |].
    exfalso. cbn [app] in Hw. injection Hw as <- _. apply p0_once.
    rewrite Hpre. apply in_or_app. right. left. reflexivity. }
  apply app_eq_app in Hw. destruct Hw as (y & [[-> Hy] | [-> Hy]]).
  - (* [p0] inside [u'] *)
    destruct y as [|y0 y].
    + exfalso. cbn [app] in Hy. apply p0_not_d. congruence.
    + cbn [app] in Hy. injection Hy as <- ->.
      unfold occ in Hz. repeat rewrite <- app_assoc in Hz.
      cbn [app] in Hz. repeat rewrite <- app_assoc in Hz. cbn [app] in Hz.
      rewrite (app_assoc pre u) in Hz.
      apply (pivot_unique (pre ++ u) (p0 :: y)) in Hz.
      * destruct Hz as [Hz _]. unfold occ.
        change (p0 :: y ++ d :: post) with ((p0 :: y) ++ d :: post).
        rewrite <- Hz. now rewrite <- app_assoc.
      * intros Hin. apply in_app_or in Hin. destruct Hin; auto.
      * intros Hin. apply Hu'. apply in_or_app. right. exact Hin.
  - (* [p0] at or after [d] *)
    exfalso. destruct y as [|y0 y].
    + cbn [app] in Hy. apply p0_not_d. congruence.
    + cbn [app] in Hy. injection Hy as _ Hy. apply p0_not_post.
      rewrite Hy. apply in_or_app. right. left. reflexivity.
Qed.

Lemma subseq_nil (y : str) : Spec.subseq [] y = true.
Proof. destruct y; reflexivity. Qed.

Lemma subseq_tl (y : str) :
  forall (a : ascii) (x : str),
    Spec.subseq (a :: x) y = true -> Spec.subseq x y = true.
Proof.
  induction y as [|b y IH]; intros a x; cbn [Spec.subseq]; [discriminate |].
  destruct x as [|a2 x2]; [reflexivity |].
  destruct (Ascii.eqb a b); intros H.
  - destruct (Ascii.eqb a2 b); [eapply IH |]; exact H.
  - apply IH in H. destruct (Ascii.eqb a2 b); [eapply IH |]; exact H.
Qed.

Lemma subseq_skip (x y : str) (b : ascii) :
  Spec.subseq x y = true -> Spec.subseq x (b :: y) = true.
Proof.
  intros H. cbn [Spec.subseq]. destruct x as [|a x]; [reflexivity |].
  destruct (Ascii.eqb a b); [eapply subseq_tl |]; exact H.
Qed.

Lemma subseq_keep (x y : str) (c : ascii) :
  Spec.subseq x y = true -> Spec.subseq (c :: x) (c :: y) = true.
Proof. intros H. cbn [Spec.subseq]. now rewrite Ascii.eqb_refl. Qed.

Lemma skip_through (w t : str) :
  sub_from r Pat.erase (w ++ t) (List.length w) = sub_from r Pat.erase t 0.
Proof.
  induction w as [|c w IH]; [reflexivity |].
  cbn [app List.length sub_from]. exact IH.
Qed.

Lemma sub_from_match (c : ascii) (s : str) (m : match_obj) (n : nat) :
  match_at r (c :: s) = Some m -> m_len m = S n ->
  sub_from r Pat.erase (c :: s) 0 = sub_from r Pat.erase s n.
Proof.
  intros Hm Hn. cbn [sub_from]. rewrite Hm, Hn. reflexivity.
Qed.

Lemma sub_from_nomatch (c : ascii) (s : str) :
  match_at r (c :: s) = None ->
  sub_from r Pat.erase (c :: s) 0 = c :: sub_from r Pat.erase s 0.
Proof. intros Hm. cbn [sub_from]. rewrite Hm. reflexivity. Qed.

Lemma occ_cons (u : str) :
  occ u = p0 :: (pre' ++ u ++ d :: post).
Proof. reflexivity. Qed.

Lemma sub_from_occ (u rest : str) :
  ~ In d u -> lo <= List.length u ->
  forall (a : str) (k : nat),
    k <= List.length a \/ k = List.length a + List.length (occ u) ->
    exists a',
      Spec.subseq a' a = true
      /\ sub_from r Pat.erase (a ++ occ u ++ rest) k
         = a' ++ sub_from r Pat.erase rest 0.
Proof.
  intros Hu Hlo. induction a as [|c a IH]; intros k Hk.
  - exists []. split; [reflexivity |]. cbn [app List.length] in *.
    destruct Hk as [Hk | ->].
    + assert (k = 0) as -> by lia.
      pose proof (match_at_occ u rest Hu Hlo) as Hm.
      rewrite occ_cons in Hm |- *. cbn [app] in Hm |- *.
      rewrite (sub_from_match _ _ _ (List.length (pre' ++ u ++ d :: post)) Hm)
        by reflexivity.
      apply skip_through.
    + apply skip_through.
  - destruct k as [|k].
    + destruct (match_at r ((c :: a) ++ occ u ++ rest)) as [m|] eqn:Em.
      * destruct (match_at_shape _ _ Em)
          as (u' & rest' & Heq & Hu' & Hlo' & Hlen).
        pose proof (match_contains (c :: a) u rest u' rest'
                      ltac:(discriminate) Hu Hu' Heq) as Hc.
        rewrite <- Hlen in Hc.
        assert (exists n, m_len m = S n) as [n Hn].
        { rewrite Hlen, occ_cons. cbn [List.length]. eauto. }
        cbn [app] in Em |- *. rewrite (sub_from_match _ _ _ n Em Hn).
        destruct (IH n) as (a' & Ha' & ->).
        { cbn [List.length] in Hc. lia. }
        exists a'. split; [apply subseq_skip; exact Ha' | reflexivity].
      * cbn [app] in Em |- *. rewrite (sub_from_nomatch _ _ Em).
        destruct (IH 0) as (a' & Ha' & ->); [left; lia |].
        exists (c :: a'). split; [apply subseq_keep; exact Ha' | reflexivity].
    + cbn [app sub_from].
      destruct (IH k) as (a' & Ha' & ->).
      { cbn [List.length] in Hk. lia. }
      exists a'. split; [apply subseq_skip; exact Ha' | reflexivity].
Qed.

(** An occurrence of the pattern is removed whole: what [re.sub] returns
    is made of characters of the text before it, followed by what it
    returns for the text after it. *)
Lemma sub_removes_occurrence (a u rest : str) :
  ~ In d u -> lo <= List.length u ->
  exists a',
    Spec.subseq a' a = true
    /\ sub r Pat.erase (a ++ occ u ++ rest) = a' ++ sub r Pat.erase rest.
Proof.
  intros Hu Hlo. unfold sub.
  apply (sub_from_occ u rest Hu Hlo a 0). left. lia.
Qed.

End Delimited.

(** ** Empty citations *)

Lemma empty_label_removed (a url rest : str) :
  ~ In ")"%char url ->
  exists a',
    Spec.subseq a' a = true
    /\ Re.sub Pat.empty_label Pat.erase (a ++ ("[](" +++ url +++ ")") ++ rest)
       = a' ++ Re.sub Pat.empty_label Pat.erase rest.
Proof.
  intros Hu.
  apply (sub_removes_occurrence "["%char "](" [] ")"%char 0).
  - intros [H | [H | []]]; discriminate.
  - discriminate.
  - intros [].
  - intros [H | [H | [H | []]]]; discriminate.
  - exact Hu.
  - lia.
Qed.

Lemma empty_target_removed (a label rest : str) :
  label <> [] -> ~ In "]"%char label ->
  exists a',
    Spec.subseq a' a = true
    /\ Re.sub Pat.empty_target Pat.erase
         (a ++ ("[" +++ label +++ "]()") ++ rest)
       = a' ++ Re.sub Pat.empty_target Pat.erase rest.
Proof.
  intros Hne Hl.
  apply (sub_removes_occurrence "["%char [] "()" "]"%char 1).
  - intros [].
  - discriminate.
  - intros [H | [H | []]]; discriminate.
  - intros [H | []]; discriminate.
  - exact Hl.
  - destruct label; [congruence | cbn [List.length]; lia].
Qed.

(** C7, as the code has it.  The renderer removes the empty-label links
    of its input, then the empty-target links of the text so obtained,
    and only then converts links to anchors.  Each removal takes every
    occurrence whole: of a text with an empty-label link [[](url)] in it
    (the url up to the first closing parenthesis) the first removal leaves
    characters of the text before the link, followed by its result for
    the text after the link; likewise the second removal for a link
    [[label]()] with a non-empty label without closing bracket.  The input
    of the specification's example renders with one anchor, labelled
    "this", and no bracket is left. *)
Theorem empty_citations_stripped :
  (forall a url rest : str,
      ~ In ")"%char url ->
      exists a',
        Spec.subseq a' a = true
        /\ Re.sub Pat.empty_label Pat.erase
             (a ++ ("[](" +++ url +++ ")") ++ rest)
           = a' ++ Re.sub Pat.empty_label Pat.erase rest)
  /\ (forall a label rest : str,
        label <> [] -> ~ In "]"%char label ->
        exists a',
          Spec.subseq a' a = true
          /\ Re.sub Pat.empty_target Pat.erase
               (a ++ ("[" +++ label +++ "]()") ++ rest)
             = a' ++ Re.sub Pat.empty_target Pat.erase rest)
  /\ (forall (text : str) (preserve_breaks : bool),
        markdown_to_html text preserve_breaks
        = Spec.render_cleaned (Spec.cleaned text) preserve_breaks)
  /\ markdown_to_html "See [this](https://x.com) and []( ) and [nothing]()."
       false
     = Ok (h "<p>See <a href='https://x.com' target='_blank' class='citation'>this</a> and  and .</p>")
  /\ Spec.count "<a "
       (h "<p>See <a href='https://x.com' target='_blank' class='citation'>this</a> and  and .</p>")
     = 1
  /\ contains "["
       (h "<p>See <a href='https://x.com' target='_blank' class='citation'>this</a> and  and .</p>")
     = false.
Proof.
  split; [exact empty_label_removed |].
  split; [exact empty_target_removed |].
  split; [reflexivity |].
  repeat split; vm_compute; reflexivity.
Qed.

(** C7 as stated fails: in the text "[](x[a)b]()" the link "[a)b]()" has
    an empty target, but the removal of the empty-label link "[](x[a)"
    that overlaps it comes first and takes only its first three
    characters; "b]()" is left and is rendered. *)
Lemma overlapping_empty_links :
  ~ Spec.every_empty_target_removed
  /\ Spec.cleaned "[](x[a)b]()" = "b]()"
  /\ markdown_to_html "[](x[a)b]()" false = Ok (lit "<p>b]()</p>").
Proof.
  split; [| split; vm_compute; reflexivity].
  intros H.
  destruct (H "[](x" "a)b" []) as (a' & rest' & Ha & Hr & Heq).
  - discriminate.
  - intros [E | [E | [E | []]]]; discriminate.
  - destruct rest' as [|c rest']; [| discriminate Hr].
    rewrite (app_nil_r a') in Heq. vm_compute in Heq. subst a'.
    vm_compute in Ha. discriminate Ha.
Qed.

(** ** Separators of several characters: the first occurrence *)

Lemma startswith_self (p t : str) : startswith p (p ++ t) = true.
Proof.
  induction p as [|x p IH]; cbn [app startswith]; [reflexivity |].
  now rewrite Ascii.eqb_refl, IH.
Qed.

Lemma startswith_short (p s t : str) :
  startswith p (s ++ t) = true -> List.length p <= List.length s ->
  startswith p s = true.
Proof.
  revert s; induction p as [|x p IH]; intros s; [reflexivity |].
  destruct s as [|y s]; cbn [app List.length]; [lia |].
  cbn [startswith]. rewrite !andb_true_iff. intros [H1 H2] Hlen.
  split; [exact H1 | apply IH; [exact H2 | lia]].
Qed.

Lemma contains_here (p a t : str) : contains p (a ++ p ++ t) = true.
Proof.
  induction a as [|x a IH]; cbn [app].
  - destruct (p ++ t) eqn:E; cbn [contains]; rewrite <- E.
    + now rewrite startswith_self.
    + now rewrite startswith_self.
  - cbn [contains]. rewrite IH. apply orb_true_r.
Qed.

Lemma contains_cons_false (p : str) (x : ascii) (s : str) :
  contains p (x :: s) = false ->
  startswith p (x :: s) = false /\ contains p s = false.
Proof. cbn [contains]. apply orb_false_iff. Qed.

(** No occurrence of [sep] starts inside [a] when [a] is followed by
    [sep]: none lies in [a] followed by all but the last character of
    [sep]. *)
Lemma startswith_before (sep a t : str) (x : ascii) :
  sep <> [] ->
  startswith sep ((x :: a) ++ removelast sep) = false ->
  startswith sep ((x :: a) ++ sep ++ t) = false.
Proof.
  intros Hsep H.
  destruct (startswith sep ((x :: a) ++ sep ++ t)) eqn:E; [| reflexivity].
  rewrite (app_removelast_last x Hsep) in E at 2.
  rewrite <- app_assoc in E. rewrite app_assoc in E.
  apply startswith_short in E; [congruence |].
  rewrite length_app. cbn [List.length].
  rewrite (app_removelast_last x Hsep) at 1.
  rewrite length_app. cbn [List.length]. lia.
Qed.

Lemma split_from_skip (sep w t : str) :
  Py.split_from sep (w ++ t) (List.length w) = Py.split_from sep t 0.
Proof.
  induction w as [|c w IH]; [reflexivity |].
  cbn [app List.length Py.split_from]. exact IH.
Qed.

Lemma split_from_nonempty (sep s : str) (k : nat) :
  Py.split_from sep s k <> [].
Proof.
  revert k; induction s as [|c s IH]; intros k; cbn [Py.split_from];
    [discriminate |].
  destruct k; [| apply IH].
  destruct (startswith sep (c :: s)); [discriminate |].
  destruct (Py.split_from sep s 0); discriminate.
Qed.

(** Splitting at the first occurrence. *)
Lemma split_first (sep a t : str) :
  sep <> [] ->
  contains sep (a ++ removelast sep) = false ->
  Py.split sep (a ++ sep ++ t) = a :: Py.split sep t.
Proof.
  intros Hsep. unfold Py.split.
  induction a as [|x a IH]; intros Hno.
  - cbn [app]. destruct sep as [|c sep]; [congruence |].
    cbn [app Py.split_from].
    change (c :: sep ++ t) with ((c :: sep) ++ t).
    rewrite startswith_self.
    replace (List.length (c :: sep) - 1) with (List.length sep)
      by (cbn [List.length]; lia).
    now rewrite split_from_skip.
  - change ((x :: a) ++ removelast sep) with (x :: (a ++ removelast sep))
      in Hno.
    apply contains_cons_false in Hno. destruct Hno as [Hs Hc].
    change (x :: (a ++ removelast sep)) with ((x :: a) ++ removelast sep)
      in Hs.
    apply (startswith_before sep a t x Hsep) in Hs.
    cbn [app Py.split_from]. cbn [app] in Hs. rewrite Hs.
    now rewrite (IH Hc).
Qed.

(** Without an occurrence there is one piece. *)
Lemma split_none (sep s : str) :
  contains sep s = false -> Py.split sep s = [s].
Proof.
  unfold Py.split. induction s as [|x s IH]; intros Hno; [reflexivity |].
  apply contains_cons_false in Hno. destruct Hno as [Hs Hc].
  cbn [Py.split_from]. rewrite Hs. now rewrite (IH Hc).
Qed.

Lemma contains_prefix_false (p a t : str) :
  contains p (a ++ t) = false -> contains p a = false.
Proof.
  induction a as [|x a IH]; cbn [app].
  - intros H. destruct p as [|c p]; [| reflexivity].
    destruct t; discriminate.
  - intros H. apply contains_cons_false in H. destruct H as [Hs Hc].
    cbn [contains]. rewrite (IH Hc), orb_false_r.
    destruct (startswith p (x :: a)) eqn:E; [| reflexivity].
    assert (startswith p ((x :: a) ++ t) = true) as E'.
    { clear -E. revert E. generalize (x :: a). intros s. revert s.
      induction p as [|c p IHp]; intros s; [reflexivity |].
      destruct s as [|y s]; [discriminate |]. cbn [app startswith].
      rewrite !andb_true_iff. intros [H1 H2]. auto. }
    cbn [app] in E'. congruence.
Qed.

(** A text that contains the separator splits into two pieces at least. *)
Lemma split_two (sep s : str) :
  sep <> [] -> contains sep s = true ->
  2 <= List.length (Py.split sep s).
Proof.
  intros Hsep. unfold Py.split.
  induction s as [|x s IH]; intros Hc.
  - destruct sep; [congruence | discriminate].
  - cbn [Py.split_from]. destruct (startswith sep (x :: s)) eqn:E.
    + cbn [List.length].
      pose proof (split_from_nonempty sep s (List.length sep - 1)) as Hne.
      destruct (Py.split_from sep s (List.length sep - 1));
        [congruence | cbn [List.length]; lia].
    + cbn [contains] in Hc. rewrite E in Hc. cbn [orb] in Hc.
      specialize (IH Hc).
      destruct (Py.split_from sep s 0); cbn [List.length] in *; lia.
Qed.

(** ** The reply of the model: code fences and markers *)

Lemma index_second {A} (l : list A) :
  2 <= List.length l -> exists a, index l 1 = Ok a.
Proof.
  destruct l as [|x [|y l]]; cbn [List.length]; try lia.
  intros _. exists y. reflexivity.
Qed.

Lemma fence_nonempty : Driver.fence <> [].
Proof. discriminate. Qed.

(** X1.  [extract_company_info] never fails on the code fence: whenever
    the reply contains a fence, the piece after the first fence exists,
    so a text is always handed to the JSON parser; without a fence it is
    the trimmed reply. *)
Theorem json_text_total (text : str) :
  exists t,
    Driver.json_text text = Ok t
    /\ (contains Driver.fence text = false -> t = strip text).
Proof.
  unfold Driver.json_text.
  destruct (contains Driver.fence text) eqn:E.
  - destruct (index_second (Py.split Driver.fence text)) as [a Ha].
    { apply split_two; [exact fence_nonempty | exact E]. }
    rewrite Ha. cbn [bind]. eexists. split; [reflexivity | discriminate].
  - cbn [bind]. eexists. split; reflexivity.
Qed.

(** X2.  A fenced block is recovered: when the first fence of the reply
    is followed by [body] and [body] runs to the next fence or to the end
    of the reply, the text handed to the JSON parser is [body] without a
    leading [json] tag, trimmed; what stands before the first fence and
    after the second one is dropped. *)
Theorem json_text_fenced (pre body post : str) :
  contains Driver.fence (pre ++ removelast Driver.fence) = false ->
  contains Driver.fence (body ++ removelast Driver.fence) = false ->
  let payload := if startswith "json" body then skipn 4 body else body in
  Driver.json_text (pre ++ Driver.fence ++ body ++ Driver.fence ++ post)
    = Ok (strip payload)
  /\ Driver.json_text (pre ++ Driver.fence ++ body) = Ok (strip payload).
Proof.
  intros Hpre Hbody payload. unfold Driver.json_text. split.
  - rewrite contains_here.
    rewrite (split_first _ pre _ fence_nonempty Hpre).
    rewrite (split_first _ body _ fence_nonempty Hbody).
    reflexivity.
  - apply contains_prefix_false in Hbody.
    replace (pre ++ Driver.fence ++ body)
      with (pre ++ Driver.fence ++ body ++ []) by now rewrite app_nil_r.
    rewrite contains_here.
    rewrite (split_first _ pre _ fence_nonempty Hpre).
    rewrite app_nil_r, (split_none _ _ Hbody).
    reflexivity.
Qed.

Lemma json_text_fenced_witness :
  Driver.json_text
    (("Here it is: " +++ Driver.fence +++ "json" +++ [nl] +++ "{}" +++ [nl])
     ++ Driver.fence ++ lit " Done.")
  = Ok (lit "{}").
Proof.
  pose proof (json_text_fenced "Here it is: " ("json" +++ [nl] +++ "{}" +++ [nl])
                " Done." eq_refl eq_refl) as [H _].
  rewrite <- app_assoc. exact H.
Defined.

Lemma index_first {A} (l : list A) :
  l <> [] -> exists a, index l 0 = Ok a.
Proof. destruct l as [|x l]; [congruence | intros _; exists x; reflexivity]. Qed.

Lemma deliberation_mark_nonempty : Driver.deliberation_mark <> [].
Proof. discriminate. Qed.

Lemma memo_mark_nonempty : Driver.memo_mark <> [].
Proof. discriminate. Qed.

(** X3.  The split of the synthesis reply never fails: each piece that
    [analyze_company] indexes exists under the test that guards it.  When
    one of the two markers is missing, the whole reply is the memo and the
    deliberation is empty. *)
Theorem split_response_total (full_response : str) :
  exists memo deliberation,
    Driver.split_response full_response = Ok (memo, deliberation)
    /\ (contains Driver.deliberation_mark full_response
        && contains Driver.memo_mark full_response = false ->
        memo = full_response /\ deliberation = []).
Proof.
  unfold Driver.split_response.
  destruct (contains Driver.deliberation_mark full_response
            && contains Driver.memo_mark full_response) eqn:E.
  - apply andb_true_iff in E. destruct E as [_ Em].
    pose proof (split_two _ _ memo_mark_nonempty Em) as Hlen.
    destruct (index_first (Py.split Driver.memo_mark full_response))
      as [p0 Hp0].
    { intros H. rewrite H in Hlen. cbn in Hlen. lia. }
    destruct (index_second _ Hlen) as [p1 Hp1].
    rewrite Hp0, Hp1. cbn [bind].
    apply Nat.ltb_lt in Hlen. rewrite Hlen. cbn [bind].
    destruct (contains Driver.deliberation_mark p0) eqn:Ed.
    + destruct (index_second (Py.split Driver.deliberation_mark p0))
        as [d Hd].
      { apply split_two; [exact deliberation_mark_nonempty | exact Ed]. }
      rewrite Hd. cbn [bind]. do 2 eexists.
      split; [reflexivity | discriminate].
    + cbn [bind]. do 2 eexists. split; [reflexivity | discriminate].
  - do 2 eexists. split; [reflexivity | intros _; split; reflexivity].
Qed.

(** X4.  A reply in the requested shape is taken apart as written: when
    the first deliberation marker is followed by [delib], the first memo
    marker after it by [memo], and neither text holds its marker again,
    the result is the trimmed memo and the trimmed deliberation; what
    stands before the deliberation marker is dropped.  The same holds
    when a second memo marker follows [memo]: the memo ends there. *)
Theorem split_response_marked (pre delib memo rest : str) :
  contains Driver.deliberation_mark
           (pre ++ removelast Driver.deliberation_mark) = false ->
  contains Driver.deliberation_mark delib = false ->
  contains Driver.memo_mark
           (pre ++ Driver.deliberation_mark ++ delib
                ++ removelast Driver.memo_mark) = false ->
  contains Driver.memo_mark (memo ++ removelast Driver.memo_mark) = false ->
  Driver.split_response
    (pre ++ Driver.deliberation_mark ++ delib ++ Driver.memo_mark ++ memo)
    = Ok (strip memo, strip delib)
  /\ Driver.split_response
       (pre ++ Driver.deliberation_mark ++ delib ++ Driver.memo_mark ++ memo
            ++ Driver.memo_mark ++ rest)
     = Ok (strip memo, strip delib).
Proof.
  intros Hpre Hdelib Hfirst Hmemo.
  assert (forall tail,
    Py.split Driver.memo_mark tail = memo :: tl (Py.split Driver.memo_mark tail) ->
    Driver.split_response
      (pre ++ Driver.deliberation_mark ++ delib ++ Driver.memo_mark ++ tail)
    = Ok (strip memo, strip delib)) as Hgen.
  { intros tail Htail. unfold Driver.split_response.
    rewrite contains_here.
    replace (pre ++ Driver.deliberation_mark ++ delib
                 ++ Driver.memo_mark ++ tail)
      with ((pre ++ Driver.deliberation_mark ++ delib)
              ++ Driver.memo_mark ++ tail)
      by now rewrite <- !app_assoc.
    rewrite contains_here. cbn [andb].
    rewrite split_first;
      [| exact memo_mark_nonempty | now rewrite <- !app_assoc].
    rewrite Htail.
    cbn [index nth_error bind List.length Nat.ltb Nat.leb].
    replace (pre ++ Driver.deliberation_mark ++ delib)
      with (pre ++ Driver.deliberation_mark ++ delib ++ [])
      by now rewrite app_nil_r.
    rewrite contains_here.
    rewrite (split_first _ pre _ deliberation_mark_nonempty Hpre).
    rewrite app_nil_r, (split_none _ _ Hdelib).
    reflexivity. }
  split.
  - apply Hgen. apply contains_prefix_false in Hmemo.
    now rewrite (split_none _ _ Hmemo).
  - apply Hgen.
    now rewrite (split_first _ memo _ memo_mark_nonempty Hmemo).
Qed.

Lemma split_response_marked_witness :
  Driver.split_response
    ("Notes. " +++ Driver.deliberation_mark +++ " We argued. "
       +++ Driver.memo_mark +++ " # Acme ")
  = Ok (lit "# Acme", lit "We argued.").
Proof.
  exact (proj1 (split_response_marked "Notes. " " We argued. " " # Acme " []
                  eq_refl eq_refl eq_refl eq_refl)).
Defined.

(** ** The name of the output file *)

(** Replacing one character by another is a map over the text. *)
Lemma replace_chr (c d : ascii) (s : str) :
  replace [c] [d] s = map (fun x => if Ascii.eqb c x then d else x) s.
Proof.
  unfold replace.
  induction s as [|x s IH]; [reflexivity |].
  cbn [replace_from startswith List.length Nat.sub map app].
  rewrite andb_true_r.
  destruct (Ascii.eqb c x); cbn [app]; now rewrite IH.
Qed.

Lemma safe_company_name_map (name : str) :
  Driver.safe_company_name name =
  map (fun x => if Ascii.eqb "/" x then "-"%char
                else if Ascii.eqb " " x then "_"%char else x) name.
Proof.
  unfold Driver.safe_company_name.
  change (lit "/") with ["/"%char]. change (lit "-") with ["-"%char].
  change (lit " ") with [" "%char]. change (lit "_") with ["_"%char].
  rewrite !replace_chr, map_map.
  apply map_ext. intros x.
  destruct (Ascii.eqb " " x) eqn:E; [| reflexivity].
  apply Ascii.eqb_eq in E. subst x. reflexivity.
Qed.

(** X5.  The name of the memo file has no path separator and no space
    that comes from the company name: whatever the name, a date without
    a slash gives a file name without a slash, and the name part has the
    length of the company name. *)
Theorem memo_file_name_flat (company_name date_str : str) :
  ~ In "/"%char date_str ->
  ~ In "/"%char
      (Driver.memo_file_name (Driver.safe_company_name company_name) date_str)
  /\ ~ In " "%char (Driver.safe_company_name company_name)
  /\ List.length (Driver.safe_company_name company_name)
     = List.length company_name.
Proof.
  intros Hdate.
  assert (forall c, c = "/"%char \/ c = " "%char ->
                    ~ In c (Driver.safe_company_name company_name)) as Hno.
  { intros c Hc. rewrite safe_company_name_map. intros Hin.
    apply in_map_iff in Hin. destruct Hin as (x & Hx & _).
    destruct (Ascii.eqb "/" x) eqn:E1.
    - subst c. destruct Hc as [Hc | Hc]; discriminate.
    - destruct (Ascii.eqb " " x) eqn:E2.
      + subst c. destruct Hc as [Hc | Hc]; discriminate.
      + subst c. destruct Hc as [Hc | Hc]; subst x; discriminate. }
  split; [| split].
  - unfold Driver.memo_file_name. intros Hin.
    apply in_app_or in Hin. destruct Hin as [Hin | Hin].
    { cbn in Hin. intuition discriminate. }
    apply in_app_or in Hin. destruct Hin as [Hin | Hin].
    { apply (Hno "/"%char); [left; reflexivity | exact Hin]. }
    apply in_app_or in Hin. destruct Hin as [Hin | Hin].
    { cbn in Hin. intuition discriminate. }
    apply in_app_or in Hin. destruct Hin as [Hin | Hin].
    { exact (Hdate Hin). }
    cbn in Hin. intuition discriminate.
  - apply Hno. right. reflexivity.
  - rewrite safe_company_name_map. apply length_map.
Qed.

Lemma memo_file_name_flat_witness :
  ~ In "/"%char
      (Driver.memo_file_name (Driver.safe_company_name "Acme / Foods UK")
                             "2026-01-02").
Proof.
  apply (memo_file_name_flat "Acme / Foods UK" "2026-01-02").
  cbn. intuition discriminate.
Defined.

(** ** The text of the deck *)

(** What one page adds to [text_parts]. *)
Lemma page_step_app (acc : list str) (p : nat * option str) :
  Driver.page_step acc p = acc ++ Driver.page_step [] p.
Proof.
  destruct p as [i [t|]]; cbn [Driver.page_step].
  - destruct (truthy t); [reflexivity | now rewrite app_nil_r].
  - now rewrite app_nil_r.
Qed.

Lemma page_fold (l : list (nat * option str)) (acc : list str) :
  fold_left Driver.page_step l acc
  = acc ++ flat_map (Driver.page_step []) l.
Proof.
  revert acc; induction l as [|p l IH]; intros acc; cbn [fold_left flat_map].
  - now rewrite app_nil_r.
  - rewrite IH, (page_step_app acc p). now rewrite <- app_assoc.
Qed.

Lemma strip_head (c : ascii) (s : str) :
  is_space c = false -> truthy (strip (c :: s)) = true.
Proof.
  intros Hc. unfold strip. cbn [lstrip]. rewrite Hc. cbn [rstrip].
  destruct (rstrip s); [rewrite Hc |]; reflexivity.
Qed.

Lemma join_head (sep : str) (c : ascii) (x : str) (l : list str) :
  exists t, join sep (@cons str (c :: x) l) = c :: t.
Proof. destruct l; cbn [join app]; eauto. Qed.

Lemma page_parts_head (l : list (nat * option str)) :
  flat_map (Driver.page_step []) l = []
  \/ exists x rest,
       flat_map (Driver.page_step []) l = ("["%char :: x) :: rest.
Proof.
  induction l as [|[i [t|]] l IH]; cbn [flat_map Driver.page_step];
    [left; reflexivity | | exact IH].
  destruct (truthy t); [| exact IH].
  right. cbn [app lit list_ascii_of_string]. eauto.
Qed.

Lemma page_parts_none (pages : list (option str)) (start : nat) :
  truthy (join nlnl (flat_map (Driver.page_step [])
                              (Driver.enumerate pages start)))
  = existsb (fun p => match p with Some t => truthy t | None => false end)
            pages.
Proof.
  unfold Driver.enumerate.
  revert start; induction pages as [|p pages IH]; intros start;
    [reflexivity |].
  cbn [List.length seq combine flat_map existsb].
  destruct p as [t|]; cbn [Driver.page_step]; [| apply IH].
  destruct (truthy t); cbn [app orb]; [| apply IH].
  cbn [lit list_ascii_of_string app].
  match goal with
  | |- truthy (join ?sep ((?c :: ?x) :: ?l)) = _ =>
      destruct (join_head sep c x l) as [u Hu]
  end.
  etransitivity; [apply f_equal; exact Hu | reflexivity].
Qed.

(** X6.  The text of a deck is blank exactly when no page gave any text:
    the test after which the drivers stop with "could not extract text"
    succeeds if and only if every page returned nothing or the empty
    string.  A page of white space alone is enough to pass the test,
    since its label is not blank. *)
Theorem extract_pdf_text_blank (pages : list (option str)) :
  Driver.no_text (Driver.extract_pdf_text pages)
  = forallb (fun p => match p with Some t => negb (truthy t) | None => true end)
            pages.
Proof.
  unfold Driver.no_text, Driver.extract_pdf_text.
  rewrite page_fold. cbn [app].
  assert (truthy (strip (join nlnl (flat_map (Driver.page_step [])
                                      (Driver.enumerate pages 1))))
          = truthy (join nlnl (flat_map (Driver.page_step [])
                                 (Driver.enumerate pages 1)))) as ->.
  { destruct (page_parts_head (Driver.enumerate pages 1))
      as [-> | (x & rest & ->)]; [reflexivity |].
    destruct (join_head nlnl "[" x rest) as [u Hu].
    assert (join nlnl (("["%char :: x) :: rest) = "["%char :: u) as ->
      by exact Hu.
    now rewrite strip_head. }
  rewrite page_parts_none.
  induction pages as [|[t|] pages IH]; cbn [existsb forallb negb];
    [reflexivity | | exact IH].
  destruct (truthy t); cbn [orb andb negb]; [reflexivity | exact IH].
Qed.

Lemma contains_suffix (p a s : str) :
  contains p s = true -> contains p (a ++ s) = true.
Proof.
  intros H. induction a as [|x a IH]; [exact H |].
  cbn [app contains]. rewrite IH. apply orb_true_r.
Qed.

Lemma contains_join (sep x : str) (l : list str) :
  In x l -> contains x (join sep l) = true.
Proof.
  induction l as [|y l IH]; [intros [] |].
  intros [-> | Hin].
  - destruct l as [|z l].
    + cbn [join]. rewrite <- (app_nil_r x) at 2.
      exact (contains_here x [] []).
    + rewrite join_cons by discriminate. exact (contains_here x [] _).
  - destruct l as [|z l]; [destruct Hin |].
    rewrite join_cons by discriminate.
    rewrite app_assoc. apply contains_suffix. apply IH. exact Hin.
Qed.

Lemma page_label_in (pages : list (option str)) (start k : nat) (t : str) :
  nth_error pages k = Some (Some t) -> t <> [] ->
  In ("[Page " +++ Driver.decimal (start + k) +++ "]" +++ [nl] +++ t)
     (flat_map (Driver.page_step []) (Driver.enumerate pages start)).
Proof.
  unfold Driver.enumerate.
  revert start k; induction pages as [|p pages IH]; intros start k Hk Ht.
  - destruct k; discriminate.
  - cbn [List.length seq combine flat_map]. apply in_or_app.
    destruct k as [|k].
    + left. cbn [nth_error] in Hk. injection Hk as ->.
      cbn [Driver.page_step]. destruct t as [|c t]; [congruence |].
      cbn [truthy app]. rewrite Nat.add_0_r. left. reflexivity.
    + right. cbn [nth_error] in Hk.
      replace (start + S k) with (S start + k) by lia.
      apply IH; assumption.
Qed.

(** X7.  Pages are labelled by their position in the deck, not by their
    rank among the pages that gave text: the text of the page at index
    [k] (from 0) stands in the result under the label [[Page k+1]],
    whatever the pages before it returned. *)
Theorem extract_pdf_text_labels (pages : list (option str)) (k : nat)
    (t : str) :
  nth_error pages k = Some (Some t) -> t <> [] ->
  contains ("[Page " +++ Driver.decimal (S k) +++ "]" +++ [nl] +++ t)
           (Driver.extract_pdf_text pages) = true.
Proof.
  intros Hk Ht. unfold Driver.extract_pdf_text.
  rewrite page_fold. cbn [app].
  apply contains_join.
  exact (page_label_in pages 1 k t Hk Ht).
Qed.

Lemma extract_pdf_text_labels_witness :
  contains ("[Page 3]" +++ [nl] +++ "Team")
           (Driver.extract_pdf_text [Some (lit "Cover"); None; Some (lit "Team")])
  = true.
Proof.
  apply (extract_pdf_text_labels
           [Some (lit "Cover"); None; Some (lit "Team")] 2 "Team").
  - reflexivity.
  - discriminate.
Defined.

(** ** The matcher: what is left and what is captured

    A match consumes a prefix of the text: what the continuation gets is
    a suffix of it, and every captured group is a piece of the text. *)

Section Suffix.
Import Re.

Variable Q : ascii -> Prop.

Let caps_all := Markup.caps_all Q.

Lemma lit_rest_all (ci : bool) (p s s' : str) :
  lit_rest ci p s = Some s' -> Forall Q s -> Forall Q s'.
Proof.
  revert s; induction p as [|x p IH]; intros s; cbn [lit_rest].
  - intros [= ->]. auto.
  - destruct s as [|y s]; [discriminate |].
    destruct (chr_eq ci x y); [| discriminate].
    intros H Hs. inversion Hs; subst. eauto.
Qed.

Lemma rep_greedy_all {T} p lo s (k : str -> option T) res :
  rep_greedy p lo s k = Some res -> Forall Q s ->
  exists s', k s' = Some res /\ Forall Q s'.
Proof.
  revert lo; induction s as [|c s IH]; intros lo; cbn [rep_greedy].
  - destruct lo; [eauto | discriminate].
  - intros H Hs. assert (Forall Q s) as Hs' by (inversion Hs; auto).
    destruct (p c).
    + destruct (rep_greedy p (pred lo) s k) eqn:E.
      * injection H as <-. eapply IH; eauto.
      * destruct lo; [eauto | discriminate].
    + destruct lo; [eauto | discriminate].
Qed.

Lemma rep_lazy_all {T} p lo s (k : str -> option T) res :
  rep_lazy p lo s k = Some res -> Forall Q s ->
  exists s', k s' = Some res /\ Forall Q s'.
Proof.
  revert lo; induction s as [|c s IH]; intros lo; cbn [rep_lazy].
  - destruct lo; [| discriminate].
    destruct (k []) eqn:E; [intros [= <-]; eauto | discriminate].
  - intros H Hs. assert (Forall Q s) as Hs' by (inversion Hs; auto).
    destruct lo.
    + destruct (k (c :: s)) eqn:E; [injection H as <-; eauto |].
      destruct (p c); [eapply IH; eauto | discriminate].
    + destruct (p c); [eapply IH; eauto | discriminate].
Qed.

Lemma run_all :
  forall r T s g (k : str -> caps -> option T) res,
    run r s g k = Some res -> Forall Q s -> caps_all g ->
    exists s' g', k s' g' = Some res /\ Forall Q s' /\ caps_all g'.
Proof.
  induction r as [ci p | p | r1 IH1 r2 IH2 | r1 IH1 r2 IH2 | gr lo p
                  | i r IH]; intros T s g k res; cbn [run].
  - destruct (lit_rest ci p s) as [s1|] eqn:E; [| discriminate].
    intros H Hs Hg. exists s1, g.
    split; [exact H |]. split; [eapply lit_rest_all; eauto | exact Hg].
  - destruct s as [|c s]; [discriminate |].
    destruct (p c); [| discriminate].
    intros H Hs Hg. inversion Hs; subst. exists s, g. auto.
  - intros H Hs Hg.
    destruct (IH1 _ _ _ _ _ H Hs Hg) as (s1 & g1 & H1 & Hs1 & Hg1).
    eapply IH2; eauto.
  - destruct (run r1 s g k) eqn:E.
    + intros [= <-] Hs Hg. eapply IH1; eauto.
    + intros H Hs Hg. eapply IH2; eauto.
  - destruct gr; intros H Hs Hg.
    + apply rep_greedy_all in H; [| exact Hs].
      destruct H as (s' & H & Hs'). exists s', g. auto.
    + apply rep_lazy_all in H; [| exact Hs].
      destruct H as (s' & H & Hs'). exists s', g. auto.
  - intros H Hs Hg.
    destruct (IH _ _ _ _ _ H Hs Hg) as (s1 & g1 & H1 & Hs1 & Hg1).
    exists s1. eexists. split; [exact H1 |]. split; [exact Hs1 |].
    intros j v [[= <- <-] | Hin]; [| eauto].
    apply Forall_firstn. exact Hs.
Qed.

Lemma tgroup_all (r : regex) (s : str) (m : match_obj) (i : nat) :
  match_at r s = Some m -> Forall Q s -> Forall Q (tgroup m i).
Proof.
  unfold match_at. intros H Hs.
  destruct (run_all _ _ _ _ _ _ H Hs) as (s' & g' & [= <-] & _ & Hg).
  { intros j v []. }
  unfold tgroup. cbn [m_groups].
  destruct (lookup i g') as [v|] eqn:E; [| constructor].
  apply (Hg i). clear -E.
  induction g' as [|[j w] g' IH]; [discriminate |].
  cbn [lookup] in E. destruct (Nat.eqb i j) eqn:Eij.
  - injection E as ->. apply Nat.eqb_eq in Eij. subst j. left. reflexivity.
  - right. auto.
Qed.

End Suffix.

(** ** The markup of the analyst appendix *)

Section AppendixMarkup.
Import Markup.

Let tagged := Markup.tagged simple_tags.

Lemma tagged_app (a b : str) : tagged a -> tagged b -> tagged (a ++ b).
Proof.
  intros Ha Hb. induction Ha as [| c s Hc Hs IH | t s Ht Hs IH].
  - exact Hb.
  - cbn [app]. apply tagged_chr; assumption.
  - rewrite <- app_assoc. apply tagged_tag; assumption.
Qed.

Lemma tagged_plain (s : str) : plain s -> tagged s.
Proof.
  induction 1 as [| c s Hc Hs IH]; [apply tagged_nil |].
  apply tagged_chr; assumption.
Qed.

Lemma tagged_tag_only (t : str) : In t simple_tags -> tagged t.
Proof.
  intros Ht. rewrite <- (app_nil_r t).
  apply tagged_tag; [exact Ht | apply tagged_nil].
Qed.

Lemma tagged_concat (l : list str) :
  Forall tagged l -> tagged (concat_str l).
Proof.
  induction 1 as [| x l Hx Hl IH]; [apply tagged_nil |].
  unfold concat_str. rewrite concat_cons. apply tagged_app; assumption.
Qed.

Lemma tagged_join (l : list str) :
  Forall tagged l -> tagged (join [nl] l).
Proof.
  induction 1 as [| x l Hx Hl IH]; [apply tagged_nil |].
  destruct l as [|y l]; [exact Hx |].
  rewrite join_cons by discriminate.
  apply tagged_app; [exact Hx |].
  cbn [app]. apply tagged_chr; [reflexivity | exact IH].
Qed.

(** An element: an opening tag, a tagged content, a closing tag. *)
Lemma tagged_element (o c : string) (x : str) :
  In (lit o) simple_tags -> In (lit c) simple_tags -> tagged x ->
  tagged (o +++ x +++ c).
Proof.
  intros Ho Hc Hx. apply tagged_tag; [exact Ho |].
  apply tagged_app; [exact Hx | apply tagged_tag_only; exact Hc].
Qed.

(** A tagged text begins with a tag or with a character that is not an
    angle bracket; in the second case the rest is tagged. *)
Lemma tagged_tail (c : ascii) (s : str) :
  angle c = false -> tagged (c :: s) -> tagged s.
Proof.
  intros Hc H. remember (c :: s) as w eqn:Ew.
  revert c s Hc Ew. induction H as [| c' s' Hc' Hs' IH | t s' Ht Hs' IH];
    intros c s Hc Ew.
  - discriminate.
  - injection Ew as -> ->. exact Hs'.
  - destruct t as [|x t].
    + cbn [app] in Ew. eapply IH; eauto.
    + exfalso. cbn [app] in Ew. injection Ew as -> _.
      unfold simple_tags, strs in Ht. cbn [map In] in Ht.
      repeat (destruct Ht as [Ht | Ht];
              [injection Ht as <- _; discriminate |]).
      exact Ht.
Qed.

Lemma tagged_skipn (n : nat) (s : str) :
  plain (firstn n s) -> tagged s -> tagged (skipn n s).
Proof.
  revert s; induction n as [|n IH]; intros s Hp Hs; [exact Hs |].
  destruct s as [|c s]; [exact Hs |].
  cbn [firstn] in Hp. inversion Hp as [| ? ? Hc Hp']; subst.
  cbn [skipn]. apply IH; [exact Hp' |].
  eapply tagged_tail; eauto.
Qed.

(** Replacing one character by a text. *)
Lemma replace_chr_str (c : ascii) (new s : str) :
  replace [c] new s = flat_map (fun x => if Ascii.eqb c x then new else [x]) s.
Proof.
  unfold replace.
  induction s as [|x s IH]; [reflexivity |].
  cbn [replace_from startswith List.length Nat.sub flat_map].
  rewrite andb_true_r.
  destruct (Ascii.eqb c x); cbn [app]; now rewrite IH.
Qed.

Lemma replace_chr_in (c d : ascii) (new s : str) :
  In d (replace [c] new s) -> In d new \/ (In d s /\ d <> c).
Proof.
  rewrite replace_chr_str. intros H. apply in_flat_map in H.
  destruct H as (x & Hx & Hd).
  destruct (Ascii.eqb c x) eqn:E; [left; exact Hd |].
  right. destruct Hd as [<- | []]. apply Ascii.eqb_neq in E.
  split; [exact Hx | congruence].
Qed.

Lemma replace_chr_app (c : ascii) (new a b : str) :
  replace [c] new (a ++ b) = replace [c] new a ++ replace [c] new b.
Proof. rewrite !replace_chr_str. apply flat_map_app. Qed.

Lemma escape_app (a b : str) : escape (a ++ b) = escape a ++ escape b.
Proof.
  unfold escape.
  change (lit "&") with ["&"%char]. change (lit "<") with ["<"%char].
  change (lit ">") with [">"%char]. change (lit "'") with ["'"%char].
  now rewrite !replace_chr_app.
Qed.

Lemma angle_cases (c : ascii) :
  angle c = true -> c = "<"%char \/ c = ">"%char.
Proof.
  unfold angle. intros H. apply orb_true_iff in H.
  destruct H as [H | H]; apply Ascii.eqb_eq in H; auto.
Qed.

(** [html.escape] leaves no angle bracket. *)
Lemma escape_plain (s : str) : plain (escape s).
Proof.
  apply Forall_forall. intros d Hd.
  destruct (angle d) eqn:Ea; [exfalso | reflexivity].
  unfold escape in Hd.
  change (lit "&") with ["&"%char] in Hd.
  change (lit "<") with ["<"%char] in Hd.
  change (lit ">") with [">"%char] in Hd.
  change (lit "'") with ["'"%char] in Hd.
  apply replace_chr_in in Hd.
  destruct Hd as [Hd | [Hd _]];
    [apply angle_cases in Ea; cbn in Hd; intuition congruence |].
  apply replace_chr_in in Hd.
  destruct Hd as [Hd | [Hd _]];
    [apply angle_cases in Ea; cbn in Hd; intuition congruence |].
  apply replace_chr_in in Hd.
  destruct Hd as [Hd | [Hd Hgt]];
    [apply angle_cases in Ea; cbn in Hd; intuition congruence |].
  apply replace_chr_in in Hd.
  destruct Hd as [Hd | [Hd Hlt]];
    [apply angle_cases in Ea; cbn in Hd; intuition congruence |].
  apply angle_cases in Ea. destruct Ea; congruence.
Qed.

(** The bold conversion of a text without angle brackets writes them
    only in its two tags. *)
Lemma sub_bold_tagged (s : str) :
  forall skip, plain s -> tagged (Re.sub_from Pat.bold Pat.strong s skip).
Proof.
  induction s as [|c s IH]; intros skip Hs.
  - destruct skip; cbn [Re.sub_from]; [| apply tagged_nil].
    change (Re.match_at Pat.bold []) with (@None Re.match_obj).
    apply tagged_nil.
  - assert (plain s) as Hs' by (inversion Hs; assumption).
    assert (angle c = false) as Hc by (inversion Hs; assumption).
    destruct skip as [|k]; cbn [Re.sub_from]; [| apply IH; exact Hs'].
    destruct (Re.match_at Pat.bold (c :: s)) as [m|] eqn:E.
    + apply tagged_app.
      * unfold Pat.strong.
        apply tagged_element; [cbn; tauto | cbn; tauto |].
        apply tagged_plain. exact (tgroup_all _ _ _ _ 1 E Hs).
      * destruct (Re.m_len m);
          [apply tagged_chr; [exact Hc |] |]; apply IH; exact Hs'.
    + apply tagged_chr; [exact Hc | apply IH; exact Hs'].
Qed.

Lemma escaped_tagged (x : str) :
  tagged (Re.sub Pat.bold Pat.strong (escape x)).
Proof. apply sub_bold_tagged. apply escape_plain. Qed.

(** The bold conversion passes over a character that is not a star, and
    over a star followed by a space. *)
Lemma sub_bold_skip (c : ascii) (s : str) :
  c <> "*"%char ->
  Re.sub_from Pat.bold Pat.strong (c :: s) 0
  = c :: Re.sub_from Pat.bold Pat.strong s 0.
Proof.
  intros Hc. cbn [Re.sub_from].
  assert (Re.match_at Pat.bold (c :: s) = None) as ->; [| reflexivity].
  unfold Re.match_at, Pat.bold.
  cbn [Re.seq Re.run Re.txt lit list_ascii_of_string Re.lit_rest Re.chr_eq].
  destruct (Ascii.eqb "*" c) eqn:E; [| reflexivity].
  apply Ascii.eqb_eq in E. congruence.
Qed.

Lemma sub_bold_star_space (s : str) :
  Re.sub_from Pat.bold Pat.strong ("*"%char :: " "%char :: s) 0
  = "*"%char :: " "%char :: Re.sub_from Pat.bold Pat.strong s 0.
Proof.
  rewrite <- (sub_bold_skip " " s) by discriminate. reflexivity.
Qed.

Lemma startswith_eq (p s : str) :
  startswith p s = true -> s = p ++ skipn (List.length p) s.
Proof.
  revert s; induction p as [|x p IH]; intros s; [reflexivity |].
  destruct s as [|y s]; [discriminate |].
  cbn [startswith]. intros H. apply andb_true_iff in H.
  destruct H as [H1 H2]. apply Ascii.eqb_eq in H1. subst y.
  cbn [List.length skipn app]. f_equal. auto.
Qed.

(** What stands after a line marker, escaped and with bold converted. *)
Lemma marker_tagged (p : string) (line : str) :
  In p ["### "; "## "; "# "; "- "; "* "] ->
  startswith p line = true ->
  tagged (skipn (List.length (lit p))
                (Re.sub Pat.bold Pat.strong (escape line))).
Proof.
  intros Hp Hs. apply startswith_eq in Hs.
  rewrite Hs at 1. rewrite escape_app. unfold Re.sub.
  cbn [In] in Hp.
  destruct Hp as [<- | [<- | [<- | [<- | [<- | []]]]]];
    change (escape (lit "### ")) with (lit "### ");
    change (escape (lit "## ")) with (lit "## ");
    change (escape (lit "# ")) with (lit "# ");
    change (escape (lit "- ")) with (lit "- ");
    change (escape (lit "* ")) with (lit "* ");
    cbn [lit list_ascii_of_string app List.length];
    rewrite ?sub_bold_star_space;
    rewrite ?sub_bold_skip by discriminate;
    cbn [skipn]; apply sub_bold_tagged; apply escape_plain.
Qed.

(** A greedy repetition consumes characters of its class. *)
Lemma rep_greedy_split {T} (p : ascii -> bool) (lo : nat) (s : str)
    (k : str -> option T) (res : T) :
  Re.rep_greedy p lo s k = Some res ->
  exists u s', s = u ++ s' /\ Forall (fun c => p c = true) u
               /\ lo <= List.length u /\ k s' = Some res.
Proof.
  revert lo; induction s as [|c s IH]; intros lo; cbn [Re.rep_greedy].
  - destruct lo; [| discriminate]. intros H. exists [], []. auto.
  - destruct (p c) eqn:Ec.
    + destruct (Re.rep_greedy p (pred lo) s k) eqn:E.
      * intros [= <-]. destruct (IH _ E) as (u & s' & -> & Hu & Hlo & Hk).
        exists (c :: u), s'. cbn [List.length].
        repeat split; [constructor; assumption | lia | exact Hk].
      * destruct lo; [| discriminate]. intros H.
        exists [], (c :: s). cbn [List.length]. auto.
    + destruct lo; [| discriminate]. intros H.
      exists [], (c :: s). cbn [List.length]. auto.
Qed.

Lemma digit_not_angle (c : ascii) : is_digit c = true -> angle c = false.
Proof.
  destruct c as [[] [] [] [] [] [] [] []]; vm_compute; congruence.
Qed.

Lemma space_not_angle (c : ascii) : is_space c = true -> angle c = false.
Proof.
  destruct c as [[] [] [] [] [] [] [] []]; vm_compute; congruence.
Qed.

(** What the numbering pattern matches has no angle bracket. *)
Lemma number_dot_spaces_plain (s : str) (m : Re.match_obj) :
  Re.match_at Pat.number_dot_spaces s = Some m ->
  plain (firstn (Re.m_len m) s).
Proof.
  unfold Re.match_at, Pat.number_dot_spaces.
  cbn [Re.seq Re.run Re.plus Re.star Re.txt].
  intros H. apply rep_greedy_split in H.
  destruct H as (u & s1 & -> & Hu & _ & H).
  destruct (Re.lit_rest false "." s1) as [s2|] eqn:E; [| discriminate].
  apply lit_rest_some in E. subst s1.
  apply rep_greedy_split in H.
  destruct H as (w & s3 & -> & Hw & _ & [= <-]).
  cbn [Re.m_len].
  remember (u ++ "." +++ w) as matched eqn:Em.
  replace (u ++ "." +++ w ++ s3) with (matched ++ s3)
    by (subst matched; now rewrite <- !app_assoc).
  match goal with
  | |- plain (firstn ?n _) => replace n with (List.length matched)
  end.
  2:{ subst matched. cbn [lit list_ascii_of_string app].
      repeat (rewrite length_app; cbn [List.length]). lia. }
  rewrite firstn_app, firstn_all, Nat.sub_diag. cbn [firstn].
  rewrite app_nil_r. subst matched.
  apply Forall_app. split.
  - eapply Forall_impl; [| exact Hu]. apply digit_not_angle.
  - apply Forall_app. split; [repeat constructor |].
    eapply Forall_impl; [| exact Hw]. apply space_not_angle.
Qed.

Lemma numbered_tagged (line : str) :
  tagged (Re.sub_start Pat.number_dot_spaces Pat.erase
            (Re.sub Pat.bold Pat.strong (escape line))).
Proof.
  unfold Re.sub_start.
  destruct (Re.match_at Pat.number_dot_spaces
              (Re.sub Pat.bold Pat.strong (escape line))) as [m|] eqn:E;
    [| apply escaped_tagged].
  cbn [Pat.erase app]. apply tagged_skipn.
  - exact (number_dot_spaces_plain _ _ E).
  - apply escaped_tagged.
Qed.

Lemma close_list_ok (st : simple_state) :
  simple_ok st -> simple_ok (close_list st).
Proof.
  intros [Hr Hl]. unfold close_list.
  destruct (ss_in_list st); [| split; assumption].
  destruct (ss_current_list st) as [|x l] eqn:E;
    [split; [exact Hr | rewrite E; exact Hl] |].
  split; cbn [ss_result ss_current_list]; [| constructor].
  apply Forall_app. split; [exact Hr |]. constructor; [| constructor].
  apply tagged_element; [cbn; tauto | cbn; tauto |].
  apply tagged_concat. exact Hl.
Qed.

Lemma append_result_ok (st : simple_state) (x : str) :
  simple_ok st -> tagged x -> simple_ok (append_result st x).
Proof.
  intros [Hr Hl] Hx. split; cbn [append_result ss_result ss_current_list];
    [| exact Hl].
  apply Forall_app. split; [exact Hr | constructor; [exact Hx | constructor]].
Qed.

Lemma append_item_ok (st : simple_state) (x : str) :
  simple_ok st -> tagged x -> simple_ok (append_item st x).
Proof.
  intros [Hr Hl] Hx. split; cbn [append_item ss_result ss_current_list];
    [exact Hr |].
  apply Forall_app. split; [exact Hl | constructor; [exact Hx | constructor]].
Qed.

Lemma simple_line_ok (st : simple_state) (line : str) :
  simple_ok st -> simple_ok (simple_line st line).
Proof.
  intros Hst. unfold simple_line.
  destruct (negb (truthy (strip line))); [apply close_list_ok; exact Hst |].
  destruct (startswith "### " (strip line)) eqn:E4.
  { apply append_result_ok; [apply close_list_ok; exact Hst |].
    apply tagged_element; [cbn; tauto | cbn; tauto |].
    apply (marker_tagged "### "); [cbn; tauto | exact E4]. }
  destruct (startswith "## " (strip line)) eqn:E3.
  { apply append_result_ok; [apply close_list_ok; exact Hst |].
    apply tagged_element; [cbn; tauto | cbn; tauto |].
    apply (marker_tagged "## "); [cbn; tauto | exact E3]. }
  destruct (startswith "# " (strip line)) eqn:E2.
  { apply append_result_ok; [apply close_list_ok; exact Hst |].
    apply tagged_element; [cbn; tauto | cbn; tauto |].
    apply (marker_tagged "# "); [cbn; tauto | exact E2]. }
  destruct (startswith "- " (strip line)) eqn:Ed.
  { cbn [orb]. apply append_item_ok; [exact Hst |].
    apply tagged_element; [cbn; tauto | cbn; tauto |].
    apply (marker_tagged "- "); [cbn; tauto | exact Ed]. }
  destruct (startswith "* " (strip line)) eqn:Es.
  { cbn [orb]. apply append_item_ok; [exact Hst |].
    apply tagged_element; [cbn; tauto | cbn; tauto |].
    apply (marker_tagged "* "); [cbn; tauto | exact Es]. }
  cbn [orb].
  destruct (Re.matches Pat.number_dot_space (strip line)).
  { apply append_item_ok; [exact Hst |].
    apply tagged_element; [cbn; tauto | cbn; tauto |].
    apply numbered_tagged. }
  apply append_result_ok; [apply close_list_ok; exact Hst |].
  apply tagged_element; [cbn; tauto | cbn; tauto |].
  apply escaped_tagged.
Qed.

Lemma simple_lines_ok (lines : list str) :
  forall st, simple_ok st -> simple_ok (fold_left simple_line lines st).
Proof.
  induction lines as [|l lines IH]; intros st Hst; [exact Hst |].
  cbn [fold_left]. apply IH. apply simple_line_ok. exact Hst.
Qed.

End AppendixMarkup.

(** X8.  The analyst appendix cannot be broken by its text: in the HTML
    that [markdown_to_simple_html] returns, every angle bracket belongs
    to one of the twelve tags the function writes ([strong], [h3], [h4],
    [ul], [li], [p], opening or closing), written out in full; whatever
    the text, none of its characters opens or closes an element. *)
Theorem markdown_to_simple_html_tagged (text : str) :
  Markup.tagged Markup.simple_tags (markdown_to_simple_html text).
Proof.
  unfold markdown_to_simple_html.
  apply tagged_join.
  apply close_list_ok. apply simple_lines_ok.
  split; constructor.
Qed.

(** The property is not an empty one: a tag that the function does not
    write is not tagged text. *)
Example foreign_tag_not_tagged :
  ~ Markup.tagged Markup.simple_tags "<script>".
Proof.
  intros H. remember (lit "<script>") as w eqn:Ew.
  induction H as [| c s Hc Hs IH | t s Ht Hs IH].
  - discriminate.
  - injection Ew as -> _. discriminate.
  - destruct t as [|x t]; [apply IH; exact Ew |].
    unfold Markup.simple_tags, strs in Ht. cbn [map In] in Ht.
    repeat (destruct Ht as [Ht | Ht]; [injection Ht as <- <-; discriminate |]).
    exact Ht.
Qed.

(** ** The matcher: groups that cannot be empty *)

Section Filled.
Import Re Shape.

Lemma lit_rest_length (ci : bool) (p s s' : str) :
  lit_rest ci p s = Some s' ->
  List.length s = List.length p + List.length s'.
Proof.
  revert s; induction p as [|x p IH]; intros s; cbn [lit_rest].
  - intros [= ->]. reflexivity.
  - destruct s as [|y s]; [discriminate |].
    destruct (chr_eq ci x y); [| discriminate].
    intros H. cbn [List.length]. rewrite (IH _ H). lia.
Qed.

Lemma rep_lazy_length {T} (p : ascii -> bool) (lo : nat) (s : str)
    (k : str -> option T) (res : T) :
  rep_lazy p lo s k = Some res ->
  exists s', k s' = Some res /\ List.length s' + lo <= List.length s.
Proof.
  revert lo; induction s as [|c s IH]; intros lo; cbn [rep_lazy].
  - destruct lo; [| discriminate].
    destruct (k []) eqn:E; [| discriminate].
    intros [= <-]. exists []. split; [exact E | cbn; lia].
  - destruct lo as [|lo].
    + destruct (k (c :: s)) eqn:E.
      * intros [= <-]. exists (c :: s). split; [exact E | lia].
      * destruct (p c); [| discriminate]. intros H.
        destruct (IH _ H) as (s' & Hk & Hlen).
        exists s'. split; [exact Hk | cbn [List.length]; lia].
    + destruct (p c); [| discriminate]. intros H.
      destruct (IH _ H) as (s' & Hk & Hlen).
      exists s'. split; [exact Hk | cbn [List.length]; lia].
Qed.

(** A match takes at least [minlen r] characters. *)
Lemma run_length :
  forall r T s g (k : str -> caps -> option T) res,
    run r s g k = Some res ->
    exists s' g',
      k s' g' = Some res /\ List.length s' + minlen r <= List.length s.
Proof.
  induction r as [ci p | p | r1 IH1 r2 IH2 | r1 IH1 r2 IH2 | gr lo p
                  | i r IH]; intros T s g k res; cbn [run minlen].
  - destruct (lit_rest ci p s) as [s1|] eqn:E; [| discriminate].
    intros H. apply lit_rest_length in E. exists s1, g. split; [exact H | lia].
  - destruct s as [|c s]; [discriminate |].
    destruct (p c); [| discriminate].
    intros H. exists s, g. split; [exact H | cbn [List.length]; lia].
  - intros H. destruct (IH1 _ _ _ _ _ H) as (s1 & g1 & H1 & L1).
    destruct (IH2 _ _ _ _ _ H1) as (s2 & g2 & H2 & L2).
    exists s2, g2. split; [exact H2 | lia].
  - destruct (run r1 s g k) eqn:E.
    + intros [= <-]. destruct (IH1 _ _ _ _ _ E) as (s1 & g1 & H1 & L1).
      exists s1, g1. split; [exact H1 | lia].
    + intros H. destruct (IH2 _ _ _ _ _ H) as (s1 & g1 & H1 & L1).
      exists s1, g1. split; [exact H1 | lia].
  - destruct gr; intros H.
    + apply rep_greedy_split in H.
      destruct H as (u & s' & -> & _ & Hlo & H).
      exists s', g. split; [exact H | rewrite length_app; lia].
    + apply rep_lazy_length in H. destruct H as (s' & H & Hlen).
      exists s', g. split; [exact H | exact Hlen].
  - intros H. destruct (IH _ _ _ _ _ H) as (s1 & g1 & H1 & L1).
    eexists s1, _. split; [exact H1 | exact L1].
Qed.

(** A pattern leaves alone the groups it does not write. *)
Lemma run_other (i : nat) :
  forall r, binds i r = false ->
  forall T s g (k : str -> caps -> option T) res,
    run r s g k = Some res ->
    exists s' g', k s' g' = Some res /\ lookup i g' = lookup i g.
Proof.
  induction r as [ci p | p | r1 IH1 r2 IH2 | r1 IH1 r2 IH2 | gr lo p
                  | j r IH]; cbn [binds run]; intros Hb T s g k res.
  - destruct (lit_rest ci p s) as [s1|]; [| discriminate]. eauto.
  - destruct s as [|c s]; [discriminate |].
    destruct (p c); [| discriminate]. eauto.
  - apply orb_false_iff in Hb. destruct Hb as [Hb1 Hb2]. intros H.
    destruct (IH1 Hb1 _ _ _ _ _ H) as (s1 & g1 & H1 & L1).
    destruct (IH2 Hb2 _ _ _ _ _ H1) as (s2 & g2 & H2 & L2).
    exists s2, g2. split; [exact H2 | congruence].
  - apply orb_false_iff in Hb. destruct Hb as [Hb1 Hb2].
    destruct (run r1 s g k) eqn:E.
    + intros [= <-]. eauto.
    + intros H. eauto.
  - destruct gr; intros H.
    + apply rep_greedy_some in H. destruct H as [s' H]. eauto.
    + apply rep_lazy_some in H. destruct H as [s' H]. eauto.
  - apply orb_false_iff in Hb. destruct Hb as [Hj Hb]. intros H.
    destruct (IH Hb _ _ _ _ _ H) as (s1 & g1 & H1 & L1).
    eexists s1, _. split; [exact H1 |].
    cbn [lookup]. rewrite Hj. exact L1.
Qed.

Lemma run_fills (i : nat) :
  forall r, fills i r = true ->
  forall T s g (k : str -> caps -> option T) res,
    run r s g k = Some res ->
    exists s' g', k s' g' = Some res /\ filled i g'.
Proof.
  induction r as [ci p | p | r1 IH1 r2 IH2 | r1 IH1 r2 IH2 | gr lo p
                  | j r IH]; cbn [fills run]; try discriminate;
    intros Hf T s g k res.
  - apply orb_true_iff in Hf. destruct Hf as [Hf | Hf]; intros H.
    + destruct (run_length _ _ _ _ _ _ H) as (s1 & g1 & H1 & _).
      eapply IH2; eauto.
    + apply andb_true_iff in Hf. destruct Hf as [Hf Hb].
      apply negb_true_iff in Hb.
      destruct (IH1 Hf _ _ _ _ _ H) as (s1 & g1 & H1 & F1).
      destruct (run_other i r2 Hb _ _ _ _ _ H1) as (s2 & g2 & H2 & L2).
      exists s2, g2. split; [exact H2 |].
      unfold filled in *. rewrite L2. exact F1.
  - apply andb_true_iff in Hf. destruct Hf as [Hf1 Hf2].
    destruct (run r1 s g k) eqn:E.
    + intros [= <-]. eauto.
    + intros H. eauto.
  - destruct (Nat.eqb i j) eqn:Eij; intros H.
    + apply Nat.ltb_lt in Hf.
      destruct (run_length _ _ _ _ _ _ H) as (s1 & g1 & H1 & L1).
      eexists s1, _. split; [exact H1 |].
      unfold filled. cbn [lookup]. rewrite Eij. eexists. split; [reflexivity |].
      intros Hnil. apply (f_equal (@List.length ascii)) in Hnil.
      rewrite length_firstn in Hnil. cbn [List.length] in Hnil. lia.
    + destruct (IH Hf _ _ _ _ _ H) as (s1 & g1 & H1 & F1).
      eexists s1, _. split; [exact H1 |].
      unfold filled in *. cbn [lookup]. rewrite Eij. exact F1.
Qed.

Lemma match_at_filled (r : regex) (s : str) (m : match_obj) (i : nat) :
  match_at r s = Some m -> fills i r = true ->
  exists v, group m i = Ok v /\ v <> [].
Proof.
  unfold match_at, group. intros H Hf.
  destruct (run_fills i r Hf _ _ _ _ _ H) as (s' & g' & [= <-] & v & Hv & Hne).
  cbn [m_groups]. rewrite Hv. eauto.
Qed.

Lemma search_filled (r : regex) (s : str) (m : match_obj) (i : nat) :
  search r s = Some m -> fills i r = true ->
  exists v, group m i = Ok v /\ v <> [].
Proof.
  induction s as [|c s IH]; cbn [search].
  - destruct (match_at r []) eqn:E; [| discriminate].
    intros [= <-]. eapply match_at_filled; eauto.
  - destruct (match_at r (c :: s)) eqn:E.
    + intros [= <-]. eapply match_at_filled; eauto.
    + exact IH.
Qed.

End Filled.

(** ** The entries of the memo have their mandatory fields *)

Section Entries.
Import Shape.

(** Reads a group that cannot be empty. *)
Ltac fill_group E i :=
  let v := fresh "v" in
  let Hv := fresh "Hv" in
  let Hne := fresh "Hne" in
  destruct (match_at_filled _ _ _ i E eq_refl) as (v & Hv & Hne);
  rewrite Hv; cbn [bind].

Lemma Forall_snoc {A} (P : A -> Prop) (l : list A) (x : A) :
  Forall P l -> P x -> Forall P (l ++ [x]).
Proof. intros Hl Hx. apply Forall_app. auto. Qed.

Lemma truthy_nonempty (s : str) : truthy s = true -> s <> [].
Proof. destruct s; [discriminate | discriminate]. Qed.

Lemma sub_link_nonempty (s : str) :
  s <> [] -> Re.sub Pat.link Pat.anchor s <> [].
Proof.
  destruct s as [|c s]; [congruence |]. intros _.
  unfold Re.sub. cbn [Re.sub_from].
  destruct (Re.match_at Pat.link (c :: s)) as [m|]; [| discriminate].
  intros H. apply (f_equal (@List.length ascii)) in H.
  unfold Pat.anchor in H. rewrite !length_app in H.
  cbn [List.length h map lit list_ascii_of_string] in H. lia.
Qed.

Lemma terms_line_ok (ts : list kv) (l : str) :
  Forall pair_ok ts ->
  exists ts', terms_line ts l = Ok ts' /\ Forall pair_ok ts'.
Proof.
  intros Hts. unfold terms_line.
  destruct (startswith "**" (strip l) && contains ":**" (strip l));
    [| eauto].
  destruct (Re.match_at Pat.key_value (strip l)) eqn:E; [| eauto].
  fill_group E 1. fill_group E 2.
  eexists. split; [reflexivity |].
  apply Forall_snoc; [exact Hts | split; assumption].
Qed.

Lemma snapshot_line_ok (items : list kv) (l : str) :
  Forall pair_ok items ->
  exists items', snapshot_line items l = Ok items' /\ Forall pair_ok items'.
Proof.
  intros Hts. unfold snapshot_line.
  destruct (startswith "**" (strip l) && contains ":**" (strip l));
    [| eauto].
  destruct (Re.match_at Pat.key_value (strip l)) eqn:E; [| eauto].
  fill_group E 2. fill_group E 1.
  eexists. split; [reflexivity |].
  apply Forall_snoc; [exact Hts |].
  split; [assumption | apply sub_link_nonempty; assumption].
Qed.

Lemma bullet_line_ok (points : list point) (l : str) :
  Forall point_ok points ->
  exists points', bullet_line points l = Ok points'
                  /\ Forall point_ok points'.
Proof.
  intros Hp. unfold bullet_line.
  destruct (startswith "- " (strip l) || startswith "* " (strip l));
    [| eauto].
  destruct (Re.match_at Pat.bullet_title (skipn 2 (strip l))) eqn:E.
  - fill_group E 1. fill_group E 2.
    eexists. split; [reflexivity |].
    apply Forall_snoc; [exact Hp | assumption].
  - destruct (truthy (skipn 2 (strip l))) eqn:Et; [| eauto].
    eexists. split; [reflexivity |].
    apply Forall_snoc; [exact Hp | apply truthy_nonempty; exact Et].
Qed.

Lemma debate_step_ok (debates : list debate) (l : str) :
  Forall debate_ok debates ->
  exists debates', debate_step debates l = Ok debates'
                   /\ Forall debate_ok debates'.
Proof.
  intros Hd. unfold debate_step.
  destruct (Re.matches Pat.number_dot (strip l)); [| eauto].
  destruct (Re.match_at Pat.debate_line
              (Re.sub_start Pat.number_dot_spaces Pat.erase (strip l)))
    eqn:E.
  - fill_group E 1. fill_group E 2.
    eexists. split; [reflexivity |].
    apply Forall_snoc; [exact Hd | assumption].
  - destruct (truthy (Re.sub_start Pat.number_dot_spaces Pat.erase
                        (strip l))) eqn:Et; [| eauto].
    eexists. split; [reflexivity |].
    apply Forall_snoc; [exact Hd | apply truthy_nonempty; exact Et].
Qed.

Lemma risk_line_ok (st : risk_state) (l : str) :
  Forall risk_ok (rs_risks st) ->
  exists st', risk_line st l = Ok st' /\ Forall risk_ok (rs_risks st').
Proof.
  intros Hr. unfold risk_line.
  destruct (contains "Critical Risks" (strip l)
            || contains "Key Risks" (strip l)); [eauto |].
  destruct (contains "Information Gaps" (strip l)).
  { destruct (Re.search Pat.info_gaps_line (strip l)) eqn:E; [| eauto].
    destruct (search_filled _ _ _ 1 E eq_refl) as (v & -> & _).
    cbn [bind]. eauto. }
  destruct (rs_in_risks st && Re.matches Pat.number_dot (strip l));
    [| cbn [bind]; eexists; split; [reflexivity | exact Hr]].
  destruct (Re.match_at Pat.risk_bold (strip l)) eqn:E.
  { fill_group E 1. fill_group E 2.
    eexists. split; [reflexivity |]. cbn [rs_risks].
    apply Forall_snoc; [exact Hr | split; assumption]. }
  destruct (Re.match_at Pat.risk_plain (strip l)) eqn:E'.
  { fill_group E' 1. fill_group E' 2.
    eexists. split; [reflexivity |]. cbn [rs_risks].
    apply Forall_snoc; [exact Hr | split; assumption]. }
  cbn [bind]. eexists. split; [reflexivity | exact Hr].
Qed.

Lemma parse_dd_ok (lines : list str) :
  forall priorities,
    Forall (fun x : str => x <> []) priorities ->
    Forall (fun x : str => x <> []) (fold_left dd_line lines priorities).
Proof.
  induction lines as [|l lines IH]; intros ps Hps; [exact Hps |].
  cbn [fold_left]. apply IH. unfold dd_line.
  destruct (Re.matches Pat.number_dot (strip l)); [| exact Hps].
  destruct (truthy (Re.sub_start Pat.number_dot_spaces Pat.erase (strip l)))
    eqn:Et; [| exact Hps].
  apply Forall_snoc; [exact Hps | apply truthy_nonempty; exact Et].
Qed.

Lemma fit_rows_ok (lines : list str) :
  Forall row_ok (map Spec.row_of (filter Spec.yields_row lines)).
Proof.
  induction lines as [|l lines IH]; [constructor |].
  cbn [filter]. destruct (Spec.yields_row l) eqn:E; [| exact IH].
  cbn [map]. constructor; [| exact IH].
  unfold row_ok, Spec.row_of. cbn [criterion].
  unfold Spec.yields_row in E. apply andb_true_iff in E.
  destruct E as [_ E]. apply negb_true_iff in E.
  apply str_eqb_neq in E. exact E.
Qed.

(** Every extractor keeps the entries in order. *)
Lemma extract_entries (c : Spec.category) (m : memo) (text : str)
    (m' : memo) :
  entries_ok m -> Spec.extract c m text = Ok m' -> entries_ok m'.
Proof.
  intros (H1 & H2 & H3 & H4 & H5 & H6 & H7 & H8).
  destruct c; cbn [Spec.extract]; intros H;
    try (apply bind_ok in H; destruct H as (v & _ & [= <-]);
         repeat split; assumption).
  - destruct (for_each_inv snapshot_line (Forall pair_ok) snapshot_line_ok
                (split_chr nl text) []) as (v & Hv & Hok); [constructor |].
    unfold parse_snapshot in H. rewrite Hv in H. cbn [bind] in H.
    injection H as <-. repeat split; assumption.
  - unfold parse_fit_table in H.
    destruct (fit_loop_rows (split_chr nl text) [] []) as [ov Hv].
    apply bind_ok in H. destruct H as ([rows ov'] & Hx & H).
    assert (Ok (rows, ov')
            = Ok ([] ++ map Spec.row_of
                          (filter Spec.yields_row
                                  (map strip (split_chr nl text))), ov))
      as Heq by (rewrite <- Hx; exact Hv).
    injection Heq as -> _. injection H as <-.
    repeat split; try assumption. cbn [set_fit fit_table app].
    apply fit_rows_ok.
  - destruct (for_each_inv bullet_line (Forall point_ok) bullet_line_ok
                (split_chr nl text) []) as (v & Hv & Hok); [constructor |].
    unfold parse_bullet_points in H. rewrite Hv in H. cbn [bind] in H.
    injection H as <-. repeat split; assumption.
  - destruct (for_each_inv bullet_line (Forall point_ok) bullet_line_ok
                (split_chr nl text) []) as (v & Hv & Hok); [constructor |].
    unfold parse_bullet_points in H. rewrite Hv in H. cbn [bind] in H.
    injection H as <-. repeat split; assumption.
  - destruct (for_each_inv debate_step (Forall debate_ok) debate_step_ok
                (split_chr nl text) []) as (v & Hv & Hok); [constructor |].
    unfold parse_debates in H. rewrite Hv in H. cbn [bind] in H.
    injection H as <-. repeat split; assumption.
  - apply bind_ok in H. destruct H as ([[vd cf] ra] & _ & H).
    destruct (truthy vd), (truthy cf); injection H as <-;
      repeat split; assumption.
  - destruct (for_each_inv terms_line (Forall pair_ok) terms_line_ok
                (split_chr nl text) []) as (v & Hv & Hok); [constructor |].
    unfold parse_terms in H. rewrite Hv in H. cbn [bind] in H.
    injection H as <-. repeat split; assumption.
  - destruct (for_each_inv risk_line (fun st => Forall risk_ok (rs_risks st))
                risk_line_ok (split_chr nl text)
                {| rs_risks := []; rs_info_gaps := []; rs_in_risks := false |})
      as (v & Hv & Hok); [constructor |].
    unfold parse_risks in H. rewrite Hv in H. cbn [bind] in H.
    injection H as <-. repeat split; assumption.
  - injection H as <-. repeat split; try assumption.
    cbn [set_dd_priorities dd_priorities]. unfold parse_dd.
    apply parse_dd_ok. constructor.
Qed.

Lemma title_update_entries (m : memo) (line : str) :
  entries_ok m -> entries_ok (Spec.title_update m line).
Proof.
  intros H. unfold Spec.title_update.
  destruct (Spec.names_verdict line); exact H.
Qed.

End Entries.

(** X9.  Whatever the document, the memo that [parse_analysis] returns
    has no entry without its mandatory fields: every snapshot item and
    every proposed term has a label and a value, every fit row a
    criterion, every point of the bull and bear case a description,
    every debate a question, every risk a title and a description, and
    no diligence priority is empty. *)
Theorem parse_analysis_entries (analysis : str) :
  exists m, parse_analysis analysis = Ok m /\ Shape.entries_ok m.
Proof.
  apply (parse_analysis_inv Shape.entries_ok (fun _ => true) (fun _ => True)).
  - intros m line _ _ H. apply title_update_entries. exact H.
  - intros c m text m' _ Hm H. eapply extract_entries; eauto.
  - apply Forall_forall. intros l _. split; [| exact I].
    unfold Spec.line_allowed, Spec.allowed.
    destruct (Spec.heading_category l); [reflexivity | exact I].
  - repeat split; constructor.
Qed.

(** ** The matcher: where a repetition stops *)

Section Repetition.
Import Re.

Variable T : Type.

(** A greedy repetition followed by something that succeeds after the
    whole run of the class stops there. *)
Lemma rep_greedy_max (p : ascii -> bool) (u s : str)
    (k : str -> option T) (x : T) :
  forall lo,
    Forall (fun c => p c = true) u ->
    match s with c :: _ => p c = false | [] => True end ->
    lo <= List.length u ->
    k s = Some x ->
    rep_greedy p lo (u ++ s) k = Some x.
Proof.
  induction u as [|c u IH]; intros lo Hu Hs Hlo Hk.
  - cbn [List.length] in Hlo. assert (lo = 0) as -> by lia. cbn [app].
    destruct s as [|c s]; cbn [rep_greedy]; [exact Hk |].
    rewrite Hs. exact Hk.
  - inversion Hu as [|? ? Hc Hu']; subst.
    cbn [app rep_greedy]. rewrite Hc.
    rewrite (IH (pred lo)); auto. cbn [List.length] in Hlo. lia.
Qed.

(** A lazy repetition stops at the first place, after [lo] characters,
    where what follows succeeds. *)
Lemma rep_lazy_first (p : ascii -> bool) (u s : str)
    (k : str -> option T) (x : T) :
  forall lo,
    Forall (fun c => p c = true) u ->
    lo <= List.length u ->
    (forall i, lo <= i < List.length u -> k (skipn i u ++ s) = None) ->
    k s = Some x ->
    rep_lazy p lo (u ++ s) k = Some x.
Proof.
  induction u as [|c u IH]; intros lo Hu Hlo Hfail Hk.
  - cbn [List.length] in Hlo. assert (lo = 0) as -> by lia. cbn [app].
    destruct s as [|c s]; cbn [rep_lazy]; rewrite Hk; reflexivity.
  - inversion Hu as [|? ? Hc Hu']; subst.
    cbn [List.length] in Hlo, Hfail.
    cbn [app rep_lazy]. destruct lo as [|lo].
    + pose proof (Hfail 0 ltac:(lia)) as H0. cbn [skipn app] in H0.
      rewrite H0, Hc.
      apply IH; auto; [lia |].
      intros i Hi. apply (Hfail (S i)). lia.
    + rewrite Hc. apply IH; auto; [lia |].
      intros i Hi. apply (Hfail (S i)). lia.
Qed.

End Repetition.

Lemma firstn_app_exact {A} (u s : list A) :
  firstn (List.length (u ++ s) - List.length s) (u ++ s) = u.
Proof.
  replace (List.length (u ++ s) - List.length s) with (List.length u)
    by (rewrite length_app; lia).
  rewrite firstn_app, firstn_all, Nat.sub_diag. cbn [firstn].
  apply app_nil_r.
Qed.

Lemma skipn_head_in {A} (i : nat) (u : list A) :
  i < List.length u -> exists c t, skipn i u = c :: t /\ In c u.
Proof.
  revert u; induction i as [|i IH]; intros [|a u] Hi; cbn [List.length] in Hi;
    try lia.
  - exists a, u. split; [reflexivity | left; reflexivity].
  - destruct (IH u) as (c & t & H & Hin); [lia |].
    exists c, t. split; [exact H | right; exact Hin].
Qed.

Lemma strip_first (v : str) :
  v <> [] -> strip v = v ->
  match v with c :: _ => is_space c = false | [] => True end.
Proof.
  destruct v as [|c v]; [congruence |]. intros _ H.
  destruct (is_space c) eqn:E; [| reflexivity].
  exfalso. unfold strip in H. cbn [lstrip] in H. rewrite E in H.
  assert (List.length (rstrip (lstrip v)) <= List.length v) as Hlen.
  { clear. transitivity (List.length (lstrip v)).
    - generalize (lstrip v). intros w. induction w as [|a w IH]; [reflexivity |].
      cbn [rstrip]. destruct (rstrip w); [destruct (is_space a) |];
        cbn [List.length] in *; lia.
    - induction v as [|a v IH]; [reflexivity |].
      cbn [lstrip]. destruct (is_space a); cbn [List.length] in *; lia. }
  rewrite H in Hlen. cbn [List.length] in Hlen. lia.
Qed.

Lemma no_nl_dot (v : str) :
  ~ In nl v -> Forall (fun c => Re.dot c = true) v.
Proof.
  intros H. apply Forall_forall. intros c Hc. unfold Re.dot.
  apply negb_true_iff. apply Ascii.eqb_neq. intros ->. auto.
Qed.

(** The line [**label:** value] is read back as written. *)
Lemma key_value_match (L sp v : str) :
  L <> [] -> ~ In ":"%char L -> ~ In nl L ->
  Forall (fun c => is_space c = true) sp ->
  v <> [] -> strip v = v -> ~ In nl v ->
  exists n,
    Re.match_at Pat.key_value ("**" +++ L +++ ":**" +++ sp ++ v)
    = Some {| Re.m_len := n; Re.m_groups := [(2, v); (1, L)] |}.
Proof.
  intros HL Hcolon HnlL Hsp Hv Hstrip Hnlv.
  eexists. unfold Re.match_at, Pat.key_value.
  cbn [Re.seq Re.run Re.txt Re.plus_lazy Re.star Re.plus].
  rewrite lit_rest_app.
  apply rep_lazy_first.
  - apply no_nl_dot. exact HnlL.
  - destruct L; [congruence | cbn [List.length]; lia].
  - intros i [_ Hi].
    destruct (skipn_head_in i L Hi) as (c & t & -> & Hin).
    cbn [app lit list_ascii_of_string Re.lit_rest Re.chr_eq].
    destruct (Ascii.eqb ":" c) eqn:E; [| reflexivity].
    apply Ascii.eqb_eq in E. subst c. contradiction.
  - rewrite lit_rest_app.
    apply rep_greedy_max; [exact Hsp | | lia |].
    + pose proof (strip_first v Hv Hstrip) as H.
      destruct v; [exact I | exact H].
    + rewrite <- (app_nil_r v) at 1.
      apply rep_greedy_max; [apply no_nl_dot; exact Hnlv | exact I | |].
      * destruct v; [congruence | cbn [List.length]; lia].
      * rewrite firstn_app_exact. cbn [List.length].
        rewrite !Nat.sub_0_r, firstn_all. reflexivity.
Qed.

(** ** The proposed terms are read back as written *)

Lemma rstrip_app_nonempty (a v : str) :
  rstrip v <> [] -> rstrip (a ++ v) = a ++ rstrip v.
Proof.
  intros Hv. induction a as [|c a IH]; [reflexivity |].
  cbn [app rstrip]. rewrite IH.
  destruct (a ++ rstrip v) eqn:E; [| reflexivity].
  apply app_eq_nil in E. destruct E as [_ E]. congruence.
Qed.

Lemma term_text_strip (x : kv) :
  Shape.term_wf x -> strip (Shape.term_text x) = Shape.term_text x.
Proof.
  intros (_ & _ & _ & Hv & Hs & _). unfold Shape.term_text.
  pose proof (strip_first _ Hv Hs) as Hfirst.
  assert (rstrip (value x) = value x) as Hr.
  { destruct (value x) as [|c v] eqn:E; [congruence |].
    unfold strip in Hs. cbn [lstrip] in Hs. rewrite Hfirst in Hs. exact Hs. }
  unfold strip.
  assert (lstrip ("**" +++ label x +++ ":** " +++ value x)
          = "**" +++ label x +++ ":** " +++ value x) as -> by reflexivity.
  rewrite !app_assoc.
  rewrite rstrip_app_nonempty by (rewrite Hr; exact Hv).
  now rewrite Hr.
Qed.

Lemma terms_line_written (acc : list kv) (x : kv) :
  Shape.term_wf x -> terms_line acc (Shape.term_text x) = Ok (acc ++ [x]).
Proof.
  intros Hx. unfold terms_line. rewrite (term_text_strip x Hx).
  destruct Hx as (HL & Hc & HnL & Hv & Hs & Hnv).
  destruct x as [L v]. cbn [label value] in *. unfold Shape.term_text.
  cbn [label value].
  assert ("**" +++ L +++ ":** " +++ v = "**" +++ L +++ ":**" +++ [" "%char] ++ v)
    as -> by reflexivity.
  assert (startswith "**" ("**" +++ L +++ ":**" +++ [" "%char] ++ v) = true)
    as -> by reflexivity.
  replace (contains ":**" ("**" +++ L +++ ":**" +++ [" "%char] ++ v))
    with true.
  2:{ symmetry. rewrite app_assoc. apply contains_here. }
  cbn [andb].
  destruct (key_value_match L [" "%char] v HL Hc HnL) as [n ->];
    try assumption; [repeat constructor |].
  reflexivity.
Qed.

Lemma terms_lines_written (ts : list kv) :
  forall acc,
    Forall Shape.term_wf ts ->
    for_each terms_line (map Shape.term_text ts) acc = Ok (acc ++ ts).
Proof.
  induction ts as [|x ts IH]; intros acc Hall; cbn [map for_each].
  - now rewrite app_nil_r.
  - inversion Hall as [|? ? Hx Hts]; subst.
    rewrite (terms_line_written acc x Hx). cbn [bind].
    rewrite (IH _ Hts). now rewrite <- app_assoc.
Qed.

Lemma term_text_one_line (x : kv) :
  Shape.term_wf x -> ~ In nl (Shape.term_text x).
Proof.
  intros (_ & _ & HnL & _ & _ & Hnv). unfold Shape.term_text. intros H.
  apply in_app_or in H. destruct H as [H | H].
  { cbn in H. intuition discriminate. }
  apply in_app_or in H. destruct H as [H | H]; [contradiction |].
  apply in_app_or in H. destruct H as [H | H]; [| contradiction].
  cbn in H. intuition discriminate.
Qed.



(** ** Running text: paragraphs and line breaks *)

(** Where no match can begin, [re.sub] changes nothing. *)
Lemma sub_no_match (r : Re.regex) (repl : Re.match_obj -> str) (s : str) :
  Re.match_at r [] = None ->
  (forall c t, In c s -> Re.match_at r (c :: t) = None) ->
  Re.sub r repl s = s.
Proof.
  intros Hnil Hno. unfold Re.sub.
  induction s as [|c s IH]; cbn [Re.sub_from].
  - now rewrite Hnil.
  - rewrite (Hno c s (or_introl eq_refl)). f_equal.
    apply IH. intros c' t Hin. apply Hno. right. exact Hin.
Qed.

Lemma inline_markup_absent (s : str) :
  ~ In "["%char s -> ~ In "*"%char s ->
  Re.sub Pat.bold Pat.strong
    (Re.sub Pat.link Pat.anchor
       (Re.sub Pat.empty_target Pat.erase
          (Re.sub Pat.empty_label Pat.erase s))) = s.
Proof.
  intros Hb Hs.
  assert (forall c, In c s -> Ascii.eqb "[" c = false) as Hb'.
  { intros c Hc. apply Ascii.eqb_neq. intros <-. auto. }
  assert (forall c, In c s -> Ascii.eqb "*" c = false) as Hs'.
  { intros c Hc. apply Ascii.eqb_neq. intros <-. auto. }
  rewrite (sub_no_match Pat.empty_label); [| reflexivity |].
  2:{ intros c t Hc. unfold Re.match_at, Pat.empty_label.
      cbn [Re.seq Re.run Re.txt lit list_ascii_of_string Re.lit_rest
           Re.chr_eq]. now rewrite (Hb' c Hc). }
  rewrite (sub_no_match Pat.empty_target); [| reflexivity |].
  2:{ intros c t Hc. unfold Re.match_at, Pat.empty_target.
      cbn [Re.seq Re.run Re.txt lit list_ascii_of_string Re.lit_rest
           Re.chr_eq]. now rewrite (Hb' c Hc). }
  rewrite (sub_no_match Pat.link); [| reflexivity |].
  2:{ intros c t Hc. unfold Re.match_at, Pat.link.
      cbn [Re.seq Re.run Re.txt lit list_ascii_of_string Re.lit_rest
           Re.chr_eq]. now rewrite (Hb' c Hc). }
  rewrite (sub_no_match Pat.bold); [reflexivity | reflexivity |].
  intros c t Hc. unfold Re.match_at, Pat.bold.
  cbn [Re.seq Re.run Re.txt lit list_ascii_of_string Re.lit_rest
       Re.chr_eq]. now rewrite (Hs' c Hc).
Qed.

Section Paragraph.
Import Shape.

Lemma text_line_first (l : str) :
  text_line l -> exists c t, l = c :: t /\ is_space c = false.
Proof.
  intros (Hne & Hs & _). pose proof (strip_first l Hne Hs) as H.
  destruct l as [|c t]; [congruence |]. eauto.
Qed.

Lemma text_join_in (c : ascii) (sep : str) (l : list str) :
  In c (join sep l) -> In c sep \/ exists x, In x l /\ In c x.
Proof.
  induction l as [|x l IH]; [intros [] |].
  destruct l as [|y l].
  - cbn [join]. intros H. right. exists x. split; [left; reflexivity | exact H].
  - rewrite join_cons by discriminate. intros H.
    apply in_app_or in H. destruct H as [H | H].
    { right. exists x. split; [left; reflexivity | exact H]. }
    apply in_app_or in H. destruct H as [H | H]; [left; exact H |].
    destruct (IH H) as [H' | (z & Hz & Hc)]; [left; exact H' |].
    right. exists z. split; [right; exact Hz | exact Hc].
Qed.

Lemma text_lines_no (c : ascii) (sep : str) (lines : list str) :
  Forall text_line lines ->
  ~ In c sep -> (forall l, text_line l -> ~ In c l) ->
  ~ In c (join sep lines).
Proof.
  intros Hall Hc Hl H. apply text_join_in in H.
  destruct H as [H | (x & Hx & Hin)]; [contradiction |].
  apply (Hl x); [| exact Hin].
  apply (proj1 (Forall_forall _ _) Hall). exact Hx.
Qed.

Lemma text_lines_strip (lines : list str) :
  Forall text_line lines -> strip (join [nl] lines) = join [nl] lines.
Proof.
  induction lines as [|x l IH]; intros Hall; [reflexivity |].
  inversion Hall as [|? ? Hx Hl]; subst. specialize (IH Hl).
  destruct (text_line_first x Hx) as (c & t & -> & Hc).
  destruct l as [|y l].
  - cbn [join]. destruct Hx as (_ & Hs & _). exact Hs.
  - rewrite join_cons by discriminate.
    destruct (text_line_first y (Forall_inv Hl)) as (d & u & -> & Hd).
    destruct (join_head [nl] d u l) as [w Hw].
    rewrite Hw in IH. rewrite Hw.
    unfold strip in IH. cbn [lstrip] in IH. rewrite Hd in IH.
    unfold strip. cbn [app lstrip]. rewrite Hc.
    replace (c :: t ++ nl :: d :: w) with ((c :: t ++ [nl]) ++ d :: w)
      by (cbn [app]; now rewrite <- app_assoc).
    rewrite rstrip_app_nonempty; rewrite IH; [reflexivity | discriminate].
Qed.

Lemma text_lines_one_paragraph (lines : list str) :
  Forall text_line lines -> contains nlnl (join [nl] lines) = false.
Proof.
  assert (forall rest,
    match rest with [] => True | d :: _ => d <> nl end ->
    contains nlnl rest = false ->
    forall u, ~ In nl u -> contains nlnl (u ++ nl :: rest) = false /\
                           contains nlnl (u ++ rest) = false) as Hgen.
  { intros rest Hd Hrest u. induction u as [|a u IHu]; intros Hu.
    - cbn [app]. split; [| exact Hrest].
      cbn [contains]. rewrite Hrest, orb_false_r.
      destruct rest as [|d rest]; [reflexivity |].
      cbn [nlnl startswith]. rewrite Ascii.eqb_refl. cbn [andb].
      destruct (Ascii.eqb nl d) eqn:E; [| reflexivity].
      apply Ascii.eqb_eq in E. congruence.
    - destruct IHu as [H1 H2]; [intros H; apply Hu; right; exact H |].
      assert (Ascii.eqb nl a = false) as Ea.
      { apply Ascii.eqb_neq. intros <-. apply Hu. left. reflexivity. }
      cbn [app contains nlnl startswith]. rewrite Ea. cbn [andb orb].
      split; assumption. }
  induction lines as [|x l IH]; intros Hall; [reflexivity |].
  inversion Hall as [|? ? Hx Hl]; subst. specialize (IH Hl).
  destruct (text_line_first x Hx) as (c & t & -> & Hc).
  assert (~ In nl (c :: t)) as Hnl by apply Hx.
  destruct l as [|y l].
  - cbn [join]. rewrite <- (app_nil_r (c :: t)).
    exact (proj2 (Hgen [] I eq_refl (c :: t) Hnl)).
  - rewrite join_cons by discriminate.
    destruct (text_line_first y (Forall_inv Hl)) as (d & u & -> & Hd).
    destruct (join_head [nl] d u l) as [w Hw].
    rewrite Hw in IH. rewrite Hw.
    cbn [app].
    change (c :: t ++ nl :: d :: w) with ((c :: t) ++ nl :: d :: w).
    refine (proj1 (Hgen (d :: w) _ IH (c :: t) Hnl)).
    intros ->. discriminate.
Qed.

End Paragraph.

Lemma filter_map_id {A} (f : A -> A) (keep : A -> bool) (l : list A) :
  Forall (fun x => keep x = true /\ f x = x) l ->
  map f (filter keep l) = l.
Proof.
  induction 1 as [|x l [Hk Hf] Hl IH]; [reflexivity |].
  cbn [filter]. rewrite Hk. cbn [map]. now rewrite Hf, IH.
Qed.

Lemma map_join (f : ascii -> ascii) (sep : str) (l : list str) :
  map f (join sep l) = join (map f sep) (map (map f) l).
Proof.
  induction l as [|x l IH]; [reflexivity |].
  destruct l as [|y l]; [reflexivity |].
  rewrite join_cons by discriminate.
  cbn [map]. rewrite (join_cons (map f sep) (map f x)) by discriminate.
  rewrite !map_app. now rewrite IH.
Qed.

Lemma map_absent (c d : ascii) (s : str) :
  ~ In c s -> map (fun x => if Ascii.eqb c x then d else x) s = s.
Proof.
  induction s as [|a s IH]; intros H; [reflexivity |].
  cbn [map]. rewrite IH by (intros Hin; apply H; right; exact Hin).
  destruct (Ascii.eqb c a) eqn:E; [| reflexivity].
  apply Ascii.eqb_eq in E. subst a. exfalso. apply H. left. reflexivity.
Qed.



(** ** The company name of the file and of the memo *)

Lemma rstrip_idem (s : str) : rstrip (rstrip s) = rstrip s.
Proof.
  induction s as [|c s IH]; [reflexivity |].
  cbn [rstrip]. destruct (rstrip s) as [|a x] eqn:E.
  - destruct (is_space c) eqn:Ec; [reflexivity |].
    cbn [rstrip]. now rewrite Ec.
  - change (rstrip (c :: a :: x))
      with (match rstrip (a :: x) with
            | [] => if is_space c then [] else [c]
            | r => c :: r
            end).
    now rewrite IH.
Qed.

Lemma lstrip_rstrip (s : str) : lstrip (rstrip s) = rstrip (lstrip s).
Proof.
  induction s as [|c s IH]; [reflexivity |].
  cbn [lstrip rstrip]. destruct (is_space c) eqn:Ec.
  - destruct (rstrip s) as [|a x] eqn:E.
    + apply rstrip_nil_all_space in E.
      rewrite (lstrip_all_space s E). reflexivity.
    + cbn [lstrip]. rewrite Ec. exact IH.
  - cbn [rstrip].
    destruct (rstrip s) as [|a x] eqn:E; cbn [lstrip]; rewrite ?Ec;
      reflexivity.
Qed.

Lemma strip_rstrip (s : str) : strip (rstrip s) = strip s.
Proof. unfold strip. now rewrite lstrip_rstrip, rstrip_idem. Qed.

(** The name on a title line that begins at the margin is the same
    whether the line is trimmed first or not. *)
Lemma title_text_margin (l : str) :
  startswith "# " l = true -> Spec.is_title_line l = true ->
  strip (skipn 2 l) = Spec.title_text l.
Proof.
  intros Hs Ht. apply startswith_eq in Hs.
  cbn [lit list_ascii_of_string List.length app] in Hs.
  set (r := skipn 2 l) in *. unfold Spec.title_text.
  unfold Spec.is_title_line in Ht. apply andb_true_iff in Ht.
  destruct Ht as [Ht _]. rewrite Hs in Ht |- *.
  assert (strip ("#"%char :: " "%char :: r)
          = rstrip ("#"%char :: " "%char :: r)) as Hstrip by reflexivity.
  rewrite Hstrip in Ht |- *.
  destruct (rstrip r) as [|a x] eqn:Er.
  - exfalso. cbn [rstrip] in Ht. rewrite Er in Ht. discriminate Ht.
  - change ("#"%char :: " "%char :: r) with (lit "# " ++ r).
    rewrite rstrip_app_nonempty by (rewrite Er; discriminate).
    cbn [lit list_ascii_of_string app skipn].
    rewrite Er. rewrite <- Er. now rewrite strip_rstrip.
Qed.

Lemma name_title_not_verdict (l : str) :
  Spec.names_verdict l = false ->
  mem (Spec.title_text l) (strs ["PURSUE"; "PASS"; "MONITOR"]) = false.
Proof.
  intros H. destruct (mem (Spec.title_text l) _) eqn:E; [| reflexivity].
  exfalso. unfold mem, strs in E. cbn [map existsb] in E.
  unfold Spec.names_verdict, Spec.title_word in H.
  rewrite !orb_true_iff in E.
  destruct E as [E | [E | [E | E]]]; [| | | discriminate];
    apply str_eqb_eq in E; rewrite E in H; discriminate H.
Qed.

Lemma name_loop_skip (pre rest : list str) (default : str) :
  Forall (fun x => startswith "# " x = false) pre ->
  Driver.name_loop (pre ++ rest) default = Driver.name_loop rest default.
Proof.
  induction 1 as [|x pre Hx Hpre IH]; [reflexivity |].
  cbn [app Driver.name_loop]. rewrite Hx. exact IH.
Qed.

Lemma last_title_name_app (l1 l2 : list str) (init : str) :
  Spec.last_title_name (l1 ++ l2) init
  = Spec.last_title_name l2 (Spec.last_title_name l1 init).
Proof. unfold Spec.last_title_name. apply fold_left_app. Qed.

Lemma last_title_name_skip (l : list str) (init : str) :
  Forall (fun x => Spec.is_name_title x = false) l ->
  Spec.last_title_name l init = init.
Proof.
  unfold Spec.last_title_name. revert init.
  induction l as [|x l IH]; intros init Hall; [reflexivity |].
  inversion Hall as [|? ? Hx Hl]; subst.
  cbn [fold_left]. rewrite Hx. auto.
Qed.



(** ** Numbered items are read back as written *)

Lemma digit_not_space (c : ascii) : is_digit c = true -> is_space c = false.
Proof.
  destruct c as [[] [] [] [] [] [] [] []]; vm_compute; congruence.
Qed.

Lemma digit_not_nl (s : str) :
  Forall (fun c => is_digit c = true) s -> ~ In nl s.
Proof.
  intros H Hin. apply (proj1 (Forall_forall _ _) H) in Hin. discriminate Hin.
Qed.

Lemma skipn_app_exact {A} (u s : list A) :
  skipn (List.length (u ++ s) - List.length s) (u ++ s) = s.
Proof.
  replace (List.length (u ++ s) - List.length s) with (List.length u)
    by (rewrite length_app; lia).
  rewrite skipn_app, skipn_all, Nat.sub_diag. reflexivity.
Qed.

Section Numbered.
Import Shape.

Variables (num item : str).
Hypothesis Hwf : numbered_wf (num, item).

Let line : str := num +++ ". " +++ item.

Lemma numbered_strip : strip line = line.
Proof.
  destruct Hwf as (Hn & Hd & Hi & Hs & _). cbn [fst snd] in *.
  pose proof (strip_first _ Hi Hs) as Hfirst.
  assert (rstrip item = item) as Hr.
  { destruct item as [|c v] eqn:E; [congruence |].
    unfold strip in Hs. cbn [lstrip] in Hs. rewrite Hfirst in Hs. exact Hs. }
  unfold strip, line.
  destruct num as [|d ds] eqn:En; [congruence |].
  inversion Hd as [|? ? Hd0 _]; subst.
  cbn [app lstrip]. rewrite (digit_not_space d Hd0).
  change (d :: ds ++ ". " +++ item) with ((d :: ds) ++ ". " +++ item).
  rewrite !app_assoc.
  rewrite rstrip_app_nonempty by (rewrite Hr; exact Hi).
  now rewrite Hr.
Qed.

Lemma numbered_matches : Re.matches Pat.number_dot line = true.
Proof.
  destruct Hwf as (Hn & Hd & _). cbn [fst snd] in *.
  unfold Re.matches, Re.match_at, Pat.number_dot, line.
  cbn [Re.seq Re.run Re.plus Re.txt].
  erewrite rep_greedy_max; [reflexivity | exact Hd | reflexivity | |].
  - destruct num; [congruence | cbn [List.length]; lia].
  - cbn [lit list_ascii_of_string app Re.lit_rest Re.chr_eq].
    rewrite Ascii.eqb_refl. reflexivity.
Qed.

Lemma numbered_item :
  Re.sub_start Pat.number_dot_spaces Pat.erase line = item.
Proof.
  destruct Hwf as (Hn & Hd & Hi & Hs & _). cbn [fst snd] in *.
  pose proof (strip_first _ Hi Hs) as Hfirst.
  unfold Re.sub_start, Re.match_at, Pat.number_dot_spaces, line.
  cbn [Re.seq Re.run Re.plus Re.star Re.txt].
  erewrite rep_greedy_max; [| exact Hd | reflexivity | |].
  3:{ cbn [lit list_ascii_of_string app Re.lit_rest Re.chr_eq].
      rewrite Ascii.eqb_refl.
      apply (rep_greedy_max _ is_space [" "%char] item);
        [repeat constructor | | cbn; lia | reflexivity].
      destruct item; [exact I | exact Hfirst]. }
  2:{ destruct num; [congruence | cbn [List.length]; lia]. }
  cbn [Pat.erase Re.m_len app].
  exact (eq_trans
           (f_equal (fun w => skipn (List.length w - List.length item) w)
                    (app_assoc num (lit ". ") item))
           (skipn_app_exact (num +++ ". ") item)).
Qed.

Lemma dd_line_written (acc : list str) :
  dd_line acc line = acc ++ [item].
Proof.
  unfold dd_line. rewrite numbered_strip, numbered_matches, numbered_item.
  destruct Hwf as (_ & _ & Hi & _). cbn [snd] in Hi.
  destruct item; [congruence | reflexivity].
Qed.

Lemma numbered_one_line : ~ In nl line.
Proof.
  destruct Hwf as (_ & Hd & _ & _ & Hnl). cbn [fst snd] in *.
  unfold line. intros H. apply in_app_or in H. destruct H as [H | H].
  { exact (digit_not_nl _ Hd H). }
  apply in_app_or in H. destruct H as [H | H]; [| contradiction].
  cbn in H. intuition discriminate.
Qed.

End Numbered.

Lemma dd_lines_written (xs : list (str * str)) :
  forall acc,
    Forall Shape.numbered_wf xs ->
    fold_left dd_line (map Shape.numbered_text xs) acc = acc ++ map snd xs.
Proof.
  induction xs as [|[num item] xs IH]; intros acc Hall; cbn [map fold_left].
  - now rewrite app_nil_r.
  - inversion Hall as [|? ? Hx Hxs]; subst.
    unfold Shape.numbered_text at 1. cbn [fst snd].
    rewrite (dd_line_written num item Hx). rewrite (IH _ Hxs).
    now rewrite <- app_assoc.
Qed.



(** ** Risks are listed under their header *)

Lemma risk_line_closed (st : risk_state) (l : str) :
  Shape.risks_header l = false ->
  rs_risks st = [] -> rs_in_risks st = false ->
  exists st', risk_line st l = Ok st'
              /\ rs_risks st' = [] /\ rs_in_risks st' = false.
Proof.
  intros Hh Hr Hin. unfold risk_line. unfold Shape.risks_header in Hh.
  rewrite Hh.
  destruct (contains "Information Gaps" (strip l)).
  - destruct (Re.search Pat.info_gaps_line (strip l)) eqn:E.
    + read_group E 1. eexists. split; [reflexivity |]. auto.
    + eexists. split; [reflexivity |]. auto.
  - rewrite Hin. cbn [andb bind]. eexists. split; [reflexivity |].
    cbn [rs_risks rs_in_risks]. auto.
Qed.

(** X14.  Numbered risks count only under a header: when no line of the
    section contains "Critical Risks" or "Key Risks", [parse_risks]
    returns no risk, however the lines are numbered. *)
Theorem parse_risks_needs_header (text : str) :
  Forall (fun l => Shape.risks_header l = false) (split_chr nl text) ->
  exists gaps, parse_risks text = Ok ([], gaps).
Proof.
  intros Hall. unfold parse_risks.
  destruct (for_each_inv_forall risk_line
              (fun st => rs_risks st = [] /\ rs_in_risks st = false)
              (fun l => Shape.risks_header l = false)) with
    (l := split_chr nl text)
    (s := {| rs_risks := []; rs_info_gaps := []; rs_in_risks := false |})
    as (st & Hst & Hr & _).
  - intros st l Hl [Hr Hi].
    destruct (risk_line_closed st l Hl Hr Hi) as (st' & H & H1 & H2). eauto.
  - exact Hall.
  - split; reflexivity.
  - rewrite Hst. cbn [bind]. rewrite Hr. eauto.
Qed.

Lemma parse_risks_needs_header_witness :
  exists gaps,
    parse_risks ("1. **Churn:** two customers left" +++ [nl]
                 +++ "2. **Margin:** thin") = Ok ([], gaps).
Proof.
  apply parse_risks_needs_header. repeat constructor.
Defined.

(** The pattern [\*\*(.+?):\*\*\s*(.+)] inside a longer pattern: on the
    text [**label:** value] it hands over the two groups. *)
Lemma key_value_run {T} (L sp v : str) (g : Re.caps)
    (k : str -> Re.caps -> option T) (x : T) :
  L <> [] -> ~ In ":"%char L -> ~ In nl L ->
  Forall (fun c => is_space c = true) sp ->
  v <> [] -> strip v = v -> ~ In nl v ->
  k [] ((2, v) :: (1, L) :: g) = Some x ->
  Re.run Pat.key_value ("**" +++ L +++ ":**" +++ sp ++ v) g k = Some x.
Proof.
  intros HL Hcolon HnlL Hsp Hv Hstrip Hnlv Hk.
  unfold Pat.key_value.
  cbn [Re.seq Re.run Re.txt Re.plus_lazy Re.star Re.plus].
  rewrite lit_rest_app.
  apply rep_lazy_first.
  - apply no_nl_dot. exact HnlL.
  - destruct L; [congruence | cbn [List.length]; lia].
  - intros i [_ Hi].
    destruct (skipn_head_in i L Hi) as (c & t & -> & Hin).
    cbn [app lit list_ascii_of_string Re.lit_rest Re.chr_eq].
    destruct (Ascii.eqb ":" c) eqn:E; [| reflexivity].
    apply Ascii.eqb_eq in E. subst c. contradiction.
  - rewrite lit_rest_app.
    apply rep_greedy_max; [exact Hsp | | lia |].
    + pose proof (strip_first v Hv Hstrip) as H.
      destruct v; [exact I | exact H].
    + rewrite <- (app_nil_r v) at 1.
      apply rep_greedy_max; [apply no_nl_dot; exact Hnlv | exact I | |].
      * destruct v; [congruence | cbn [List.length]; lia].
      * rewrite firstn_app_exact. cbn [List.length].
        rewrite !Nat.sub_0_r, firstn_all. exact Hk.
Qed.

Lemma risk_term_wf (x : str * point) :
  Shape.risk_wf x ->
  Shape.term_wf {| label := title (snd x); value := description (snd x) |}
  /\ Shape.risk_text x
     = Shape.numbered_text
         (fst x, Shape.term_text {| label := title (snd x);
                                    value := description (snd x) |}).
Proof.
  intros (_ & _ & H1 & H2 & H3 & H4 & H5 & H6 & _).
  split; [repeat split; assumption |].
  unfold Shape.risk_text, Shape.numbered_text, Shape.term_text.
  cbn [fst snd label value]. reflexivity.
Qed.

Lemma risk_numbered_wf (x : str * point) :
  Shape.risk_wf x ->
  Shape.numbered_wf
    (fst x, Shape.term_text {| label := title (snd x);
                               value := description (snd x) |}).
Proof.
  intros Hx. destruct (risk_term_wf x Hx) as [Ht _].
  destruct Hx as (Hn & Hd & _).
  repeat split; cbn [fst snd]; try assumption.
  - unfold Shape.term_text. discriminate.
  - apply term_text_strip. exact Ht.
  - apply term_text_one_line. exact Ht.
Qed.

Lemma risk_bold_match (x : str * point) :
  Shape.risk_wf x ->
  exists n,
    Re.match_at Pat.risk_bold (Shape.risk_text x)
    = Some {| Re.m_len := n;
              Re.m_groups := [(2, description (snd x)); (1, title (snd x))] |}.
Proof.
  intros Hx. destruct (risk_term_wf x Hx) as [Ht _].
  destruct Hx as (Hn & Hd & _).
  destruct Ht as (HL & Hc & HnL & Hv & Hs & Hnv). cbn [label value] in *.
  eexists. unfold Re.match_at, Pat.risk_bold, Shape.risk_text.
  change (Re.seq [Re.plus is_digit; Re.txt "."; Re.star is_space;
                  Re.txt "**"; Re.Grp 1 (Re.plus_lazy Re.dot);
                  Re.txt ":**"; Re.star is_space; Re.Grp 2 (Re.plus Re.dot)])
    with (Re.Seq (Re.plus is_digit)
            (Re.Seq (Re.txt ".") (Re.Seq (Re.star is_space) Pat.key_value))).
  cbn [Re.run Re.plus Re.star Re.txt].
  apply rep_greedy_max; [exact Hd | reflexivity | |].
  { destruct (fst x); [congruence | cbn [List.length]; lia]. }
  cbn [lit list_ascii_of_string app Re.lit_rest Re.chr_eq].
  rewrite Ascii.eqb_refl.
  apply (rep_greedy_max _ is_space [" "%char]);
    [repeat constructor | reflexivity | cbn; lia |].
  apply (key_value_run (title (snd x)) [" "%char] (description (snd x)));
    try assumption; [repeat constructor |].
  reflexivity.
Qed.

Lemma risk_line_written (rs : list point) (x : str * point) :
  Shape.risk_wf x ->
  risk_line {| rs_risks := rs; rs_info_gaps := []; rs_in_risks := true |}
            (Shape.risk_text x)
  = Ok {| rs_risks := rs ++ [snd x]; rs_info_gaps := [];
          rs_in_risks := true |}.
Proof.
  intros Hx.
  pose proof (risk_numbered_wf x Hx) as Hn.
  destruct (risk_term_wf x Hx) as [_ Heq].
  assert (strip (Shape.risk_text x) = Shape.risk_text x) as Hstrip.
  { rewrite Heq. apply (numbered_strip _ _ Hn). }
  assert (Re.matches Pat.number_dot (Shape.risk_text x) = true) as Hm.
  { rewrite Heq. apply (numbered_matches _ _ Hn). }
  destruct (risk_bold_match x Hx) as [n Hb].
  destruct Hx as (_ & _ & _ & _ & _ & _ & _ & _ & Hh & Hg).
  unfold Shape.risks_header in Hh. rewrite Hstrip in Hh.
  unfold risk_line. rewrite Hstrip, Hh, Hg.
  cbn [rs_in_risks rs_risks rs_info_gaps andb negb]. rewrite Hm, Hb.
  destruct x as [num [t d]]. reflexivity.
Qed.

Lemma risk_lines_written (xs : list (str * point)) :
  forall rs,
    Forall Shape.risk_wf xs ->
    for_each risk_line (map Shape.risk_text xs)
      {| rs_risks := rs; rs_info_gaps := []; rs_in_risks := true |}
    = Ok {| rs_risks := rs ++ map snd xs; rs_info_gaps := [];
            rs_in_risks := true |}.
Proof.
  induction xs as [|x xs IH]; intros rs Hall; cbn [map for_each].
  - now rewrite app_nil_r.
  - inversion Hall as [|? ? Hx Hxs]; subst.
    rewrite (risk_line_written rs x Hx). cbn [bind].
    rewrite (IH _ Hxs). now rewrite <- app_assoc.
Qed.



(** ** The assembler and the template *)

Lemma replace_absent (old new s : str) :
  old <> [] -> contains old s = false -> replace old new s = s.
Proof.
  intros Hold. unfold replace. destruct old as [|o old]; [congruence |].
  induction s as [|c s IH]; intros H; [reflexivity |].
  apply contains_cons_false in H. destruct H as [Hs Hc].
  cbn [replace_from]. rewrite Hs. f_equal. auto.
Qed.

(** No placeholder in a text without two opening braces. *)
Lemma placeholder_absent (name new s : str) :
  contains "{{" s = false -> replace ("{{" +++ name) new s = s.
Proof.
  intros H. apply replace_absent; [discriminate |].
  apply not_contains_app. exact H.
Qed.

Lemma lit_rest_startswith (p s : str) :
  Re.lit_rest false p s = None <-> startswith p s = false.
Proof.
  revert s; induction p as [|x p IH]; intros s;
    cbn [Re.lit_rest startswith Re.chr_eq].
  - split; discriminate.
  - destruct s as [|y s]; [tauto |].
    destruct (Ascii.eqb x y); cbn [andb]; [apply IH | tauto].
Qed.

Lemma sub_from_skip (r : Re.regex) (repl : Re.match_obj -> str)
    (w b : str) :
  b <> [] \/ Re.match_at r [] = None ->
  Re.sub_from r repl (w ++ b) (List.length w) = Re.sub_from r repl b 0.
Proof.
  intros Hb. induction w as [|c w IH]; [reflexivity |].
  cbn [app List.length]. destruct w as [|d w].
  - cbn [app List.length] in *. destruct b as [|e b].
    + cbn [Re.sub_from]. destruct Hb as [Hb | ->]; [congruence | reflexivity].
    + reflexivity.
  - exact IH.
Qed.

(** A match at the head of the text is passed over as a whole. *)
Lemma sub_from_at_match (r : Re.regex) (w b : str) (m : Re.match_obj) :
  Re.match_at r (w ++ b) = Some m ->
  Re.m_len m = List.length w ->
  b <> [] \/ Re.match_at r [] = None ->
  Re.sub_from r Pat.erase (w ++ b) 0 = Re.sub_from r Pat.erase b 0.
Proof.
  intros Hm Hlen Hb. destruct w as [|c w].
  - cbn [app] in *. destruct b as [|c b]; cbn [Re.sub_from].
    + destruct Hb as [Hb | Hb]; [congruence | congruence].
    + rewrite Hm, Hlen. reflexivity.
  - cbn [app] in Hm |- *. cbn [Re.sub_from]. rewrite Hm, Hlen.
    cbn [List.length Pat.erase app]. apply sub_from_skip. exact Hb.
Qed.

Section Appendix.
Import Shape.

Lemma appendix_needs_start (s : str) :
  startswith appendix_start s = false -> Re.match_at Pat.appendix s = None.
Proof.
  intros H. unfold Re.match_at, Pat.appendix.
  cbn [Re.seq Re.run Re.txt].
  apply lit_rest_startswith in H. unfold appendix_start in H.
  now rewrite H.
Qed.

(** A text without the opening comment is left as it is. *)
Lemma appendix_absent (s : str) :
  contains appendix_start s = false ->
  Re.sub Pat.appendix Pat.erase s = s.
Proof.
  unfold Re.sub. induction s as [|c s IH]; intros H; [reflexivity |].
  apply contains_cons_false in H. destruct H as [Hs Hc].
  cbn [Re.sub_from]. rewrite (appendix_needs_start _ Hs). f_equal. auto.
Qed.

Lemma appendix_prefix (a rest : str) :
  contains appendix_start (a ++ removelast appendix_start) = false ->
  Re.sub_from Pat.appendix Pat.erase (a ++ appendix_start ++ rest) 0
  = a ++ Re.sub_from Pat.appendix Pat.erase (appendix_start ++ rest) 0.
Proof.
  induction a as [|x a IH]; intros H; [cbn [app]; reflexivity |].
  change ((x :: a) ++ removelast appendix_start)
    with (x :: (a ++ removelast appendix_start)) in H.
  apply contains_cons_false in H. destruct H as [Hs Hc].
  change (x :: (a ++ removelast appendix_start))
    with ((x :: a) ++ removelast appendix_start) in Hs.
  apply (startswith_before appendix_start a rest x) in Hs; [| discriminate].
  cbn [app Re.sub_from]. cbn [app] in Hs.
  rewrite (appendix_needs_start _ Hs). f_equal. auto.
Qed.

(** The lazy pattern ends at the first closing comment. *)
Lemma appendix_match (body b : str) :
  contains appendix_end (body ++ removelast appendix_end) = false ->
  Re.match_at Pat.appendix (appendix_start ++ body ++ appendix_end ++ b)
  = Some {| Re.m_len :=
              List.length (appendix_start ++ body ++ appendix_end);
            Re.m_groups := [] |}.
Proof.
  intros H. unfold Re.match_at, Pat.appendix.
  cbn [Re.seq Re.run Re.txt Re.star_lazy].
  fold appendix_start. fold appendix_end.
  rewrite lit_rest_app.
  apply rep_lazy_first.
  - apply Forall_forall. reflexivity.
  - lia.
  - intros i [_ Hi].
    destruct (skipn_head_in i body Hi) as (c & t & Hsk & _).
    assert (contains appendix_end (skipn i body ++ removelast appendix_end)
            = false) as Hc.
    { rewrite <- (firstn_skipn i body), <- app_assoc in H.
      destruct (contains appendix_end
                  (skipn i body ++ removelast appendix_end)) eqn:E;
        [| reflexivity].
      apply (contains_suffix _ (firstn i body)) in E. congruence. }
    rewrite Hsk in Hc |- *.
    change ((c :: t) ++ removelast appendix_end)
      with (c :: (t ++ removelast appendix_end)) in Hc.
    apply contains_cons_false in Hc. destruct Hc as [Hs _].
    change (c :: (t ++ removelast appendix_end))
      with ((c :: t) ++ removelast appendix_end) in Hs.
    apply (startswith_before appendix_end t b c) in Hs; [| discriminate].
    apply lit_rest_startswith in Hs. now rewrite Hs.
  - rewrite lit_rest_app. f_equal. f_equal.
    rewrite !length_app. lia.
Qed.

Lemma appendix_cut (a body b : str) :
  contains appendix_start (a ++ removelast appendix_start) = false ->
  contains appendix_end (body ++ removelast appendix_end) = false ->
  contains appendix_start b = false ->
  Re.sub Pat.appendix Pat.erase
    (a ++ appendix_start ++ body ++ appendix_end ++ b)
  = a ++ b.
Proof.
  intros Ha Hbody Hb. unfold Re.sub.
  rewrite (appendix_prefix a _ Ha). f_equal.
  pose proof (appendix_match body b Hbody) as Hm.
  replace (appendix_start ++ body ++ appendix_end ++ b)
    with ((appendix_start ++ body ++ appendix_end) ++ b) in Hm |- *
    by now rewrite <- !app_assoc.
  rewrite (sub_from_at_match _ _ _ _ Hm eq_refl);
    [exact (appendix_absent b Hb) | right; reflexivity].
Qed.

End Appendix.

(** ** The template without placeholders *)

(** Without two opening braces in the template, no placeholder is found:
    the assembler leaves the template as it is, up to the appendix. *)
Lemma generate_html_no_placeholder (template now : str) (m : memo)
    (source date_str bull bear deliberation : str) :
  Spec.ratings_ok m ->
  contains "{{" template = false ->
  generate_html template now m source date_str bull bear deliberation
  = if truthy bull && truthy bear then Ok template
    else Ok (Re.sub Pat.appendix Pat.erase template).
Proof.
  intros Hm Hno. unfold generate_html.
  match goal with
  | |- context [for_each fit_tr (fit_table m) ?acc] =>
      destruct (for_each_forall fit_tr _ fit_tr_total (fit_table m) acc Hm)
        as [fit_html ->]
  end.
  cbn [bind]. cbv zeta.
  repeat match goal with
  | |- context [replace (lit ?p) ?v template] =>
      let H := fresh "H" in
      assert (replace (lit p) v template = template) as H
        by (apply (placeholder_absent (skipn 2 (lit p)) v template);
            exact Hno);
      rewrite H; clear H
  end.
  destruct (truthy bull && truthy bear); reflexivity.
Qed.





(** ** The points of the bull and bear case are read back as written *)

Lemma stripped_rstrip (v : str) : v <> [] -> strip v = v -> rstrip v = v.
Proof.
  intros Hv Hs. pose proof (strip_first v Hv Hs) as Hfirst.
  destruct v as [|c v]; [congruence |].
  unfold strip in Hs. cbn [lstrip] in Hs. rewrite Hfirst in Hs. exact Hs.
Qed.

(** The pattern [\*\*(.+?)\*\*\s*[-:]+\s*(.+)] on [**title** - text]. *)
Lemma bullet_title_match (t d : str) :
  t <> [] -> ~ In "*"%char t -> ~ In nl t ->
  d <> [] -> strip d = d -> ~ In nl d ->
  match d with c :: _ => Re.one_of "-:" c = false | [] => True end ->
  exists n,
    Re.match_at Pat.bullet_title ("**" +++ t +++ "** - " +++ d)
    = Some {| Re.m_len := n; Re.m_groups := [(2, d); (1, t)] |}.
Proof.
  intros Ht Hstar Hnlt Hd Hs Hnld Hdash.
  pose proof (strip_first d Hd Hs) as Hfirst.
  eexists. unfold Re.match_at, Pat.bullet_title.
  cbn [Re.seq Re.run Re.txt Re.plus_lazy Re.star Re.plus].
  rewrite lit_rest_app.
  apply rep_lazy_first.
  - apply no_nl_dot. exact Hnlt.
  - destruct t; [congruence | cbn [List.length]; lia].
  - intros i [_ Hi].
    destruct (skipn_head_in i t Hi) as (c & u & -> & Hin).
    cbn [app lit list_ascii_of_string Re.lit_rest Re.chr_eq].
    destruct (Ascii.eqb "*" c) eqn:E; [| reflexivity].
    apply Ascii.eqb_eq in E. subst c. contradiction.
  - cbn [lit list_ascii_of_string app Re.lit_rest Re.chr_eq].
    rewrite !Ascii.eqb_refl.
    apply (rep_greedy_max _ is_space [" "%char]);
      [repeat constructor | reflexivity | cbn [List.length]; lia |].
    apply (rep_greedy_max _ (Re.one_of "-:") ["-"%char]);
      [repeat constructor | reflexivity | cbn [List.length]; lia |].
    apply (rep_greedy_max _ is_space [" "%char]);
      [repeat constructor | | cbn [List.length]; lia |].
    { destruct d; [exact I | exact Hfirst]. }
    rewrite <- (app_nil_r d) at 1.
    apply rep_greedy_max; [apply no_nl_dot; exact Hnld | exact I | |].
    + destruct d; [congruence | cbn [List.length]; lia].
    + rewrite (firstn_app_exact t). cbn [List.length].
      rewrite !Nat.sub_0_r, firstn_all. reflexivity.
Qed.

Lemma bullet_line_written (acc : list point) (x : point) :
  Shape.point_wf x ->
  bullet_line acc (Shape.point_text x) = Ok (acc ++ [x]).
Proof.
  intros (Hstar & Hnlt & Hcolon & Hd & Hs & Hnld & Hdash & Hplain).
  destruct x as [t d]. cbn [title description] in *.
  pose proof (stripped_rstrip d Hd Hs) as Hr.
  unfold Shape.point_text. cbn [title description].
  destruct t as [|c t].
  - cbn [truthy]. unfold bullet_line.
    assert (strip ("- " +++ d) = "- " +++ d) as ->.
    { unfold strip.
      assert (lstrip ("- " +++ d) = "- " +++ d) as -> by reflexivity.
      rewrite rstrip_app_nonempty by (rewrite Hr; exact Hd).
      now rewrite Hr. }
    assert (startswith "- " ("- " +++ d) = true) as -> by reflexivity.
    cbn [orb]. change (skipn 2 ("- " +++ d)) with d.
    assert (Re.match_at Pat.bullet_title d = None) as ->.
    { unfold Re.match_at, Pat.bullet_title.
      cbn [Re.seq Re.run Re.txt].
      specialize (Hplain eq_refl). apply lit_rest_startswith in Hplain.
      now rewrite Hplain. }
    destruct d; [congruence | reflexivity].
  - cbn [truthy]. unfold bullet_line.
    assert (strip ("- **" +++ (c :: t) +++ "** - " +++ d)
            = "- **" +++ (c :: t) +++ "** - " +++ d) as ->.
    { unfold strip.
      assert (lstrip ("- **" +++ (c :: t) +++ "** - " +++ d)
              = "- **" +++ (c :: t) +++ "** - " +++ d) as -> by reflexivity.
      rewrite !app_assoc.
      rewrite rstrip_app_nonempty by (rewrite Hr; exact Hd).
      now rewrite Hr. }
    assert (startswith "- " ("- **" +++ (c :: t) +++ "** - " +++ d) = true)
      as -> by reflexivity.
    cbn [orb].
    change (skipn 2 ("- **" +++ (c :: t) +++ "** - " +++ d))
      with ("**" +++ (c :: t) +++ "** - " +++ d).
    destruct (bullet_title_match (c :: t) d) as [n ->]; try assumption;
      [discriminate | apply Hdash; discriminate |].
    cbn [Re.group Re.lookup Re.m_groups Nat.eqb bind]. rewrite Hcolon.
    reflexivity.
Qed.

Lemma bullet_lines_written (xs : list point) :
  forall acc,
    Forall Shape.point_wf xs ->
    for_each bullet_line (map Shape.point_text xs) acc = Ok (acc ++ xs).
Proof.
  induction xs as [|x xs IH]; intros acc Hall; cbn [map for_each].
  - now rewrite app_nil_r.
  - inversion Hall as [|? ? Hx Hxs]; subst.
    rewrite (bullet_line_written acc x Hx). cbn [bind].
    rewrite (IH _ Hxs). now rewrite <- app_assoc.
Qed.

Lemma point_text_one_line (x : point) :
  Shape.point_wf x -> ~ In nl (Shape.point_text x).
Proof.
  intros (_ & Hnlt & _ & _ & _ & Hnld & _). unfold Shape.point_text.
  destruct (truthy (title x)); intros H.
  - apply in_app_or in H. destruct H as [H | H].
    { cbn in H. intuition discriminate. }
    apply in_app_or in H. destruct H as [H | H]; [contradiction |].
    apply in_app_or in H. destruct H as [H | H]; [| contradiction].
    cbn in H. intuition discriminate.
  - apply in_app_or in H. destruct H as [H | H]; [| contradiction].
    cbn in H. intuition discriminate.
Qed.


